(** * QScript handler (qscript_playwright/handler.py): a shallow embedding

    The interpreter reads a script line by line, dispatches every line on
    its first word to a command handler, and reports one Step Result (a
    Python dict) per executed line.  The browser is an external
    collaborator; it is modelled as an abstract engine whose calls return a
    value or raise.

    Text is modelled by Rocq strings of 8-bit characters.  The embedding is
    exact on ASCII text; a character above 127 is an ordinary character that
    is neither white space, nor a digit, nor a word character. *)

From Stdlib Require Import Bool Arith NArith ZArith QArith Lia List.
From Stdlib Require Import Ascii String DecimalString Sorted.
Import ListNotations.
Close Scope Q_scope.
Open Scope string_scope.
Open Scope nat_scope.
Set Warnings "-register-all".

(** ** Characters *)

Module Chars.

Definition code (c : ascii) : N := N_of_ascii c.

Definition between (lo hi : N) (c : ascii) : bool :=
  ((lo <=? code c) && (code c <=? hi))%N.

(** [str.isspace], also the class [\s] of [re]: TAB LF VT FF CR, FS GS RS US
    and the space. *)
Definition isspace (c : ascii) : bool :=
  between 9 13 c || between 28 31 c || (code c =? 32)%N.

(** The class [\d]. *)
Definition isdigit (c : ascii) : bool := between 48 57 c.

Definition isupper (c : ascii) : bool := between 65 90 c.
Definition islower (c : ascii) : bool := between 97 122 c.

(** The class [\w]: letters, digits and the underscore. *)
Definition isword (c : ascii) : bool :=
  isdigit c || isupper c || islower c || (code c =? 95)%N.

(** The class [.]: anything but a line feed. *)
Definition isdot (c : ascii) : bool := negb (code c =? 10)%N.

(** The class [[\d.]]. *)
Definition isdigit_or_dot (c : ascii) : bool := isdigit c || (code c =? 46)%N.

Definition quote : ascii := "034"%char.

(** The class of the characters other than the double quote. *)
Definition notquote (c : ascii) : bool := negb (Ascii.eqb c quote).

(** Characters at which [str.splitlines] breaks a line (CR LF is handled by
    the caller). *)
Definition islinebreak (c : ascii) : bool :=
  between 10 13 c || between 28 30 c.

Definition tolower (c : ascii) : ascii :=
  if isupper c then ascii_of_N (code c + 32) else c.

End Chars.

(** ** Strings, as Python's [str] methods use them *)

Module Str.
Import Chars.

Fixpoint all (p : ascii -> bool) (s : string) : bool :=
  match s with
  | EmptyString => true
  | String c s' => p c && all p s'
  end.

Fixpoint count (p : ascii -> bool) (s : string) : nat :=
  match s with
  | EmptyString => 0
  | String c s' => (if p c then 1 else 0) + count p s'
  end.

Fixpoint drop (n : nat) (s : string) : string :=
  match n, s with
  | O, _ => s
  | S n', String _ s' => drop n' s'
  | S _, EmptyString => EmptyString
  end.

Fixpoint take (n : nat) (s : string) : string :=
  match n, s with
  | S n', String c s' => String c (take n' s')
  | _, _ => EmptyString
  end.

(** [s.startswith(p)] *)
Definition startswith (p s : string) : bool := String.prefix p s.

(** What is left of [s] after its prefix [p], when [p] is one. *)
Fixpoint strip_prefix (p s : string) : option string :=
  match p, s with
  | EmptyString, _ => Some s
  | String a p', String b s' => if Ascii.eqb a b then strip_prefix p' s' else None
  | String _ _, EmptyString => None
  end.

Fixpoint lstrip (s : string) : string :=
  match s with
  | String c s' => if isspace c then lstrip s' else s
  | EmptyString => EmptyString
  end.

Fixpoint rstrip (s : string) : string :=
  match s with
  | EmptyString => EmptyString
  | String c s' =>
      match rstrip s' with
      | EmptyString => if isspace c then EmptyString else String c EmptyString
      | r => String c r
      end
  end.

(** [s.strip()] *)
Definition strip (s : string) : string := rstrip (lstrip s).

(** The longest prefix of [s] made of characters of [p], and the rest. *)
Fixpoint span (p : ascii -> bool) (s : string) : string * string :=
  match s with
  | String c s' =>
      if p c then let (a, b) := span p s' in (String c a, b) else (EmptyString, s)
  | EmptyString => (EmptyString, EmptyString)
  end.

(** [s.split()]: the maximal runs of characters that are not white space.
    [cur] is the run being read, when one is. *)
Fixpoint split_go (cur : option string) (s : string) : list string :=
  match s with
  | EmptyString => match cur with Some w => [w] | None => [] end
  | String c s' =>
      if isspace c
      then match cur with Some w => w :: split_go None s' | None => split_go None s' end
      else split_go (Some (match cur with Some w => w ++ String c "" | None => String c "" end)) s'
  end.

Definition split (s : string) : list string := split_go None s.

(** [re.findall(r'\w+', s)]: the maximal runs of word characters. *)
Fixpoint findall_go (cur : option string) (s : string) : list string :=
  match s with
  | EmptyString => match cur with Some w => [w] | None => [] end
  | String c s' =>
      if isword c
      then findall_go (Some (match cur with Some w => w ++ String c "" | None => String c "" end)) s'
      else match cur with Some w => w :: findall_go None s' | None => findall_go None s' end
  end.

Definition findall_words (s : string) : list string := findall_go None s.

(** [s.splitlines()]: [cur] is the line being read; a line feed right after
    a carriage return belongs to the same break. *)
Fixpoint splitlines_go (cur : string) (after_cr : bool) (s : string) : list string :=
  match s with
  | EmptyString => match cur with EmptyString => [] | _ => [cur] end
  | String c s' =>
      if (code c =? 13)%N then cur :: splitlines_go "" true s'
      else if (code c =? 10)%N then
        if after_cr then splitlines_go "" false s' else cur :: splitlines_go "" false s'
      else if islinebreak c then cur :: splitlines_go "" false s'
      else splitlines_go (cur ++ String c "") false s'
  end.

Definition splitlines (s : string) : list string :=
  match s with
  | EmptyString => []
  | _ => splitlines_go "" false s
  end.

(** [s.lower()] *)
Fixpoint lower (s : string) : string :=
  match s with
  | EmptyString => EmptyString
  | String c s' => String (tolower c) (lower s')
  end.

(** [s.replace(old, new)] for a non-empty [old]: the occurrences of [old]
    are found from the left and do not overlap.  [skip] counts the
    characters of the occurrence just replaced that are still to be passed. *)
Fixpoint replace_go (old new : string) (skip : nat) (s : string) : string :=
  match s with
  | EmptyString => EmptyString
  | String c s' =>
      match skip with
      | S n => replace_go old new n s'
      | O =>
          if startswith old s
          then new ++ replace_go old new (length old - 1) s'
          else String c (replace_go old new 0 s')
      end
  end.

Definition replace (old new s : string) : string := replace_go old new 0 s.

(** [s.split(sep, 1)] for a one-character [sep] that occurs in [s]. *)
Fixpoint split_once (sep : ascii) (s : string) : option (string * string) :=
  match s with
  | EmptyString => None
  | String c s' =>
      if Ascii.eqb c sep then Some (EmptyString, s')
      else match split_once sep s' with
           | Some (a, b) => Some (String c a, b)
           | None => None
           end
  end.

(** [s in l] *)
Definition mem (s : string) (l : list string) : bool :=
  existsb (String.eqb s) l.

(** Does [p] occur in [s]? *)
Fixpoint occurs (p s : string) : bool :=
  startswith p s ||
  match s with
  | EmptyString => false
  | String _ s' => occurs p s'
  end.

(** [str(n)], and the value of a decimal numeral. *)
Definition of_Z (z : Z) : string := NilZero.string_of_int (Z.to_int z).

Fixpoint int_go (acc : Z) (s : string) : Z :=
  match s with
  | EmptyString => acc
  | String c s' => int_go (10 * acc + (Z.of_N (code c) - 48))%Z s'
  end.

Definition to_int (s : string) : Z := int_go 0 s.

End Str.

(** ** The fragment of [re] the handler's patterns are written in

    Quantifiers are only ever applied to a character class, so matching
    recurses on the pattern and, inside a repetition, on the text.  The
    matcher backtracks in the order of [re]: a greedy repetition tries the
    longest run first, a lazy one the shortest, an alternation its left
    branch. *)

Module Re.
Import Chars.

Inductive regex : Type :=
| Lit (l : string)                  (* literal text *)
| Star (p : ascii -> bool)          (* [p]*  *)
| Plus (p : ascii -> bool)          (* [p]+  *)
| PlusLazy (p : ascii -> bool)      (* [p]+? *)
| Cat (r1 r2 : regex)
| Alt (r1 r2 : regex)
| Grp (r : regex).                  (* ( ... ) *)

Definition groups := list string.

Fixpoint rep_greedy (p : ascii -> bool) (s : string)
    (k : string -> option groups) : option groups :=
  match s with
  | String c s' =>
      if p c
      then match rep_greedy p s' k with
           | Some g => Some g
           | None => k s
           end
      else k s
  | EmptyString => k s
  end.

Fixpoint rep_lazy (p : ascii -> bool) (s : string)
    (k : string -> option groups) : option groups :=
  match k s with
  | Some g => Some g
  | None =>
      match s with
      | String c s' => if p c then rep_lazy p s' k else None
      | EmptyString => None
      end
  end.

(** The text read between [s] and its suffix [s']. *)
Definition consumed (s s' : string) : string :=
  Str.take (length s - length s') s.

Fixpoint exec (r : regex) (s : string) (gs : groups)
    (k : string -> groups -> option groups) : option groups :=
  match r with
  | Lit l =>
      match Str.strip_prefix l s with
      | Some s' => k s' gs
      | None => None
      end
  | Star p => rep_greedy p s (fun s' => k s' gs)
  | Plus p =>
      match s with
      | String c s' => if p c then rep_greedy p s' (fun s'' => k s'' gs) else None
      | EmptyString => None
      end
  | PlusLazy p =>
      match s with
      | String c s' => if p c then rep_lazy p s' (fun s'' => k s'' gs) else None
      | EmptyString => None
      end
  | Cat r1 r2 => exec r1 s gs (fun s' gs' => exec r2 s' gs' k)
  | Alt r1 r2 =>
      match exec r1 s gs k with
      | Some g => Some g
      | None => exec r2 s gs k
      end
  | Grp r1 => exec r1 s gs (fun s' gs' => k s' (gs' ++ [consumed s s'])%list)
  end.

(** [re.match(r, s)]: anchored at the start of [s], free at its end; the
    result lists [group(1)], [group(2)], ... *)
Definition re_match (r : regex) (s : string) : option groups :=
  exec r s [] (fun _ gs => Some gs).

Fixpoint cat (rs : list regex) : regex :=
  match rs with
  | [] => Lit ""
  | [r] => r
  | r :: rs' => Cat r (cat rs')
  end.

Definition ws1 : regex := Plus isspace.        (* \s+ *)
Definition ws0 : regex := Star isspace.        (* \s* *)
Definition dq : string := String quote "".

(** A double quote, [(.+?)], a double quote. *)
Definition quoted : regex := cat [Lit dq; Grp (PlusLazy isdot); Lit dq].

(** A double quote, a group of one or more characters that are not one, a
    double quote. *)
Definition quoted_noquote : regex := cat [Lit dq; Grp (Plus notquote); Lit dq].

End Re.

Import Chars Str Re.

(** ** Python values, dicts and exceptions *)

(** What [json.dumps] can print: the values a Step Result holds. *)
Inductive value : Type :=
| VNone
| VBool (b : bool)
| VInt (z : Z)
| VFloat (x : Q)
| VStr (s : string)
| VList (l : list value)
| VDict (d : list (string * value)).

(** A [dict] with string keys, in insertion order. *)
Definition dict := list (string * value).

Fixpoint dict_get (k : string) (d : dict) : option value :=
  match d with
  | [] => None
  | (k', v) :: d' => if String.eqb k k' then Some v else dict_get k d'
  end.

(** [d[k] = v]: a key that is there keeps its place. *)
Fixpoint dict_set (k : string) (v : value) (d : dict) : dict :=
  match d with
  | [] => [(k, v)]
  | (k', v') :: d' =>
      if String.eqb k k' then (k', v) :: d' else (k', v') :: dict_set k v d'
  end.

(** A dict display [{k1: v1, ..., kn: vn}], and [{..., **more}]. *)
Definition dict_of (kvs : list (string * value)) : dict :=
  fold_left (fun d kv => dict_set (fst kv) (snd kv) d) kvs [].

Definition dict_update (d more : dict) : dict :=
  fold_left (fun d kv => dict_set (fst kv) (snd kv) d) more d.

(** Python's truth value of a value, as [if base:] tests it. *)
Definition truthy (v : value) : bool :=
  match v with
  | VNone => false
  | VBool b => b
  | VInt z => negb (z =? 0)%Z
  | VFloat x => negb (Qeq_bool x 0)
  | VStr s => negb (String.eqb s "")
  | VList l => match l with [] => false | _ => true end
  | VDict d => match d with [] => false | _ => true end
  end.

Inductive exn : Type :=
| AssertionError (msg : string)
| PlaywrightTimeoutError (msg : string)   (* a subclass of playwright's Error *)
| PlaywrightError (msg : string)
| UnboundLocalError (msg : string)
| ValueError (msg : string)
| TypeError (msg : string)
| IndexError (msg : string)
| AttributeError (msg : string)
| ReError (msg : string).

(** [str(e)] *)
Definition exn_str (e : exn) : string :=
  match e with
  | AssertionError m | PlaywrightTimeoutError m | PlaywrightError m
  | UnboundLocalError m | ValueError m | TypeError m | IndexError m
  | AttributeError m | ReError m => m
  end.

Definition is_AssertionError (e : exn) : bool :=
  match e with AssertionError _ => true | _ => false end.

Definition is_PlaywrightTimeoutError (e : exn) : bool :=
  match e with PlaywrightTimeoutError _ => true | _ => false end.

(** Every exception of the model is an [Exception]. *)
Definition is_Exception (e : exn) : bool := true.

Inductive outcome (A : Type) : Type :=
| Ok (a : A)
| Raise (e : exn).
Arguments Ok {A} a.
Arguments Raise {A} e.

(** [int(s)] on a decimal numeral: CPython turns down a numeral of more
    than 4300 digits ([sys.int_info.default_max_str_digits]), leading zeros
    counted. *)
Definition int_of_str (s : string) : outcome Z :=
  if (4300 <? Z.of_nat (length s))%Z
  then Raise (ValueError
         ("Exceeds the limit (4300 digits) for integer string conversion: "
          ++ "value has " ++ of_Z (Z.of_nat (length s))
          ++ " digits; use sys.set_int_max_str_digits() to increase the limit"))
  else Ok (to_int s).

(** ** The browser engine *)

Inductive request : Type :=
| Request (url : string) (redirected_from : option request).

Definition request_url (r : request) : string :=
  match r with Request u _ => u end.

Record response : Type := Response {
  status : Z;
  headers : value;
  resp_request : request
}.

Record cookie : Type := Cookie { ck_name : string; ck_value : string }.

(** [page.locator(sel)], [.nth(i)] and [.first] of one. *)
Inductive locator : Type :=
| Loc (sel : string)
| Nth (sel : string) (i : nat)
| First (sel : string).

(** What the handler needs of its surroundings.  [B] is the state of the
    browser; a call returns or raises, and leaves the browser in a new
    state.  [HTTP_REASONS] is [http.client.responses]; [re_dyn] is
    [re.match] on a pattern given by the script; the three [float] fields
    parse and print Python floats, which the model holds as rationals. *)
Record Env (B : Type) : Type := {
  pg_goto : string -> B -> outcome (option response) * B;
  pg_evaluate : string -> B -> outcome value * B;
  pg_title : B -> outcome string * B;
  pg_url : B -> string;
  pg_content : B -> outcome string * B;
  pg_screenshot : string -> B -> outcome unit * B;
  pg_click : string -> B -> outcome unit * B;
  pg_fill : string -> string -> B -> outcome unit * B;
  pg_press : string -> string -> B -> outcome unit * B;
  pg_wait_for_selector : string -> Z -> B -> outcome unit * B;
  pg_wait_for_load_state : string -> Z -> B -> outcome unit * B;
  pg_set_viewport_size : Z -> Z -> B -> outcome unit * B;
  pg_cookies : B -> outcome (list cookie) * B;
  loc_count : locator -> B -> outcome nat * B;
  loc_is_visible : locator -> B -> outcome bool * B;
  loc_get_attribute : locator -> string -> B -> outcome (option string) * B;
  loc_evaluate : locator -> string -> B -> outcome string * B;
  loc_scroll_into_view_if_needed : locator -> B -> outcome unit * B;
  sleep : Q -> B -> B;
  time_ms : B -> Z * B;
  write_text : string -> string -> B -> outcome unit * B;
  HTTP_REASONS : Z -> option string;
  re_dyn : string -> string -> outcome bool;
  float_of_str : string -> outcome Q;
  float_str : Q -> string;
  float_2f : Q -> string
}.

Arguments pg_goto {B}. Arguments pg_evaluate {B}. Arguments pg_title {B}.
Arguments pg_url {B}. Arguments pg_content {B}. Arguments pg_screenshot {B}.
Arguments pg_click {B}. Arguments pg_fill {B}. Arguments pg_press {B}.
Arguments pg_wait_for_selector {B}. Arguments pg_wait_for_load_state {B}.
Arguments pg_set_viewport_size {B}. Arguments pg_cookies {B}.
Arguments loc_count {B}. Arguments loc_is_visible {B}.
Arguments loc_get_attribute {B}. Arguments loc_evaluate {B}.
Arguments loc_scroll_into_view_if_needed {B}. Arguments sleep {B}.
Arguments time_ms {B}. Arguments write_text {B}. Arguments HTTP_REASONS {B}.
Arguments re_dyn {B}. Arguments float_of_str {B}. Arguments float_str {B}.
Arguments float_2f {B}.

(** The page object: the browser, and the two attributes the handler
    attaches to it ([None] when the attribute was never set). *)
Record Page (B : Type) : Type := MkPage {
  browser : B;
  _last_response : option response;
  _vars : option dict
}.
Arguments MkPage {B}. Arguments browser {B}. Arguments _last_response {B}.
Arguments _vars {B}.

(** ** Computations on a page that return or raise *)

Module Run.

Definition M (B A : Type) : Type := Page B -> outcome A * Page B.

Definition ret {B A} (a : A) : M B A := fun p => (Ok a, p).

Definition raise {B A} (e : exn) : M B A := fun p => (Raise e, p).

Definition bind {B A C} (m : M B A) (f : A -> M B C) : M B C :=
  fun p =>
    match m p with
    | (Ok a, p') => f a p'
    | (Raise e, p') => (Raise e, p')
    end.

(** [try: m  except <catches>: h e] *)
Definition try_except {B A} (m : M B A) (catches : exn -> bool)
    (h : exn -> M B A) : M B A :=
  fun p =>
    match m p with
    | (Ok a, p') => (Ok a, p')
    | (Raise e, p') => if catches e then h e p' else (Raise e, p')
    end.

(** A call of the engine. *)
Definition call {B A} (f : B -> outcome A * B) : M B A :=
  fun p =>
    let (r, b) := f (browser p) in
    (r, MkPage b (_last_response p) (_vars p)).

(** A call of the engine that cannot raise. *)
Definition call_total {B A} (f : B -> A * B) : M B A :=
  fun p =>
    let (a, b) := f (browser p) in
    (Ok a, MkPage b (_last_response p) (_vars p)).

Definition get_page {B} : M B (Page B) := fun p => (Ok p, p).

Definition set_last_response {B} (r : response) : M B unit :=
  fun p => (Ok tt, MkPage (browser p) (Some r) (_vars p)).

Definition set_vars {B} (d : dict) : M B unit :=
  fun p => (Ok tt, MkPage (browser p) (_last_response p) (Some d)).

End Run.

Import Run.

Declare Scope run_scope.
Delimit Scope run_scope with run.
Notation "x <- m ;; k" := (bind m (fun x => k))
  (at level 61, m at next level, right associativity) : run_scope.
Notation "m ;;; k" := (bind m (fun _ => k))
  (at level 61, right associativity) : run_scope.
Open Scope run_scope.

(** ** difflib.SequenceMatcher, as [similar] uses it

    [SequenceMatcher(None, a, b).ratio()], after CPython's Lib/difflib.py.
    The two sequences are strings and their elements characters.  [isjunk]
    is [None], so the set [bjunk] is empty and the two loops of
    [find_longest_match] that extend a match over junk never run;
    [autojunk] is on. *)

Module Difflib.

(** [b2j]: for each element of [b], the indices where it occurs, growing. *)
Definition b2j_t := list (ascii * list nat).

(** [b2j.get(c, nothing)] *)
Fixpoint b2j_get (c : ascii) (d : b2j_t) : list nat :=
  match d with
  | [] => []
  | (c', l) :: d' => if Ascii.eqb c c' then l else b2j_get c d'
  end.

(** [b2j.setdefault(c, []).append(i)] *)
Fixpoint b2j_append (c : ascii) (i : nat) (d : b2j_t) : b2j_t :=
  match d with
  | [] => [(c, [i])]
  | (c', l) :: d' =>
      if Ascii.eqb c c' then (c', (l ++ [i])%list) :: d'
      else (c', l) :: b2j_append c i d'
  end.

(** The loop of [__chain_b] over [enumerate(b)]. *)
Fixpoint chain_loop (i : nat) (b : string) (d : b2j_t) : b2j_t :=
  match b with
  | EmptyString => d
  | String c b' => chain_loop (S i) b' (b2j_append c i d)
  end.

(** [__chain_b]: the popular elements of a [b] of 200 elements or more are
    deleted from [b2j]. *)
Definition chain_b (b : string) : b2j_t :=
  let b2j := chain_loop 0 b [] in
  let n := length b in
  if 200 <=? n then
    let ntest := n / 100 + 1 in
    filter (fun kv => negb (ntest <? List.length (snd kv))) b2j
  else b2j.

(** [j2len]: a dict from an index of [b] to a length. *)
Definition j2len_t := list (nat * nat).

(** [j2len.get(j, 0)] *)
Fixpoint j2len_get (j : nat) (d : j2len_t) : nat :=
  match d with
  | [] => 0
  | (j', k) :: d' => if j =? j' then k else j2len_get j d'
  end.

(** [newj2len[j] = k] *)
Fixpoint j2len_set (j k : nat) (d : j2len_t) : j2len_t :=
  match d with
  | [] => [(j, k)]
  | (j', k') :: d' =>
      if j =? j' then (j', k) :: d' else (j', k') :: j2len_set j k d'
  end.

(** [(besti, bestj, bestsize)] *)
Definition match_t := (nat * nat * nat)%type.

Definition size (m : match_t) : nat := snd m.

Definition char_eqb (x y : option ascii) : bool :=
  match x, y with
  | Some c, Some d => Ascii.eqb c d
  | None, None => true
  | _, _ => false
  end.

Section FindLongestMatch.

Variables (a b : string) (b2j : b2j_t).
Variables (alo ahi blo bhi : nat).

(** The loop over [j in b2j.get(a[i], nothing)].  [j2len.get(j-1, 0)] is 0
    at [j = 0], where the key is -1; [i-k+1] is written [i+1-k]. *)
Fixpoint inner (i : nat) (js : list nat) (j2len newj2len : j2len_t)
    (best : match_t) : j2len_t * match_t :=
  match js with
  | [] => (newj2len, best)
  | j :: js' =>
      if j <? blo then inner i js' j2len newj2len best            (* continue *)
      else if bhi <=? j then (newj2len, best)                     (* break *)
      else
        let k := match j with O => 0 | S j' => j2len_get j' j2len end + 1 in
        let newj2len' := j2len_set j k newj2len in
        let best' := if size best <? k then (i + 1 - k, j + 1 - k, k) else best in
        inner i js' j2len newj2len' best'
  end.

(** The loop over [i in range(alo, ahi)]. *)
Fixpoint outer (is_ : list nat) (j2len : j2len_t) (best : match_t) : match_t :=
  match is_ with
  | [] => best
  | i :: is' =>
      let js := match String.get i a with
                | Some c => b2j_get c b2j
                | None => []
                end in
      let (newj2len, best') := inner i js j2len [] best in
      outer is' newj2len best'
  end.

(** The first [while]: extend the match to the left. *)
Fixpoint extend_left (besti bestj bestsize : nat) : match_t :=
  match besti, bestj with
  | S i', S j' =>
      if (alo <? besti) && (blo <? bestj)
         && char_eqb (String.get i' a) (String.get j' b)
      then extend_left i' j' (bestsize + 1)
      else (besti, bestj, bestsize)
  | _, _ => (besti, bestj, bestsize)
  end.

(** The second [while]: extend it to the right.  [room] is
    [ahi - (besti + bestsize)]: the loop stops when it is 0. *)
Fixpoint extend_right (room : nat) (besti bestj bestsize : nat) : match_t :=
  match room with
  | O => (besti, bestj, bestsize)
  | S room' =>
      if (bestj + bestsize <? bhi)
         && char_eqb (String.get (besti + bestsize) a)
                     (String.get (bestj + bestsize) b)
      then extend_right room' besti bestj (bestsize + 1)
      else (besti, bestj, bestsize)
  end.

Definition find_longest_match : match_t :=
  let '(besti, bestj, bestsize) := outer (seq alo (ahi - alo)) [] (alo, blo, 0) in
  let '(besti, bestj, bestsize) := extend_left besti bestj bestsize in
  extend_right (ahi - (besti + bestsize)) besti bestj bestsize.

End FindLongestMatch.

(** A range [(alo, ahi, blo, bhi)] still to look at. *)
Definition range_t := (nat * nat * nat * nat)%type.

(** The [while queue:] loop of [get_matching_blocks].  The queue is held
    last element first, so that [pop] takes its head and [append] conses.
    [fuel] bounds the number of passes; [None] when it runs out. *)
Fixpoint blocks_loop (a b : string) (b2j : b2j_t) (fuel : nat)
    (queue : list range_t) (matching_blocks : list match_t)
    : option (list match_t) :=
  match queue with
  | [] => Some matching_blocks
  | (alo, ahi, blo, bhi) :: queue' =>
      match fuel with
      | O => None
      | S fuel' =>
          let '(i, j, k) := find_longest_match a b b2j alo ahi blo bhi in
          if negb (k =? 0) then
            let q1 := if (alo <? i) && (blo <? j)
                      then (alo, i, blo, j) :: queue' else queue' in
            let q2 := if (i + k <? ahi) && (j + k <? bhi)
                      then (i + k, ahi, j + k, bhi) :: q1 else q1 in
            blocks_loop a b b2j fuel' q2 (matching_blocks ++ [(i, j, k)])%list
          else blocks_loop a b b2j fuel' queue' matching_blocks
      end
  end.

(** The order of tuples. *)
Definition match_leb (x y : match_t) : bool :=
  let '(i1, j1, k1) := x in
  let '(i2, j2, k2) := y in
  (i1 <? i2) || ((i1 =? i2) && ((j1 <? j2) || ((j1 =? j2) && (k1 <=? k2)))).

Fixpoint insert_sorted (x : match_t) (l : list match_t) : list match_t :=
  match l with
  | [] => [x]
  | y :: l' => if match_leb x y then x :: l else y :: insert_sorted x l'
  end.

(** [matching_blocks.sort()] *)
Definition sort (l : list match_t) : list match_t :=
  fold_right insert_sorted [] l.

(** The loop that collapses adjacent blocks; [(i1, j1, k1)] is the block
    the next one is compared against. *)
Fixpoint collapse (cur : match_t) (non_adjacent blocks : list match_t)
    : list match_t :=
  let '(i1, j1, k1) := cur in
  match blocks with
  | [] => if negb (k1 =? 0) then (non_adjacent ++ [cur])%list else non_adjacent
  | (i2, j2, k2) :: blocks' =>
      if (i1 + k1 =? i2) && (j1 + k1 =? j2)
      then collapse (i1, j1, k1 + k2) non_adjacent blocks'
      else collapse (i2, j2, k2)
             (if negb (k1 =? 0) then (non_adjacent ++ [cur])%list else non_adjacent)
             blocks'
  end.

(** Two passes of the loop are enough for each element of [a]: a pass
    either finds nothing, or removes at least one element of [a] from the
    ranges still to look at. *)
Definition fuel_for (a : string) : nat := 2 * length a + 1.

Definition get_matching_blocks (a b : string) : option (list match_t) :=
  let la := length a in
  let lb := length b in
  match blocks_loop a b (chain_b b) (fuel_for a) [(0, la, 0, lb)] [] with
  | Some matching_blocks =>
      Some (collapse (0, 0, 0) [] (sort matching_blocks) ++ [(la, lb, 0)])%list
  | None => None
  end.

(** [_calculate_ratio]; the float [2.0 * matches / length] is held as the
    rational it rounds. *)
Definition calculate_ratio (matches length : nat) : Q :=
  if negb (length =? 0) then (2 * Z.of_nat matches) # (Pos.of_nat length)
  else 1.

Definition ratio (a b : string) : option Q :=
  match get_matching_blocks a b with
  | Some blocks =>
      let matches := fold_left Nat.add (map size blocks) 0 in
      Some (calculate_ratio matches (length a + length b))
  | None => None
  end.

End Difflib.

(** [similar(a, b)] of handler.py.  [None] only if the block search ran out
    of passes, which [DifflibFacts.ratio_total] excludes. *)
Definition similar (a b : string) : option Q := Difflib.ratio a b.

(** ** Floats

    A Python float is a binary64 number: 53 bits of precision, the least
    exponent -1074.  [Float.round q] is the float nearest to the rational
    [q], ties to even, as a rational: the value of a float operation whose
    exact result is [q].  (Overflow is left out: no score reaches it.) *)

Module Float.

(** The integer part of the binary logarithm of [n / d]. *)
Definition floor_log2 (n d : positive) : Z :=
  let l := (Z.log2 (Zpos n) - Z.log2 (Zpos d))%Z in
  if (if (0 <=? l)%Z then (Zpos d * 2 ^ l <=? Zpos n)%Z
      else (Zpos d <=? Zpos n * 2 ^ (- l))%Z)
  then l else (l - 1)%Z.

Definition round_pos (n d : positive) : Q :=
  let e := Z.max (floor_log2 n d - 52) (-1074) in
  (* n / d = (N / D) * 2 ^ e *)
  let N := (Zpos n * 2 ^ Z.max (- e) 0)%Z in
  let D := (Zpos d * 2 ^ Z.max e 0)%Z in
  let m0 := (N / D)%Z in
  let r := (N mod D)%Z in
  let m := if (2 * r <? D)%Z then m0
           else if (D <? 2 * r)%Z then (m0 + 1)%Z
           else if Z.even m0 then m0 else (m0 + 1)%Z in
  (m * 2 ^ Z.max e 0)%Z # Z.to_pos (2 ^ Z.max (- e) 0).

Definition round (q : Q) : Q :=
  match Qnum q with
  | Z0 => 0%Q
  | Zpos n => round_pos n (Qden q)
  | Zneg n => (- round_pos n (Qden q))%Q
  end.

End Float.

(** ** handler.py *)

Definition SUPPORTED_COMMANDS : list string :=
  [ "Goto"; "Click"; "Fill"; "FillAuto"; "WaitFor"; "ScrollTo";
    "Assert"; "AssertCookie"; "Viewport"; "Retry"; "SetVar";
    "WaitForPopup"; "SwitchToPopup"; "ClosePopup";
    "SwitchToIFrame"; "ReturnFromIFrame";
    "SaveSession"; "RestoreSession" ].

(** The text between the two URLs of a redirect, byte for byte as the source
    file has it. *)
Definition arrow : string :=
  " " ++ String "195" (String "162" (String "226" (String "128" (String "160"
         (String "226" (String "128" (String "153" " "))))))).

(** The text between a score and its threshold in a failure message, byte
    for byte as the source file has it. *)
Definition geq : string :=
  " " ++ String "195" (String "162" (String "226" (String "128" (String "176"
         (String "194" (String "165" " ")))))).

(** The scripts the handler sends to the page, by name: their text is of no
    consequence to the interpreter. *)
Definition visible_text_js : string := "el => visibleText(el)".
Definition cls_js : string :=
  "() => performance.getEntriesByType('layout-shift').reduce((sum,e)=>sum+e.value,0)".
Definition navigation_timing_js : string :=
  "() => navigationTiming(performance.getEntriesByType('navigation'))".

(** [m.group(n)] *)
Definition group (n : nat) (m : groups) : string := nth (n - 1) m "".

(** [str(x)] of a string or [None]. *)
Definition opt_str (o : option string) : string :=
  match o with Some s => s | None => "None" end.

(** [x or ''] *)
Definition or_empty (o : option string) : string :=
  match o with Some s => s | None => "" end.

Definition opt_value (o : option string) : value :=
  match o with Some s => VStr s | None => VNone end.

Definition opt_eqb (a b : option string) : bool :=
  match a, b with
  | Some x, Some y => String.eqb x y
  | None, None => true
  | _, _ => false
  end.

(** [re.escape] on a string. *)
Definition re_special (c : ascii) : bool :=
  existsb (Ascii.eqb c)
    (list_ascii_of_string "()[]{}?*+-|^$\.&~# "
     ++ ["009"; "010"; "013"; "011"; "012"]%char)%list.

Fixpoint re_escape (s : string) : string :=
  match s with
  | EmptyString => EmptyString
  | String c s' =>
      if re_special c then String "\" (String c (re_escape s'))
      else String c (re_escape s')
  end.

Fixpoint redirect_pairs (req : request) : list string :=
  match req with
  | Request u o =>
      match o with
      | Some prev => (request_url prev ++ arrow ++ u) :: redirect_pairs prev
      | None => []
      end
  end.

Definition get_redirect_chain (r : response) : list string :=
  rev (redirect_pairs (resp_request r)).

Section Handler.

Context {B : Type} (E : Env B).

#[local] Abbreviation M := (Run.M B).

(** *** Utilities *)

(** One pass of the loop of [wait_after_action]: a bare [except] passes. *)
Definition idle_or_pass : M unit :=
  try_except (call (pg_wait_for_load_state E "networkidle" 7000))
    (fun _ => true) (fun _ => ret tt).

Definition wait_after_action : M unit :=
  idle_or_pass ;;; idle_or_pass ;;;
  call_total (fun b => (tt, sleep E (3 # 10) b)).

Definition wait_for_main_content (selector : string) : M unit :=
  try_except
    (call (pg_wait_for_selector E selector 7000) ;;;
     call (pg_wait_for_load_state E "networkidle" 7000) ;;;
     call_total (fun b => (tt, sleep E (1 # 2) b)))
    (fun _ => true) (fun _ => ret tt).

Definition extract_visible_text (selector : string) : M string :=
  call (loc_evaluate E (Loc selector) visible_text_js).

Definition save_snapshot (prefix : string) : M (string * string) :=
  html <- call (pg_content E) ;;
  call (write_text E (prefix ++ ".html") html) ;;;
  call (pg_screenshot E (prefix ++ ".png")) ;;;
  ret (prefix ++ ".html", prefix ++ ".png").

(** *** Assertion handlers

    Each returns [None] when the expression is not of its shape, a payload
    when its check holds, and raises [AssertionError] when it does not. *)

Definition status_re : regex :=
  cat [Lit "page.status"; ws1; Lit "is"; ws1; Grp (Plus isdigit)].

Definition assert_status (expr : string) : M (option dict) :=
  match re_match status_re expr with
  | Some m =>
      p <- get_page ;;
      match _last_response p with
      | None => raise (AssertionError "No prior Goto; cannot check page.status")
      | Some r =>
          match int_of_str (group 1 m) with
          | Raise e => raise e
          | Ok exp =>
              let got := status r in
              if negb (got =? exp)%Z
              then raise (AssertionError
                     ("Expected status " ++ of_Z exp ++ ", got " ++ of_Z got))
              else ret (Some (dict_of []))
          end
      end
  | None => ret None
  end.

Definition url_re : regex := cat [Lit "page.url"; ws1; Lit "is"; ws1; quoted].

Definition assert_url (expr : string) : M (option dict) :=
  match re_match url_re expr with
  | Some m =>
      p <- get_page ;;
      let exp := group 1 m in
      let got := pg_url E (browser p) in
      if negb (String.eqb got exp)
      then raise (AssertionError ("Expected URL " ++ exp ++ ", got " ++ got))
      else ret (Some (dict_of []))
  | None => ret None
  end.

Definition exists_re : regex := cat [Lit "element"; ws1; quoted; ws1; Lit "exists"].

Definition assert_exists (expr : string) : M (option dict) :=
  match re_match exists_re expr with
  | Some m =>
      let sel := group 1 m in
      cnt <- call (loc_count E (Loc sel)) ;;
      if (cnt =? 0)%nat
      then raise (AssertionError (sel ++ " not found"))
      else ret (Some (dict_of [("children_count", VInt (Z.of_nat cnt))]))
  | None => ret None
  end.

Definition visible_re : regex := cat [Lit "element"; ws1; quoted; ws1; Lit "visible"].

(** The loop of [assert_visible] over [range(total)]. *)
Fixpoint count_visible (sel : string) (idx : list nat) (visible_count : nat) : M nat :=
  match idx with
  | [] => ret visible_count
  | i :: idx' =>
      v <- call (loc_is_visible E (Nth sel i)) ;;
      count_visible sel idx' (if v then S visible_count else visible_count)
  end.

Definition assert_visible (expr : string) : M (option dict) :=
  match re_match visible_re expr with
  | Some m =>
      let sel := group 1 m in
      (* strict mode: exactly one; [except Exception: pass] also takes the
         AssertionError raised inside the [try] *)
      early <- try_except
        (n <- call (loc_count E (Loc sel)) ;;
         if (n =? 1)%nat
         then
           v <- call (loc_is_visible E (Loc sel)) ;;
           if negb v
           then raise (AssertionError (sel ++ " not visible"))
           else ret (Some (dict_of [("matches", VInt 1); ("visible", VInt 1)]))
         else ret None)
        is_Exception (fun _ => ret None) ;;
      match early with
      | Some d => ret (Some d)
      | None =>
          total <- call (loc_count E (Loc sel)) ;;
          if (total =? 0)%nat
          then raise (AssertionError (sel ++ " not found"))
          else
            visible_count <- count_visible sel (seq 0 total) 0 ;;
            if (visible_count =? 0)%nat
            then raise (AssertionError
                   (sel ++ " matched " ++ of_Z (Z.of_nat total) ++ " elements, none visible"))
            else ret (Some (dict_of [("matches", VInt (Z.of_nat total));
                                     ("visible", VInt (Z.of_nat visible_count))]))
      end
  | None => ret None
  end.

Definition similar_re : regex :=
  cat [Lit "element"; ws1; quoted; ws1; Lit "similar to"; ws1; quoted;
       ws0; Lit "<"; ws0; Grp (Plus isdigit_or_dot)].

(** [similar] returns for every pair of strings
    ([DifflibFacts.ratio_total]); the last branch is there for the type
    only.  [similar] holds the score as the rational [2 * matches / length];
    the float of the source is [Float.round] of it. *)
Definition similar_score (a b : string) : Q :=
  match similar a b with Some x => x | None => 0%Q end.

Definition assert_similar (expr : string) : M (option dict) :=
  match re_match similar_re expr with
  | Some m =>
      let sel := group 1 m in
      let phrase := group 2 m in
      match float_of_str E (group 3 m) with
      | Raise e => raise e
      | Ok thr =>
          (* special case for meta tags: compare their content attribute *)
          if startswith "head meta" (lower sel) then
            attr <- try_except (call (loc_get_attribute E (Loc sel) "content"))
                      is_PlaywrightTimeoutError
                      (fun _ => raise (AssertionError
                         ("Could not read attribute 'content' from " ++ sel ++ ": timed out"))) ;;
            let score :=
              Float.round (similar_score (lower phrase) (lower (or_empty attr))) in
            if Qle_bool thr score
            then raise (AssertionError
                   ("Similarity " ++ float_2f E score ++ geq ++ float_str E thr))
            else ret (Some (dict_of [("similarity", VFloat score);
                                     ("attribute", opt_value attr)]))
          else
            txt <- try_except (extract_visible_text sel)
                     is_PlaywrightTimeoutError
                     (fun _ => raise (AssertionError
                        ("Could not extract visible text from selector " ++ sel ++ ": timed out"))) ;;
            let score := Float.round (similar_score (lower phrase) (lower txt)) in
            if Qle_bool thr score
            then raise (AssertionError
                   ("Similarity " ++ float_2f E score ++ geq ++ float_str E thr))
            else ret (Some (dict_of [("similarity", VFloat score);
                                     ("text_snippet", VStr (take 50 txt))]))
      end
  | None => ret None
  end.

Definition children_re : regex :=
  cat [Lit "children of"; ws1; quoted; ws1; Lit "count"; ws0;
       Grp (Alt (Lit ">=") (Alt (Lit "<=") (Alt (Lit ">") (Alt (Lit "<") (Lit "==")))));
       ws0; Grp (Plus isdigit)].

(** The dict [ops] at the key [op]. *)
Definition children_op (op : string) (cnt val : Z) : bool :=
  if String.eqb op ">" then (val <? cnt)%Z
  else if String.eqb op "<" then (cnt <? val)%Z
  else if String.eqb op ">=" then (val <=? cnt)%Z
  else if String.eqb op "<=" then (cnt <=? val)%Z
  else (cnt =? val)%Z.

Definition assert_children (expr : string) : M (option dict) :=
  match re_match children_re expr with
  | Some m =>
      let sel := group 1 m in
      let op := group 2 m in
      match int_of_str (group 3 m) with
      | Raise e => raise e
      | Ok val =>
          n <- call (loc_count E (Loc (sel ++ " > *"))) ;;
          let cnt := Z.of_nat n in
          if negb (children_op op cnt val)
          then raise (AssertionError
                 ("Children count " ++ of_Z cnt ++ " " ++ op ++ " " ++ of_Z val
                  ++ " failed"))
          else ret (Some (dict_of [("children_count", VInt cnt)]))
      end
  | None => ret None
  end.

Definition cls_re : regex :=
  cat [Lit "CLS"; ws0; Lit "<"; ws0; Grp (Plus isdigit_or_dot)].

(** A value that [>=] compares with a float, as a rational. *)
Definition as_number (v : value) : option Q :=
  match v with
  | VInt z => Some (inject_Z z)
  | VFloat x => Some x
  | VBool b => Some (if b then 1%Q else 0%Q)
  | _ => None
  end.

Definition number_str (v : value) : string :=
  match v with
  | VInt z => of_Z z
  | VFloat x => float_str E x
  | VBool true => "True"
  | _ => "False"
  end.

Definition assert_cls (expr : string) : M (option dict) :=
  match re_match cls_re expr with
  | Some m =>
      match float_of_str E (group 1 m) with
      | Raise e => raise e
      | Ok thr =>
          cls <- call (pg_evaluate E cls_js) ;;
          match as_number cls with
          | None => raise (TypeError "'>=' not supported between these operands")
          | Some x =>
              if Qle_bool thr x
              then raise (AssertionError
                     ("CLS " ++ number_str cls ++ geq ++ float_str E thr))
              else ret (Some (dict_of [("cls", cls)]))
          end
      end
  | None => ret None
  end.

(** [attribute\s+(.+?@.+?)\s+matches\s+/(.+)/] *)
Definition attribute_re : regex :=
  cat [Lit "attribute"; ws1;
       Grp (cat [PlusLazy isdot; Lit "@"; PlusLazy isdot]);
       ws1; Lit "matches"; ws1; Lit "/"; Grp (Plus isdot); Lit "/"].

Definition assert_attribute_regex (expr : string) : M (option dict) :=
  match re_match attribute_re expr with
  | Some m =>
      let elem_attr := group 1 m in
      let regex := group 2 m in
      match split_once "@" elem_attr with
      | None => raise (ValueError "not enough values to unpack (expected 2, got 1)")
      | Some (sel, attr) =>
          val <- try_except (call (loc_get_attribute E (Loc sel) attr))
                   is_PlaywrightTimeoutError
                   (fun _ => raise (AssertionError
                      ("Could not read attribute '" ++ attr ++ "' from " ++ sel ++ ": timed out"))) ;;
          match re_dyn E regex (or_empty val) with
          | Raise e => raise e
          | Ok true => ret (Some (dict_of [("attribute", opt_value val)]))
          | Ok false =>
              raise (AssertionError
                (sel ++ "@" ++ attr ++ "='" ++ opt_str val ++ "' does not match /" ++ regex ++ "/"))
          end
      end
  | None => ret None
  end.

Definition regex_each_re : regex :=
  cat [Lit "each attribute "; Grp (Plus isword); Lit " in elements ";
       quoted_noquote; Lit " matches /"; Grp (Plus isdot); Lit "/"].

(** The loop of [assert_regex_each] over [range(await els.count())]. *)
Fixpoint regex_each_loop (sel attr regex : string) (idx : list nat)
    (seen : list (option string)) : M (list (option string)) :=
  match idx with
  | [] => ret seen
  | i :: idx' =>
      val <- call (loc_get_attribute E (Nth sel i) attr) ;;
      match re_dyn E regex (or_empty val) with
      | Raise e => raise e
      | Ok false =>
          raise (AssertionError
            (sel ++ "[" ++ of_Z (Z.of_nat i) ++ "]@" ++ attr ++ "='" ++ opt_str val
             ++ "' fails /" ++ regex ++ "/"))
      | Ok true =>
          if existsb (opt_eqb val) seen
          then raise (AssertionError ("Duplicate " ++ attr ++ "='" ++ opt_str val ++ "'"))
          else regex_each_loop sel attr regex idx' (seen ++ [val])%list
      end
  end.

(** [getattr(page, "_vars", {}).get("BASE_URL", None)] *)
Definition base_url (p : Page B) : value :=
  match dict_get "BASE_URL" (match _vars p with Some d => d | None => [] end) with
  | Some v => v
  | None => VNone
  end.

(** When [base] is true, [re.escape(base)] is computed and then
    [raw_regex.replace(...)] reads the local [raw_regex], which is assigned
    nowhere before: Python raises [UnboundLocalError]. *)
Definition assert_regex_each (expr : string) : M (option dict) :=
  match re_match regex_each_re expr with
  | Some m =>
      let attr := group 1 m in
      let sel := group 2 m in
      let regex := group 3 m in
      p <- get_page ;;
      let base := base_url p in
      (if truthy base then
         match base with
         | VStr s =>
             let esc := re_escape s in
             raise (UnboundLocalError
               "cannot access local variable 'raw_regex' where it is not associated with a value")
         | _ => raise (TypeError "decoding to str: need a bytes-like object")
         end
       else ret tt) ;;;
      n <- call (loc_count E (Loc sel)) ;;
      seen <- regex_each_loop sel attr regex (seq 0 n) [] ;;
      ret (Some (dict_of [("count", VInt (Z.of_nat (List.length seen)))]))
  | None => ret None
  end.

Definition assert_canonical (expr : string) : M (option dict) :=
  if String.eqb (strip expr) "canonical href equals page.url" then
    href <- call (loc_get_attribute E (First "link[rel='canonical']") "href") ;;
    p <- get_page ;;
    let url := pg_url E (browser p) in
    if negb (opt_eqb href (Some url))
    then raise (AssertionError
           ("canonical='" ++ opt_str href ++ "' != url='" ++ url ++ "'"))
    else ret (Some (dict_of [("canonical", opt_value href)]))
  else ret None.

Definition language_re : regex :=
  cat [Lit "element"; ws1; quoted; ws1; Lit "language"; ws1; Lit "equals";
       ws1; Lit "html@lang"].

Definition assert_language (expr : string) : M (option dict) :=
  match re_match language_re expr with
  | Some m =>
      let sel := group 1 m in
      html_lang <- call (loc_get_attribute E (Loc "html") "lang") ;;
      elem_lang <- call (loc_get_attribute E (Loc sel) "lang") ;;
      if negb (opt_eqb elem_lang html_lang)
      then raise (AssertionError
             (sel ++ "@lang='" ++ opt_str elem_lang ++ "' != html@lang='"
              ++ opt_str html_lang ++ "'"))
      else ret (Some (dict_of [("element_lang", opt_value elem_lang);
                               ("html_lang", opt_value html_lang)]))
  | None => ret None
  end.

Definition no_duplicates_re : regex :=
  cat [Lit "no duplicates in attribute"; ws1; Grp (Plus isword); ws1;
       Lit "of elements"; ws1; quoted_noquote].

(** The loop of [assert_no_duplicates]. *)
Fixpoint no_duplicates_loop (sel attr : string) (idx : list nat)
    (seen : list (option string)) : M (list (option string)) :=
  match idx with
  | [] => ret seen
  | i :: idx' =>
      val <- call (loc_get_attribute E (Nth sel i) attr) ;;
      if existsb (opt_eqb val) seen
      then raise (AssertionError
             ("Duplicate " ++ attr ++ "='" ++ opt_str val ++ "' in " ++ sel
              ++ "[" ++ of_Z (Z.of_nat i) ++ "]"))
      else no_duplicates_loop sel attr idx' (seen ++ [val])%list
  end.

Definition assert_no_duplicates (expr : string) : M (option dict) :=
  match re_match no_duplicates_re expr with
  | Some m =>
      let attr := group 1 m in
      let sel := group 2 m in
      n <- call (loc_count E (Loc sel)) ;;
      seen <- no_duplicates_loop sel attr (seq 0 n) [] ;;
      ret (Some (dict_of [("unique_count", VInt (Z.of_nat (List.length seen)))]))
  | None => ret None
  end.

Definition assertion_handlers : list (string -> M (option dict)) :=
  [ assert_status; assert_url; assert_exists; assert_visible;
    assert_similar; assert_children; assert_cls;
    assert_attribute_regex; assert_regex_each; assert_canonical;
    assert_language; assert_no_duplicates ].

(** What one pass of the loop of [handle_assert] saw. *)
Inductive verdict : Type :=
| Failed (error_msg : string)     (* the handler raised AssertionError *)
| Passed (res : dict)             (* it returned a payload *)
| NoMatch.                        (* it returned None *)

Definition try_handler (h : string -> M (option dict)) (expr : string) : M verdict :=
  try_except
    (res <- h expr ;;
     ret (match res with Some d => Passed d | None => NoMatch end))
    is_AssertionError
    (fun e => ret (Failed (exn_str e))).

Fixpoint assert_loop (handlers : list (string -> M (option dict)))
    (step_line expr : string) (save_snapshots : bool) : M dict :=
  match handlers with
  | [] =>
      ret (dict_of [("step", VStr step_line); ("status", VStr "SYNTAX_ERROR");
                    ("error", VStr ("Unknown assertion: " ++ expr))])
  | h :: handlers' =>
      v <- try_handler h expr ;;
      match v with
      | Failed error_msg =>
          if save_snapshots then
            t <- call_total (time_ms E) ;;
            let prefix := "snapshot_" ++ of_Z t in
            files <- save_snapshot prefix ;;
            ret (dict_of [("step", VStr step_line); ("status", VStr "FAIL");
                          ("error", VStr error_msg);
                          ("snapshot_html", VStr (fst files));
                          ("snapshot_image", VStr (snd files))])
          else
            ret (dict_of [("step", VStr step_line); ("status", VStr "FAIL");
                          ("error", VStr error_msg)])
      | Passed res =>
          ret (dict_update
                 (dict_of [("step", VStr step_line); ("status", VStr "PASS");
                           ("error", VNone)])
                 res)
      | NoMatch => assert_loop handlers' step_line expr save_snapshots
      end
  end.

Definition handle_assert (expr : string) (save_snapshots : bool) : M dict :=
  let step_line := "Assert " ++ expr in
  assert_loop assertion_handlers step_line expr save_snapshots.

(** *** DSL handlers *)

Definition syntax_error (line msg : string) : dict :=
  dict_of [("step", VStr line); ("status", VStr "SYNTAX_ERROR"); ("error", VStr msg)].

Definition fail (line msg : string) : dict :=
  dict_of [("step", VStr line); ("status", VStr "FAIL"); ("error", VStr msg)].

Definition pass (line : string) : dict :=
  dict_of [("step", VStr line); ("status", VStr "PASS"); ("error", VNone)].

(** [try: <action>; return PASS  except Exception as e: return FAIL] *)
Definition pass_or_fail (line : string) (action : M unit) : M dict :=
  try_except (action ;;; ret (pass line))
    is_Exception (fun e => ret (fail line (exn_str e))).

Definition goto_re : regex := cat [Lit "Goto"; ws1; quoted].

Definition handle_goto (line : string) : M dict :=
  match re_match goto_re line with
  | None => ret (syntax_error line "Malformed Goto")
  | Some m =>
      let url := group 1 m in
      (* 1) navigate *)
      nav <- try_except
               (r <- call (pg_goto E url) ;; ret (inl r))
               is_Exception (fun e => ret (inr (exn_str e))) ;;
      match nav with
      | inr msg => ret (fail line msg)
      | inl None => raise (AttributeError "'NoneType' object has no attribute 'status'")
      | inl (Some response) =>
          (* 2) basic status info *)
          let status_code := status response in
          let status_text :=
            match HTTP_REASONS E status_code with Some t => t | None => "" end in
          let headers := headers response in
          set_last_response response ;;;
          (* 3) navigation timing *)
          perf <- call (pg_evaluate E navigation_timing_js) ;;
          (* 4) the result object *)
          page_title <- call (pg_title E) ;;
          ret (dict_of
            [ ("step", VStr line);
              ("status", VStr (if (status_code <? 400)%Z then "PASS" else "FAIL"));
              ("error", if (status_code <? 400)%Z then VNone
                        else VStr ("HTTP " ++ of_Z status_code ++ " " ++ status_text));
              ("status_code", VInt status_code);
              ("status_text", VStr status_text);
              ("redirect_chain", VList (map VStr (get_redirect_chain response)));
              ("headers", headers);
              ("page_title", VStr page_title);
              ("timing", perf) ])
      end
  end.

Definition click_re : regex := cat [Lit "Click"; ws1; quoted].

Definition handle_click (line : string) : M dict :=
  match re_match click_re line with
  | None => ret (syntax_error line "Malformed Click")
  | Some m =>
      let sel := group 1 m in
      pass_or_fail line (call (pg_click E sel) ;;; wait_after_action)
  end.

Definition fill_re : regex :=
  cat [Lit "Fill"; ws1; quoted; ws1; Lit "with"; ws1; quoted].

Definition handle_fill (line : string) : M dict :=
  match re_match fill_re line with
  | None => ret (syntax_error line "Malformed Fill")
  | Some m =>
      let sel := group 1 m in
      let txt := group 2 m in
      pass_or_fail line (call (pg_fill E sel txt) ;;; wait_after_action)
  end.

Definition fillauto_re : regex :=
  cat [Lit "FillAuto"; ws1; quoted; ws1; Lit "with"; ws1; quoted].

Definition handle_fillauto (line : string) : M dict :=
  match re_match fillauto_re line with
  | None => ret (syntax_error line "Malformed FillAuto")
  | Some m =>
      let sel := group 1 m in
      let txt := group 2 m in
      pass_or_fail line
        (call (pg_fill E sel txt) ;;; call (pg_press E sel "Enter") ;;;
         wait_after_action)
  end.

Definition waitfor_re : regex := cat [Lit "WaitFor"; ws1; quoted].

Definition handle_waitfor (line : string) : M dict :=
  match re_match waitfor_re line with
  | None => ret (syntax_error line "Malformed WaitFor")
  | Some m =>
      let sel := group 1 m in
      pass_or_fail line (call (pg_wait_for_selector E sel 30000))
  end.

Definition scrollto_re : regex := cat [Lit "ScrollTo"; ws1; quoted].

Definition handle_scrollto (line : string) : M dict :=
  match re_match scrollto_re line with
  | None => ret (syntax_error line "Malformed ScrollTo")
  | Some m =>
      let sel := group 1 m in
      pass_or_fail line (call (loc_scroll_into_view_if_needed E (Loc sel)))
  end.

Definition assertcookie_re : regex :=
  cat [Lit "AssertCookie"; ws1; quoted; ws1; Lit "is"; ws1; quoted].

(** [next((c for c in cookies if c['name'] == name), None)] *)
Definition find_cookie (name : string) (cookies : list cookie) : option cookie :=
  find (fun c => String.eqb (ck_name c) name) cookies.

Definition handle_assertcookie (line : string) : M dict :=
  match re_match assertcookie_re line with
  | None => ret (syntax_error line "Malformed AssertCookie")
  | Some m =>
      let name := group 1 m in
      let val := group 2 m in
      pass_or_fail line
        (cookies <- call (pg_cookies E) ;;
         let ck := find_cookie name cookies in
         match ck with
         | Some c =>
             if String.eqb (ck_value c) val then ret tt
             else raise (AssertionError
                    ("Cookie " ++ name ++ " has value " ++ ck_value c
                     ++ ", expected " ++ val))
         | None =>
             raise (AssertionError
               ("Cookie " ++ name ++ " has value None, expected " ++ val))
         end)
  end.

Definition viewport_re : regex :=
  cat [Lit "Viewport"; ws1; Grp (Plus isdigit); Lit "x"; Grp (Plus isdigit)].

Definition handle_viewport (line : string) : M dict :=
  match re_match viewport_re line with
  | None => ret (syntax_error line "Malformed Viewport")
  | Some m =>
      (* the two numbers are read before the [try] *)
      match int_of_str (group 1 m) with
      | Raise e => raise e
      | Ok w =>
          match int_of_str (group 2 m) with
          | Raise e => raise e
          | Ok h => pass_or_fail line (call (pg_set_viewport_size E w h))
          end
      end
  end.

(** Stubs for unimplemented commands *)
Definition handle_waitforpopup (line : string) : M dict :=
  ret (fail line "Not implemented: WaitForPopup").
Definition handle_switchtopopup (line : string) : M dict :=
  ret (fail line "Not implemented: SwitchToPopup").
Definition handle_closepopup (line : string) : M dict :=
  ret (fail line "Not implemented: ClosePopup").
Definition handle_switchtoiframe (line : string) : M dict :=
  ret (fail line "Not implemented: SwitchToIFrame").
Definition handle_returnfromiframe (line : string) : M dict :=
  ret (fail line "Not implemented: ReturnFromIFrame").
Definition handle_savesession (line : string) : M dict :=
  ret (fail line "Not implemented: SaveSession").
Definition handle_restoresession (line : string) : M dict :=
  ret (fail line "Not implemented: RestoreSession").
Definition handle_retry (line : string) : M dict :=
  ret (fail line "Not implemented: Retry").

Definition setvar_re : regex :=
  cat [Lit "SetVar"; ws1; quoted; ws0; Lit "="; ws0; Grp (Plus isdot)].

Definition handle_setvar (line : string) : M dict :=
  match re_match setvar_re line with
  | None => ret (syntax_error line "Malformed SetVar")
  | Some m =>
      let varname := group 1 m in
      let js_expr := group 2 m in
      try_except
        ((* evaluate whatever JS the user provided *)
         val <- call (pg_evaluate E js_expr) ;;
         (* store on page for later use *)
         p <- get_page ;;
         let vars := match _vars p with Some d => d | None => [] end in
         set_vars (dict_set varname val vars) ;;;
         ret (dict_of [("step", VStr line); ("status", VStr "PASS"); (varname, val)]))
        is_Exception
        (fun e => ret (fail line (exn_str e)))
  end.

(** *** The dispatcher *)

Definition dispatcher : list (string * (string -> M dict)) :=
  [ ("Goto", handle_goto); ("Click", handle_click); ("Fill", handle_fill);
    ("FillAuto", handle_fillauto);
    ("WaitFor", handle_waitfor); ("ScrollTo", handle_scrollto);
    ("AssertCookie", handle_assertcookie);
    ("Viewport", handle_viewport);
    ("WaitForPopup", handle_waitforpopup); ("SwitchToPopup", handle_switchtopopup);
    ("ClosePopup", handle_closepopup); ("SwitchToIFrame", handle_switchtoiframe);
    ("ReturnFromIFrame", handle_returnfromiframe);
    ("SaveSession", handle_savesession); ("RestoreSession", handle_restoresession);
    ("Retry", handle_retry); ("SetVar", handle_setvar) ].

(** [dispatcher[cmd]], when [cmd in dispatcher]. *)
Fixpoint lookup (cmd : string) (d : list (string * (string -> M dict)))
    : option (string -> M dict) :=
  match d with
  | [] => None
  | (k, h) :: d' => if String.eqb cmd k then Some h else lookup cmd d'
  end.

(** The lines [execute_step] skips: comments, blank lines and metadata
    headers. *)
Definition is_skipped (line : string) : bool :=
  String.eqb line "" || startswith "#" line || startswith "Test:" line
  || startswith "Tags:" line || String.eqb line "End".

Definition execute_step (line : string) (save_snapshots : bool) : M (option dict) :=
  if is_skipped line then ret None
  else
    match split line with
    | [] => raise (IndexError "list index out of range")
    | cmd :: _ =>
        match lookup cmd dispatcher with
        | Some h => r <- h line ;; ret (Some r)
        | None =>
            if String.eqb cmd "Assert" then
              let expr := strip (drop (length "Assert") line) in
              r <- handle_assert expr save_snapshots ;; ret (Some r)
            else if negb (mem cmd SUPPORTED_COMMANDS) then
              ret (Some (syntax_error line ("Unknown or malformed: " ++ cmd)))
            else
              ret (Some (syntax_error line ("Not implemented: " ++ cmd)))
        end
    end.

(** *** One device run *)

(** The loop [for k, v in vars_.items(): content = content.replace(...)]. *)
Fixpoint substitute (vars_ : list (string * string)) (content : string) : string :=
  match vars_ with
  | [] => content
  | (k, v) :: vars' => substitute vars' (replace ("<" ++ k ++ ">") v content)
  end.

(** A step is kept when the dict is true, that is, not empty. *)
Definition dict_truthy (d : dict) : bool :=
  match d with [] => false | _ => true end.

(** The loop of [run_device] over [content.splitlines()]. *)
Fixpoint run_lines (lines : list string) (tags : list string)
    (save_snapshots : bool) (results : list dict) : M (list dict) :=
  match lines with
  | [] => ret results
  | raw :: lines' =>
      let line := strip raw in
      (* metadata: Tests and Tags *)
      if startswith "Tags:" line then
        run_lines lines' (findall_words (drop (length "Tags:") line))
          save_snapshots results
      else if String.eqb line "" || startswith "Test:" line
              || String.eqb line "End" || startswith "#" line then
        run_lines lines' tags save_snapshots results
      else
        (* real step *)
        step <- execute_step line save_snapshots ;;
        match step with
        | Some d =>
            if dict_truthy d then
              run_lines lines' tags save_snapshots
                (results ++ [dict_set "tags" (VList (map VStr tags)) d])%list
            else run_lines lines' tags save_snapshots results
        | None => run_lines lines' tags save_snapshots results
        end
  end.

(** [run_device], from the text [read_text] returned on: the browser is
    launched and closed by the caller of this model. *)
Definition run_device (content : string) (device : string)
    (vars_ : list (string * string)) (save_snapshots : bool) : M (string * list dict) :=
  let content := substitute vars_ content in
  results <- run_lines (splitlines content) [] save_snapshots [] ;;
  ret (device, results).

End Handler.

(** ** Statements shared by the properties *)

(** The reserved commands that are stubs. *)
Definition stub_keywords : list string :=
  [ "WaitForPopup"; "SwitchToPopup"; "ClosePopup"; "SwitchToIFrame";
    "ReturnFromIFrame"; "SaveSession"; "RestoreSession"; "Retry" ].

(** The invariant of a Step Result: PASS goes with an error that is there
    and null, FAIL and SYNTAX_ERROR with one that is there and not null. *)
Definition result_invariant (d : dict) : Prop :=
  (dict_get "status" d = Some (VStr "PASS") -> dict_get "error" d = Some VNone)
  /\ (dict_get "status" d = Some (VStr "FAIL")
      \/ dict_get "status" d = Some (VStr "SYNTAX_ERROR") ->
      exists v, dict_get "error" d = Some v /\ v <> VNone).

(** A text between double quotes. *)
Definition q (s : string) : string := dq ++ s ++ dq.

(** ** A small engine to run the handler on

    One page at https://example.test/ that answers 200, but 404 under
    /missing; it has no canonical link, so that reading the attribute of the
    first one times out; the only script it evaluates besides the
    handler's own is 1+1. *)

Definition demo_response (code : Z) (url : string) : response :=
  Response code (VDict [("content-type", VStr "text/html")]) (Request url None).

Definition demo_evaluate (js : string) : outcome value :=
  if String.eqb js "1+1" then Ok (VInt 2)
  else if String.eqb js navigation_timing_js then Ok (VDict [("totalTime", VInt 12)])
  else if String.eqb js cls_js then Ok (VInt 0)
  else Raise (PlaywrightError "SyntaxError: Unexpected identifier").

Definition demo_float (s : string) : outcome Q :=
  if String.eqb s "0.5" then Ok (1 # 2)%Q
  else Raise (ValueError ("could not convert string to float: '" ++ s ++ "'")).

Definition demo : Env unit := {|
  pg_goto := fun url b =>
    (Ok (Some (demo_response
                 (if String.eqb url "https://example.test/missing" then 404 else 200)
                 url)), b);
  pg_evaluate := fun js b => (demo_evaluate js, b);
  pg_title := fun b => (Ok "Example Domain", b);
  pg_url := fun _ => "https://example.test/";
  pg_content := fun b => (Ok "<html></html>", b);
  pg_screenshot := fun _ b => (Ok tt, b);
  pg_click := fun _ b => (Ok tt, b);
  pg_fill := fun _ _ b => (Ok tt, b);
  pg_press := fun _ _ b => (Ok tt, b);
  pg_wait_for_selector := fun _ _ b => (Ok tt, b);
  pg_wait_for_load_state := fun _ _ b => (Ok tt, b);
  pg_set_viewport_size := fun _ _ b => (Ok tt, b);
  pg_cookies := fun b => (Ok [Cookie "sid" "42"], b);
  loc_count := fun _ b => (Ok 1, b);
  loc_is_visible := fun _ b => (Ok true, b);
  loc_get_attribute := fun l _ b =>
    match l with
    | First _ => (Raise (PlaywrightTimeoutError "Timeout 30000ms exceeded."), b)
    | _ => (Ok (Some "en"), b)
    end;
  loc_evaluate := fun _ _ b => (Ok "Example Domain", b);
  loc_scroll_into_view_if_needed := fun _ b => (Ok tt, b);
  sleep := fun _ b => b;
  time_ms := fun b => (0%Z, b);
  write_text := fun _ _ b => (Ok tt, b);
  HTTP_REASONS := fun c =>
    if (c =? 200)%Z then Some "OK"
    else if (c =? 404)%Z then Some "Not Found" else None;
  re_dyn := fun _ _ => Ok true;
  float_of_str := demo_float;
  float_str := fun _ => "0.5";
  float_2f := fun _ => "0.50"
|}.

(** A fresh page: nothing attached to it yet. *)
Definition new_page : Page unit := MkPage tt None None.

(** ** The active tag set, as the specification words it

    A Tags: line sets the active tag set to its words; Test: lines,
    comments, blank lines and End are not executed; every other line is a
    step, executed under the tag set then active.  [active_tags lines tags]
    lists, for each step of [lines] in order, the tag set it runs under,
    [tags] being the set active before the first line. *)

Definition is_tags_line (raw : string) : bool := startswith "Tags:" (strip raw).

Definition tags_of_line (raw : string) : list string :=
  findall_words (drop 5 (strip raw)).

Definition is_step_line (raw : string) : bool :=
  negb (is_tags_line raw) && negb (is_skipped (strip raw)).

Fixpoint active_tags (lines : list string) (tags : list string) : list (list string) :=
  match lines with
  | [] => []
  | raw :: lines' =>
      if is_tags_line raw then active_tags lines' (tags_of_line raw)
      else if is_step_line raw then tags :: active_tags lines' tags
      else active_tags lines' tags
  end.

(** The tags field that stamps a result. *)
Definition tags_value (tags : list string) : option value :=
  Some (VList (map VStr tags)).

(** The results of a device run that returned. *)
Definition results_of {B : Type} (r : outcome (string * list dict) * Page B) : list dict :=
  match r with
  | (Ok (_, results), _) => results
  | (Raise _, _) => []
  end.

Definition lf : string := String "010" "".

(** Three steps under two tags, then two steps under one. *)
Definition tagged_script : string :=
  "Test: tagging" ++ lf ++
  "Tags: smoke regression" ++ lf ++
  "Goto " ++ q "https://example.test/" ++ lf ++
  "Click " ++ q "#more" ++ lf ++
  "Assert page.status is 200" ++ lf ++
  "# second part" ++ lf ++
  "Tags: extended" ++ lf ++
  "ScrollTo " ++ q "footer" ++ lf ++
  "Viewport 800x600" ++ lf ++
  "End" ++ lf.

(** ** Substitution, as the specification words it

    A script text is literal text with placeholders <NAME> in it; every
    placeholder of a declared name is replaced with the declared value, the
    others are left as they are. *)

Inductive token : Type :=
| Text (s : string)
| Placeholder (name : string).

Definition render_token (t : token) : string :=
  match t with
  | Text s => s
  | Placeholder name => "<" ++ name ++ ">"
  end.

Fixpoint render (ts : list token) : string :=
  match ts with
  | [] => ""
  | t :: ts' => render_token t ++ render ts'
  end.

(** [vars_.get(name)] *)
Fixpoint declared (name : string) (vars_ : list (string * string)) : option string :=
  match vars_ with
  | [] => None
  | (k, v) :: vars' => if String.eqb name k then Some v else declared name vars'
  end.

Definition expand_token (vars_ : list (string * string)) (t : token) : token :=
  match t with
  | Text s => Text s
  | Placeholder name =>
      match declared name vars_ with
      | Some v => Text v
      | None => Placeholder name
      end
  end.

Definition expand (vars_ : list (string * string)) (ts : list token) : list token :=
  map (expand_token vars_) ts.

(** A text without angle brackets. *)
Definition isangle (c : ascii) : bool :=
  Ascii.eqb c "<" || Ascii.eqb c ">".

Definition plain (s : string) : bool := all (fun c => negb (isangle c)) s.

Definition plain_token (t : token) : bool :=
  match t with Text s => plain s | Placeholder name => plain name end.

Definition plain_var (kv : string * string) : bool :=
  plain (fst kv) && plain (snd kv).

(** *** The substitution as one scan of the text

    The text is read from the left; where the placeholder of a declared name
    starts, the declared value is written and the reading goes on after the
    placeholder; any other character is copied.  Of two declarations of one
    name the first counts. *)

Fixpoint find_placeholder (vars_ : list (string * string)) (s : string)
    : option (string * string) :=
  match vars_ with
  | [] => None
  | (k, v) :: vars' =>
      if startswith ("<" ++ k ++ ">") s then Some (k, v)
      else find_placeholder vars' s
  end.

Fixpoint expand_go (vars_ : list (string * string)) (skip : nat) (s : string)
    : string :=
  match s with
  | EmptyString => EmptyString
  | String c s' =>
      match skip with
      | S n => expand_go vars_ n s'
      | O =>
          match find_placeholder vars_ s with
          | Some (k, v) => v ++ expand_go vars_ (length k + 1) s'
          | None => String c (expand_go vars_ 0 s')
          end
      end
  end.

Definition expand_text (vars_ : list (string * string)) (s : string) : string :=
  expand_go vars_ 0 s.

(** A text without [<]. *)
Definition lt_free (s : string) : bool :=
  all (fun c => negb (Ascii.eqb c "<")) s.

(** A run of characters of [p] ends at [t]: [t] is empty or starts with a
    character out of [p]. *)
Definition run_ends (p : ascii -> bool) (t : string) : Prop :=
  match t with String d _ => p d = false | EmptyString => True end.

(** The characters of [p] are those of the names.  After a [<], the run of
    name characters that follows does not end at another [<]. *)
Definition closes (p : ascii -> bool) (s : string) : bool :=
  match snd (span p s) with
  | String d _ => negb (Ascii.eqb d "<")
  | EmptyString => true
  end.

(** No [<] of the text is followed by name characters only, up to another
    [<]: a comparison such as [count < <N>] or [a <= b] is of this kind,
    [<<N>>] is not. *)
Fixpoint guarded (p : ascii -> bool) (s : string) : bool :=
  match s with
  | EmptyString => true
  | String c s' =>
      (if Ascii.eqb c "<" then closes p s' else true) && guarded p s'
  end.

(** A variable whose name is made of name characters and whose value holds
    no [<]. *)
Definition var_ok (p : ascii -> bool) (kv : string * string) : bool :=
  all p (fst kv) && lt_free (snd kv).

(** A token whose text holds no [<], or whose name is made of name
    characters. *)
Definition token_ok (p : ascii -> bool) (t : token) : bool :=
  match t with Text s => lt_free s | Placeholder name => all p name end.

(** ** The verdict of a line with trailing text

    Two runs of a handler have the same verdict when they leave the page in
    the same state and either raise the same exception or return results
    that differ in the step field only: [restep line r] is the outcome [r]
    with the step field set to [line]. *)








(** ** Notions for the properties of [similar] *)

(** Does the character occur in the text? *)
Fixpoint has (c : ascii) (s : string) : bool :=
  match s with
  | EmptyString => false
  | String d s' => Ascii.eqb c d || has c s'
  end.

(** Two texts with no character in common. *)
Definition disjoint_chars (a b : string) : Prop :=
  forall c, has c a = true -> has c b = false.

(** The indices of [c] in [b], counted from [i]. *)
Fixpoint indices_from (i : nat) (c : ascii) (b : string) : list nat :=
  match b with
  | EmptyString => []
  | String d b' =>
      if Ascii.eqb c d then i :: indices_from (S i) c b'
      else indices_from (S i) c b'
  end.

(** The elements that the heuristic of [__chain_b] takes for junk. *)
Definition popular (b : string) (c : ascii) : bool :=
  (200 <=? length b)
  && (length b / 100 + 1 <? List.length (indices_from 0 c b)).

Definition memb (j : nat) (l : list nat) : bool := existsb (Nat.eqb j) l.

(** For a text [s] compared with itself: the indices that the row [i] of
    [find_longest_match] visits, and the length it records at [j]. *)
Definition row_indices (s : string) (i : nat) : list nat :=
  match String.get i s with
  | Some c => Difflib.b2j_get c (Difflib.chain_b s)
  | None => []
  end.

Fixpoint row_len (s : string) (i j : nat) : nat :=
  if memb j (row_indices s i)
  then S (match i, j with
          | S i', S j' => row_len s i' j'
          | _, _ => 0
          end)
  else 0.

(** The length that the row before [i] recorded at [j]. *)
Definition prev_len (s : string) (i j : nat) : nat :=
  match i with
  | O => 0
  | S i' => row_len s i' j
  end.

(** What is left to look at in the queue of [get_matching_blocks]: a pass
    takes one range out, and the ranges it puts in are shorter by the match
    between them. *)
Fixpoint queue_measure (queue : list Difflib.range_t) : nat :=
  match queue with
  | [] => 0
  | (alo, ahi, _, _) :: queue' => 2 * (ahi - alo) + 1 + queue_measure queue'
  end.

Definition range_ok (r : Difflib.range_t) : Prop :=
  let '(alo, ahi, _, _) := r in alo <= ahi.

(** ** Notions for the properties of the handlers *)

(** The reason phrase [HTTP_REASONS.get(status_code, "")]. *)
Definition reason_of {B : Type} (E : Env B) (status_code : Z) : string :=
  match HTTP_REASONS E status_code with Some t => t | None => "" end.

(** The page a SetVar step leaves when BASE_URL is set. *)
Definition page_with_base_url : Page unit :=
  MkPage tt None (Some [("BASE_URL", VStr "https://example.test")]).

(** One pass of the substitution, on the tokens. *)
Definition pass_token (k v : string) (t : token) : token :=
  match t with
  | Text s => Text s
  | Placeholder name => if String.eqb name k then Text v else Placeholder name
  end.

(** The number of double quotes of a text. *)
Definition quotes (s : string) : nat := count (fun c => Ascii.eqb c quote) s.

(** The end of a match: the continuation of [re_match]. *)
Definition done : string -> groups -> option groups := fun _ g => Some g.

(** What [k] matches, [k'] matches with the trailing text [t], with the
    same groups. *)
Definition preserved (t : string) (k k' : string -> groups -> option groups) : Prop :=
  forall s gs g, k s gs = Some g -> k' (s ++ t) gs = Some g.

(** A match of [k] holds at least [n] quotes. *)
Definition needs (k : string -> groups -> option groups) (n : nat) : Prop :=
  forall y gs, k y gs <> None -> n <= quotes y.


(** What holds of the best match while [find_longest_match] visits the row
    [i] of a text [s] compared with itself: it lies on the diagonal, it is
    as long as the matches of the rows before, and it ends at the row [i]
    at the latest. *)
Definition on_diagonal (best : Difflib.match_t) : Prop :=
  fst (fst best) = snd (fst best).

Definition covers_rows (s : string) (i : nat) (best : Difflib.match_t) : Prop :=
  forall i' j, i' < i -> row_len s i' j <= Difflib.size best.

Definition ends_by (i : nat) (best : Difflib.match_t) : Prop :=
  fst (fst best) + Difflib.size best <= i.

(** The keys of the payload of an assertion are none of the common fields. *)
Definition payload_ok (res : dict) : Prop :=
  dict_get "status" res = None /\ dict_get "error" res = None.

(** ** Notions for further properties *)

(** The request of a navigation that ended at [last] after redirects: the
    URLs before it, the latest first. *)
Fixpoint request_of (last : string) (earlier : list string) : request :=
  match earlier with
  | [] => Request last None
  | u :: earlier' => Request last (Some (request_of u earlier'))
  end.

(** The hops of a path of URLs, in order. *)
Fixpoint hops (path : list string) : list string :=
  match path with
  | u :: ((v :: _) as path') => (u ++ arrow ++ v) :: hops path'
  | _ => []
  end.

(** The page with another browser state. *)
Definition with_browser {B : Type} (p : Page B) (b : B) : Page B :=
  MkPage b (_last_response p) (_vars p).

(** The variable store of a page, empty when none was attached. *)
Definition vars_of {B : Type} (p : Page B) : dict :=
  match _vars p with Some d => d | None => [] end.

(** White space between two parts of a step: one character or more. *)
Definition is_separator (w : string) : bool :=
  negb (String.eqb w "") && all isspace w.

(** A quoted argument that is read back as written: it is not empty, holds
    no line feed, and no double quote after its first character. *)
Definition is_argument (s : string) : bool :=
  match s with
  | EmptyString => false
  | String c u => isdot c && all isdot u && all notquote u
  end.

(** A number as the patterns read it: one digit or more. *)
Definition is_number (s : string) : bool :=
  negb (String.eqb s "") && all isdigit s.

(** The text does not go on with a character of the class [p]. *)
Definition stops (p : ascii -> bool) (rest : string) : bool :=
  match rest with
  | EmptyString => true
  | String c _ => negb (p c)
  end.

(** The commands that act on one quoted selector, each with its handler and
    the call of the engine it makes. *)
Definition selector_actions {B : Type} (E : Env B)
    : list (string * (string -> Run.M B dict)
            * (string -> B -> outcome unit * B)) :=
  [ ("Click", handle_click E, pg_click E);
    ("WaitFor", handle_waitfor E, fun sel => pg_wait_for_selector E sel 30000);
    ("ScrollTo", handle_scrollto E,
     fun sel => loc_scroll_into_view_if_needed E (Loc sel)) ].

(** The commands that fill a field, with their handlers. *)
Definition fill_commands {B : Type} (E : Env B)
    : list (string * (string -> Run.M B dict)) :=
  [ ("Fill", handle_fill E); ("FillAuto", handle_fillauto E) ].

(** A word as the patterns read it: one word character or more. *)
Definition is_word (s : string) : bool :=
  negb (String.eqb s "") && all isword s.

(** A quoted text without a double quote in it, and not empty. *)
Definition is_unquoted (s : string) : bool :=
  negb (String.eqb s "") && all notquote s.

(** An engine like [demo] whose elements are all hidden. *)
Definition demo_hidden : Env unit := {|
  pg_goto := pg_goto demo;
  pg_evaluate := pg_evaluate demo;
  pg_title := pg_title demo;
  pg_url := pg_url demo;
  pg_content := pg_content demo;
  pg_screenshot := pg_screenshot demo;
  pg_click := pg_click demo;
  pg_fill := pg_fill demo;
  pg_press := pg_press demo;
  pg_wait_for_selector := pg_wait_for_selector demo;
  pg_wait_for_load_state := pg_wait_for_load_state demo;
  pg_set_viewport_size := pg_set_viewport_size demo;
  pg_cookies := pg_cookies demo;
  loc_count := loc_count demo;
  loc_is_visible := fun _ b => (Ok false, b);
  loc_get_attribute := loc_get_attribute demo;
  loc_evaluate := loc_evaluate demo;
  loc_scroll_into_view_if_needed := loc_scroll_into_view_if_needed demo;
  sleep := sleep demo;
  time_ms := time_ms demo;
  write_text := write_text demo;
  HTTP_REASONS := HTTP_REASONS demo;
  re_dyn := re_dyn demo;
  float_of_str := float_of_str demo;
  float_str := float_str demo;
  float_2f := float_2f demo
|}.

(** The handlers whose arguments are quoted, each with the number of double
    quotes its pattern asks for. *)
Definition quotes_needed {B : Type} (E : Env B)
    : list (nat * (string -> Run.M B dict)) :=
  [ (2, handle_goto E); (2, handle_click E); (4, handle_fill E);
    (4, handle_fillauto E); (2, handle_waitfor E); (2, handle_scrollto E);
    (4, handle_assertcookie E) ].

(** The tag set active after [lines], [tags] being active before. *)
Fixpoint last_tags (lines : list string) (tags : list string) : list string :=
  match lines with
  | [] => tags
  | raw :: lines' =>
      last_tags lines' (if is_tags_line raw then tags_of_line raw else tags)
  end.

(** A threshold as the pattern of [assert_similar] reads it: digits and
    dots, one or more. *)
Definition is_threshold (s : string) : bool :=
  negb (String.eqb s "") && all isdigit_or_dot s.

(** The results of a run of the loop that returned. *)
Definition lines_out {B : Type} (r : outcome (list dict) * Page B) : list dict :=
  match r with
  | (Ok results, _) => results
  | (Raise _, _) => []
  end.

(** [float(s)] on a text of digits and dots: the float nearest to the
    decimal numeral, which has one dot at most and a digit at least. *)
Definition decimal_value (s : string) : option Q :=
  match split_once "." s with
  | None =>
      if negb (String.eqb s "") && all isdigit s
      then Some (inject_Z (to_int s)) else None
  | Some (a, b) =>
      if all isdigit a && all isdigit b && negb (String.eqb (a ++ b) "")
      then Some (Qmake (to_int (a ++ b)) (Z.to_pos (10 ^ Z.of_nat (length b))))
      else None
  end.

Definition py_float (s : string) : outcome Q :=
  match decimal_value s with
  | Some q => Ok (Float.round q)
  | None => Raise (ValueError ("could not convert string to float: '" ++ s ++ "'"))
  end.

(** The float a numeral stands for, 0 when it is none. *)
Definition float_value (s : string) : Q :=
  match py_float s with Ok x => x | Raise _ => 0%Q end.

(** An engine like [demo] that parses every float, and whose paragraphs
    show the first ten letters and its other elements the text Sign In. *)
Definition demo_texts : Env unit := {|
  pg_goto := pg_goto demo;
  pg_evaluate := pg_evaluate demo;
  pg_title := pg_title demo;
  pg_url := pg_url demo;
  pg_content := pg_content demo;
  pg_screenshot := pg_screenshot demo;
  pg_click := pg_click demo;
  pg_fill := pg_fill demo;
  pg_press := pg_press demo;
  pg_wait_for_selector := pg_wait_for_selector demo;
  pg_wait_for_load_state := pg_wait_for_load_state demo;
  pg_set_viewport_size := pg_set_viewport_size demo;
  pg_cookies := pg_cookies demo;
  loc_count := loc_count demo;
  loc_is_visible := loc_is_visible demo;
  loc_get_attribute := loc_get_attribute demo;
  loc_evaluate := fun l _ b =>
    (Ok match l with Loc "p" => "abcdefghij" | _ => "Sign In" end, b);
  loc_scroll_into_view_if_needed := loc_scroll_into_view_if_needed demo;
  sleep := sleep demo;
  time_ms := time_ms demo;
  write_text := write_text demo;
  HTTP_REASONS := HTTP_REASONS demo;
  re_dyn := re_dyn demo;
  float_of_str := py_float;
  float_str := float_str demo;
  float_2f := float_2f demo
|}.

(** The words the patterns of the assertion matchers open with; the
    matcher of the canonical link compares the whole expression. *)
Definition assertion_openings : list string :=
  [ "page.status"; "page.url"; "element"; "children of"; "CLS"; "attribute";
    "each attribute "; "no duplicates in attribute" ].

(** What is left to look at in [a] and in [b], over the ranges of a queue
    of [get_matching_blocks], and the size of the blocks found. *)
Fixpoint room_a (queue : list Difflib.range_t) : nat :=
  match queue with
  | [] => 0
  | (alo, ahi, _, _) :: queue' => (ahi - alo) + room_a queue'
  end.

Fixpoint room_b (queue : list Difflib.range_t) : nat :=
  match queue with
  | [] => 0
  | (_, _, blo, bhi) :: queue' => (bhi - blo) + room_b queue'
  end.

Definition range_ok_b (r : Difflib.range_t) : Prop :=
  let '(_, _, blo, bhi) := r in blo <= bhi.

Definition total_size (blocks : list Difflib.match_t) : nat :=
  list_sum (map Difflib.size blocks).

(** The comparisons of [assert_children], read as count OP number. *)
Definition comparisons : list (string * (Z -> Z -> bool)) :=
  [ (">=", Z.geb); ("<=", Z.leb); (">", Z.gtb); ("<", Z.ltb); ("==", Z.eqb) ].

(** An engine like [demo] where a selector matches three elements, the
    second of them hidden. *)
Definition demo_three : Env unit := {|
  pg_goto := pg_goto demo;
  pg_evaluate := pg_evaluate demo;
  pg_title := pg_title demo;
  pg_url := pg_url demo;
  pg_content := pg_content demo;
  pg_screenshot := pg_screenshot demo;
  pg_click := pg_click demo;
  pg_fill := pg_fill demo;
  pg_press := pg_press demo;
  pg_wait_for_selector := pg_wait_for_selector demo;
  pg_wait_for_load_state := pg_wait_for_load_state demo;
  pg_set_viewport_size := pg_set_viewport_size demo;
  pg_cookies := pg_cookies demo;
  loc_count := fun _ b => (Ok 3, b);
  loc_is_visible := fun l b =>
    (Ok match l with Nth _ 1 => false | _ => true end, b);
  loc_get_attribute := loc_get_attribute demo;
  loc_evaluate := loc_evaluate demo;
  loc_scroll_into_view_if_needed := loc_scroll_into_view_if_needed demo;
  sleep := sleep demo;
  time_ms := time_ms demo;
  write_text := write_text demo;
  HTTP_REASONS := HTTP_REASONS demo;
  re_dyn := re_dyn demo;
  float_of_str := float_of_str demo;
  float_str := float_str demo;
  float_2f := float_2f demo
|}.

(** The numeral of [n] nines, and the message of [int] on a numeral of too
    many digits. *)
Definition nines (n : N) : string := N.iter n (String "9") "".

Definition int_limit_message (s : string) : string :=
  "Exceeds the limit (4300 digits) for integer string conversion: "
  ++ "value has " ++ of_Z (Z.of_nat (length s))
  ++ " digits; use sys.set_int_max_str_digits() to increase the limit".

(** The page after a Goto that was answered 404. *)
Definition page_not_found : Page unit :=
  MkPage tt (Some (demo_response 404 "https://example.test/missing")) None.

(** An engine like [demo] with three links: their href attributes differ,
    the first and the third have no rel attribute. *)
Definition link_attribute (attr : string) (i : nat) : option string :=
  if String.eqb attr "href" then nth i [Some "/a"; Some "/b"; Some "/c"] None
  else if String.eqb attr "rel" then nth i [None; Some "next"; None] None
  else None.

Definition demo_links : Env unit := {|
  pg_goto := pg_goto demo;
  pg_evaluate := pg_evaluate demo;
  pg_title := pg_title demo;
  pg_url := pg_url demo;
  pg_content := pg_content demo;
  pg_screenshot := pg_screenshot demo;
  pg_click := pg_click demo;
  pg_fill := pg_fill demo;
  pg_press := pg_press demo;
  pg_wait_for_selector := pg_wait_for_selector demo;
  pg_wait_for_load_state := pg_wait_for_load_state demo;
  pg_set_viewport_size := pg_set_viewport_size demo;
  pg_cookies := pg_cookies demo;
  loc_count := fun _ b => (Ok 3, b);
  loc_is_visible := loc_is_visible demo;
  loc_get_attribute := fun l attr b =>
    match l with
    | Nth _ i => (Ok (link_attribute attr i), b)
    | _ => loc_get_attribute demo l attr b
    end;
  loc_evaluate := loc_evaluate demo;
  loc_scroll_into_view_if_needed := loc_scroll_into_view_if_needed demo;
  sleep := sleep demo;
  time_ms := time_ms demo;
  write_text := write_text demo;
  HTTP_REASONS := HTTP_REASONS demo;
  re_dyn := re_dyn demo;
  float_of_str := float_of_str demo;
  float_str := float_str demo;
  float_2f := float_2f demo
|}.


(** An engine like [demo] whose page has gone on to another document when
    a script is evaluated in it. *)
Definition demo_navigating : Env unit := {|
  pg_goto := pg_goto demo;
  pg_evaluate := fun _ b =>
    (Raise (PlaywrightError
              "Execution context was destroyed, most likely because of a navigation"),
     b);
  pg_title := pg_title demo;
  pg_url := pg_url demo;
  pg_content := pg_content demo;
  pg_screenshot := pg_screenshot demo;
  pg_click := pg_click demo;
  pg_fill := pg_fill demo;
  pg_press := pg_press demo;
  pg_wait_for_selector := pg_wait_for_selector demo;
  pg_wait_for_load_state := pg_wait_for_load_state demo;
  pg_set_viewport_size := pg_set_viewport_size demo;
  pg_cookies := pg_cookies demo;
  loc_count := loc_count demo;
  loc_is_visible := loc_is_visible demo;
  loc_get_attribute := loc_get_attribute demo;
  loc_evaluate := loc_evaluate demo;
  loc_scroll_into_view_if_needed := loc_scroll_into_view_if_needed demo;
  sleep := sleep demo;
  time_ms := time_ms demo;
  write_text := write_text demo;
  HTTP_REASONS := HTTP_REASONS demo;
  re_dyn := re_dyn demo;
  float_of_str := float_of_str demo;
  float_str := float_str demo;
  float_2f := float_2f demo
|}.

(** ** The command line

    [run_device] from the launch of the browser, and [main].  The state [B]
    is here the state of all that the program works on: the browsers it
    launches and the files it reads. *)

(** The keyword arguments of [new_context] for a device. *)
Record context_options : Type := ContextOptions {
  viewport : option (Z * Z);          (* width, height *)
  is_mobile : option bool;
  user_agent : option string
}.

Definition DEVICE_VIEWPORTS : list (string * context_options) :=
  [ ("desktop", ContextOptions (Some (1440, 900)%Z) None None);
    ("mobile", ContextOptions (Some (390, 844)%Z) (Some true) None);
    ("bot", ContextOptions None None
              (Some "Googlebot/2.1 (+http://www.google.com/bot.html)")) ].

(** [DEVICE_VIEWPORTS.get(device)] *)
Fixpoint device_options (device : string) (table : list (string * context_options))
    : option context_options :=
  match table with
  | [] => None
  | (name, opts) :: table' =>
      if String.eqb device name then Some opts else device_options device table'
  end.

(** What [main] needs of its surroundings besides the engine of a page. *)
Record Host (B : Type) : Type := {
  pw_start : B -> outcome unit * B;      (* entering [async_playwright()] *)
  pw_stop : B -> outcome unit * B;       (* leaving it *)
  pw_launch : string -> bool -> B -> outcome unit * B;
                                         (* [getattr(p, browser).launch(headless=...)] *)
  br_new_context : context_options -> B -> outcome unit * B;
  ctx_new_page : B -> outcome unit * B;
  read_text : string -> B -> outcome string * B;
  br_close : B -> outcome unit * B
}.

Arguments pw_start {B}.
Arguments pw_stop {B}.
Arguments pw_launch {B}.
Arguments br_new_context {B}.
Arguments ctx_new_page {B}.
Arguments read_text {B}.
Arguments br_close {B}.

(** The parsed command line, defaults filled in. *)
Record Args : Type := MkArgs {
  arg_script : string;
  arg_devices : string;
  arg_browser : string;
  arg_vars : list string;
  arg_debug : bool;
  arg_snap : bool
}.

Module Cli.

(** The exceptions of the command line: those of the steps and of the
    engine, and the [KeyError] of a lookup in [DEVICE_VIEWPORTS]. *)
Inductive error : Type :=
| KeyError (key : string)
| Other (e : exn).

Inductive result (A : Type) : Type :=
| Done (a : A)
| Failed (e : error).

Arguments Done {A}.
Arguments Failed {A}.

(** [s.split(sep)] for a one-character [sep]. *)
Fixpoint split_on_go (sep : ascii) (cur : string) (s : string) : list string :=
  match s with
  | EmptyString => [cur]
  | String c s' =>
      if Ascii.eqb c sep then cur :: split_on_go sep "" s'
      else split_on_go sep (cur ++ String c "") s'
  end.

Definition split_on (sep : ascii) (s : string) : list string :=
  split_on_go sep "" s.

(** [d[k] = v] on a dict of strings: a key that is there keeps its place. *)
Fixpoint vars_set (k v : string) (d : list (string * string))
    : list (string * string) :=
  match d with
  | [] => [(k, v)]
  | (k', v') :: d' =>
      if String.eqb k k' then (k', v) :: d' else (k', v') :: vars_set k v d'
  end.

Fixpoint vars_get (k : string) (d : list (string * string)) : option string :=
  match d with
  | [] => None
  | (k', v) :: d' => if String.eqb k k' then Some v else vars_get k d'
  end.

(** [dict(v.split('=', 1) for v in args.vars)]: an element without [=] is
    a list of length 1, which [dict] turns down. *)
Fixpoint parse_vars (i : nat) (vars : list string) (d : list (string * string))
    : outcome (list (string * string)) :=
  match vars with
  | [] => Ok d
  | v :: vars' =>
      match split_once "=" v with
      | Some (name, val) => parse_vars (S i) vars' (vars_set name val d)
      | None =>
          Raise (ValueError
                   ("dictionary update sequence element #" ++ of_Z (Z.of_nat i)
                    ++ " has length 1; 2 is required"))
      end
  end.

Section Main.

Context {B : Type} (E : Env B) (H : Host B).

#[local] Abbreviation C := (fun A : Type => B -> result A * B).

Definition andthen {A A'} (m : C A) (f : A -> C A') : C A' :=
  fun b =>
    match m b with
    | (Done a, b') => f a b'
    | (Failed e, b') => (Failed e, b')
    end.

(** A call of the host. *)
Definition host {A} (f : B -> outcome A * B) : C A :=
  fun b =>
    match f b with
    | (Ok a, b') => (Done a, b')
    | (Raise e, b') => (Failed (Other e), b')
    end.

(** The steps of a script on the page [ctx.new_page()] returned: a new
    object, with no response and no variables attached. *)
Definition on_new_page {A} (m : Run.M B A) : C A :=
  fun b =>
    match m (MkPage b None None) with
    | (Ok a, p) => (Done a, browser p)
    | (Raise e, p) => (Failed (Other e), browser p)
    end.

(** [async with async_playwright() as p: body]: leaving is a call in its
    turn, made whether the body returned or raised. *)
Definition with_playwright {A} (body : C A) : C A :=
  andthen (host (pw_start H))
    (fun _ b =>
       match body b with
       | (r, b') =>
           match pw_stop H b' with
           | (Ok _, b'') => (r, b'')
           | (Raise e, b'') => (Failed (Other e), b'')
           end
       end).

Definition run_device (script device browser : string)
    (vars_ : list (string * string)) (debug save_snapshots : bool)
    : C (string * list dict)%type :=
  with_playwright
    (andthen (host (pw_launch H browser (negb debug))) (fun _ =>
     match device_options device DEVICE_VIEWPORTS with
     | None => fun b => (Failed (KeyError device), b)
     | Some opts =>
         andthen (host (br_new_context H opts)) (fun _ =>
         andthen (host (ctx_new_page H)) (fun _ =>
         andthen (host (read_text H script)) (fun content =>
         andthen (on_new_page
                    (run_device E content device vars_ save_snapshots))
           (fun bundle =>
         andthen (host (br_close H)) (fun _ =>
         fun b => (Done bundle, b))))))
     end)).

(** The loop of [main] over the devices. *)
Fixpoint run_devices (args : Args) (vars_ : list (string * string))
    (ds : list string) (all_results : list (string * list dict)%type)
    : C (list (string * list dict)%type) :=
  match ds with
  | [] => fun b => (Done all_results, b)
  | d :: ds' =>
      andthen (run_device (arg_script args) d (arg_browser args) vars_
                 (arg_debug args) (arg_snap args))
        (fun bundle => run_devices args vars_ ds' (all_results ++ [bundle])%list)
  end.

(** [main], up to the list it prints. *)
Definition main (args : Args) : C (list (string * list dict)%type) :=
  match parse_vars 0 (arg_vars args) [] with
  | Raise e => fun b => (Failed (Other e), b)
  | Ok vars_ => run_devices args vars_ (split_on "," (arg_devices args)) []
  end.

End Main.

End Cli.

(** [sep.join(parts)] *)
Fixpoint join (sep : string) (parts : list string) : string :=
  match parts with
  | [] => ""
  | [x] => x
  | x :: parts' => x ++ sep ++ join sep parts'
  end.

(** An option [-v name=value] as it is written. *)
Definition var_option (kv : string * string) : string :=
  fst kv ++ "=" ++ snd kv.

(** A host on which every call returns. *)
Definition demo_host : Host unit := {|
  pw_start := fun b => (Ok tt, b);
  pw_stop := fun b => (Ok tt, b);
  pw_launch := fun _ _ b => (Ok tt, b);
  br_new_context := fun _ b => (Ok tt, b);
  ctx_new_page := fun b => (Ok tt, b);
  read_text := fun _ b => (Ok tagged_script, b);
  br_close := fun b => (Ok tt, b)
|}.

(** The bundles of a run of [main] that returned. *)
Definition bundles_of {B : Type}
    (r : Cli.result (list (string * list dict)) * B) : list (string * list dict) :=
  match r with
  | (Cli.Done out, _) => out
  | (Cli.Failed _, _) => []
  end.

Definition demo_args (devices : string) : Args :=
  MkArgs "checkout.qscript" devices "chromium" ["BASE_URL=https://example.test"]
    false false.

(** A line of a script: no character at which [splitlines] breaks. *)
Definition no_break (line : string) : bool :=
  all (fun c => negb (islinebreak c)) line.

Definition crlf : string := String "013" lf.

(** * Properties *)

(** Unfolds the operations of a computation on a page and computes. *)
Ltac run :=
  unfold Run.bind, Run.try_except, Run.call, Run.call_total, Run.ret,
    Run.raise, Run.get_page, Run.set_last_response, Run.set_vars, group;
  simpl.

Ltac run_in H :=
  unfold Run.bind, Run.try_except, Run.call, Run.call_total, Run.ret,
    Run.raise, Run.get_page, Run.set_last_response, Run.set_vars, group in H;
  simpl in H.

(** ** Strings *)

Module StrFacts.

#[local] Arguments startswith : simpl never.

Lemma append_nil_r (s : string) : s ++ "" = s.
Proof. induction s as [|c s IH]; simpl; [reflexivity | now rewrite IH]. Qed.

Lemma append_assoc (a b c : string) : (a ++ b) ++ c = a ++ (b ++ c).
Proof. induction a as [|x a IH]; simpl; [reflexivity | now rewrite IH]. Qed.

Lemma length_append (a b : string) : length (a ++ b) = length a + length b.
Proof. induction a as [|x a IH]; simpl; [reflexivity | now rewrite IH]. Qed.

Lemma startswith_nil (s : string) : startswith "" s = true.
Proof. destruct s; reflexivity. Qed.

Lemma startswith_cons (c d : ascii) (p s : string) :
  startswith (String c p) (String d s) = Ascii.eqb c d && startswith p s.
Proof.
  unfold startswith; simpl.
  destruct (ascii_dec c d) as [->|n].
  - now rewrite Ascii.eqb_refl.
  - apply Ascii.eqb_neq in n. now rewrite n.
Qed.

Lemma startswith_empty (c : ascii) (p : string) :
  startswith (String c p) "" = false.
Proof. reflexivity. Qed.

Lemma startswith_append (p s : string) : startswith p (p ++ s) = true.
Proof.
  induction p as [|c p IH]; simpl.
  - apply startswith_nil.
  - now rewrite startswith_cons, Ascii.eqb_refl, IH.
Qed.

Lemma startswith_append_r (p s t : string) :
  startswith p s = true -> startswith p (s ++ t) = true.
Proof.
  revert s; induction p as [|c p IH]; intros s H.
  - apply startswith_nil.
  - destruct s as [|d s]; [discriminate|].
    simpl. rewrite startswith_cons in *.
    apply andb_true_iff in H as [-> H]. simpl. now apply IH.
Qed.

(** [strip_prefix] succeeds exactly on the texts that start with the prefix. *)
Lemma strip_prefix_append (p s : string) : strip_prefix p (p ++ s) = Some s.
Proof.
  induction p as [|c p IH]; simpl; [reflexivity|].
  now rewrite Ascii.eqb_refl.
Qed.

Lemma strip_prefix_some (p s r : string) :
  strip_prefix p s = Some r -> s = p ++ r.
Proof.
  revert s; induction p as [|c p IH]; intros s H; simpl in *.
  - now inversion H.
  - destruct s as [|d s]; [discriminate|].
    destruct (Ascii.eqb c d) eqn:Hcd; [|discriminate].
    apply Ascii.eqb_eq in Hcd as ->. f_equal. now apply IH.
Qed.


(** The first word of [s.split()]. *)
Lemma split_go_some (s w : string) :
  split_go (Some w) s
  = (w ++ fst (span (fun c => negb (isspace c)) s))
      :: split_go None (drop 1 (snd (span (fun c => negb (isspace c)) s))).
Proof.
  revert w; induction s as [|c s IH]; intros w; simpl.
  - now rewrite append_nil_r.
  - destruct (isspace c) eqn:Hc; simpl.
    + now rewrite append_nil_r.
    + rewrite IH.
      destruct (span (fun c0 => negb (isspace c0)) s) as [x y]; simpl.
      now rewrite append_assoc.
Qed.

Lemma split_cons_nonspace (c : ascii) (s : string) :
  isspace c = false ->
  exists rest,
    split (String c s)
    = String c (fst (span (fun c => negb (isspace c)) s)) :: rest.
Proof.
  intros Hc. unfold split; simpl. rewrite Hc, split_go_some.
  eexists. reflexivity.
Qed.

(** A word that the line starts with starts the first word of the line. *)
Lemma split_head_startswith (p line cmd : string) (rest : list string) :
  all (fun c => negb (isspace c)) p = true ->
  p <> "" ->
  startswith p line = true ->
  split line = cmd :: rest ->
  startswith p cmd = true.
Proof.
  intros Hp Hne Hpre Hsplit.
  destruct p as [|c p]; [congruence|].
  destruct line as [|d line]; [discriminate|].
  rewrite startswith_cons in Hpre. apply andb_true_iff in Hpre as [Hcd Hpre].
  apply Ascii.eqb_eq in Hcd as <-.
  simpl in Hp. apply andb_true_iff in Hp as [Hc Hp].
  apply negb_true_iff in Hc.
  destruct (split_cons_nonspace c line Hc) as [rest' E].
  rewrite E in Hsplit. inversion Hsplit; subst cmd rest; clear Hsplit E.
  rewrite startswith_cons, Ascii.eqb_refl; simpl.
  clear Hc Hne. revert line Hpre.
  induction p as [|e p IH]; intros line Hpre.
  - apply startswith_nil.
  - destruct line as [|f line]; [discriminate|].
    rewrite startswith_cons in Hpre. apply andb_true_iff in Hpre as [Hef Hpre].
    apply Ascii.eqb_eq in Hef as <-.
    simpl in Hp. apply andb_true_iff in Hp as [He Hp].
    simpl. rewrite He.
    destruct (span (fun c0 => negb (isspace c0)) line) as [x y] eqn:Es.
    simpl. rewrite startswith_cons, Ascii.eqb_refl; simpl.
    specialize (IH Hp line Hpre). now rewrite Es in IH.
Qed.

Lemma mem_false_not_in (s : string) (l : list string) :
  mem s l = false -> ~ In s l.
Proof.
  unfold mem. intros H Hin.
  assert (existsb (String.eqb s) l = true); [|congruence].
  apply existsb_exists. exists s. split; [assumption | apply String.eqb_refl].
Qed.

Lemma occurs_unfold (p s : string) :
  occurs p s
  = startswith p s || match s with EmptyString => false | String _ s' => occurs p s' end.
Proof. destruct s; reflexivity. Qed.

Lemma occurs_append (p a b : string) : occurs p (a ++ p ++ b) = true.
Proof.
  induction a as [|c a IH].
  - simpl. now rewrite occurs_unfold, startswith_append.
  - rewrite occurs_unfold. simpl. rewrite IH. apply orb_true_r.
Qed.

End StrFacts.

(** ** Patterns *)

Module ReFacts.
Import StrFacts.

(** A text matched by a pattern that starts with a literal starts with it. *)
Lemma re_match_lit_prefix (l : string) (r : regex) (s : string) (m : groups) :
  re_match (Cat (Lit l) r) s = Some m -> exists rest, s = l ++ rest.
Proof.
  unfold re_match; cbn [exec].
  destruct (strip_prefix l s) as [rest|] eqn:Es; [|discriminate].
  intros _. exists rest. now apply strip_prefix_some.
Qed.

End ReFacts.

(** ** The dispatcher *)

Section Dispatch.

Context {B : Type} (E : Env B).

Import StrFacts.

(** Every key of the dispatch table is a supported command. *)
Lemma lookup_unsupported (cmd : string) :
  mem cmd SUPPORTED_COMMANDS = false -> lookup cmd (dispatcher E) = None.
Proof.
  unfold mem, SUPPORTED_COMMANDS; simpl. intros H.
  repeat (apply orb_false_iff in H as [? H]).
  unfold dispatcher, lookup.
  repeat match goal with
         | Heq : String.eqb cmd ?k = false |- context [String.eqb cmd ?k] =>
             rewrite Heq
         end.
  reflexivity.
Qed.

(** A line whose first word is a stub keyword is not skipped. *)
Lemma stub_line_not_skipped (line kw : string) (rest : list string) :
  split line = kw :: rest -> In kw stub_keywords -> is_skipped line = false.
Proof.
  intros Hs Hin. unfold is_skipped.
  assert (Hpre : forall p, all (fun c => negb (isspace c)) p = true -> p <> "" ->
                           startswith p kw = false -> startswith p line = false).
  { intros p Hp Hne Hkw. destruct (startswith p line) eqn:Hl; [|reflexivity].
    rewrite (split_head_startswith p line kw rest Hp Hne Hl Hs) in Hkw.
    discriminate. }
  assert (Hne : String.eqb line "" = false).
  { destruct line; [discriminate | reflexivity]. }
  assert (Hend : String.eqb line "End" = false).
  { destruct (String.eqb line "End") eqn:He; [|reflexivity].
    apply String.eqb_eq in He; subst line. vm_compute in Hs.
    inversion Hs; subst kw.
    simpl in Hin; repeat (destruct Hin as [Hin|Hin]; [discriminate|]).
    contradiction. }
  rewrite Hne, Hend.
  rewrite (Hpre "#"), (Hpre "Test:"), (Hpre "Tags:"); try reflexivity;
    try discriminate;
    simpl in Hin;
    repeat (destruct Hin as [Hin|Hin]; [subst kw; reflexivity|]);
    contradiction.
Qed.

(** C5.  A line whose first word is WaitForPopup, SwitchToPopup, ClosePopup,
    SwitchToIFrame, ReturnFromIFrame, SaveSession, RestoreSession or Retry
    finds its keyword in the dispatch table, and its Step Result is FAIL with
    the error message Not implemented: followed by the keyword, whatever
    the rest of the line; the page is left as it was. *)
Theorem stub_commands_not_implemented
    (line kw : string) (rest : list string) (save_snapshots : bool) (p : Page B) :
  split line = kw :: rest ->
  In kw stub_keywords ->
  lookup kw (dispatcher E) <> None
  /\ execute_step E line save_snapshots p
     = (Ok (Some [("step", VStr line); ("status", VStr "FAIL");
                  ("error", VStr ("Not implemented: " ++ kw))]), p).
Proof.
  intros Hs Hin.
  pose proof (stub_line_not_skipped line kw rest Hs Hin) as Hskip.
  unfold execute_step. rewrite Hskip, Hs.
  simpl in Hin.
  repeat (destruct Hin as [Hin|Hin];
          [subst kw; split; [discriminate | reflexivity]|]).
  contradiction.
Qed.

(** C9.  A line that is not skipped as metadata and whose first word is
    neither a supported command nor Assert yields SYNTAX_ERROR, with an
    error message that is not null and names the unknown keyword. *)
Theorem unknown_keyword_syntax_error
    (line cmd : string) (rest : list string) (save_snapshots : bool) (p : Page B) :
  is_skipped line = false ->
  split line = cmd :: rest ->
  mem cmd SUPPORTED_COMMANDS = false ->
  cmd <> "Assert" ->
  exists d msg,
    execute_step E line save_snapshots p = (Ok (Some d), p)
    /\ dict_get "step" d = Some (VStr line)
    /\ dict_get "status" d = Some (VStr "SYNTAX_ERROR")
    /\ dict_get "error" d = Some (VStr msg)
    /\ msg = "Unknown or malformed: " ++ cmd
    /\ occurs cmd msg = true.
Proof.
  intros Hskip Hs Hmem Hassert.
  exists (syntax_error line ("Unknown or malformed: " ++ cmd)),
         ("Unknown or malformed: " ++ cmd).
  unfold execute_step. rewrite Hskip, Hs, (lookup_unsupported cmd Hmem).
  apply String.eqb_neq in Hassert. rewrite Hassert, Hmem. simpl negb. cbv iota.
  repeat split.
  pose proof (occurs_append cmd "Unknown or malformed: " "") as H.
  now rewrite append_nil_r in H.
Qed.

End Dispatch.

(** A stub keyword followed by anything. *)
Lemma stub_commands_not_implemented_witness :
  lookup "Retry" (dispatcher demo) <> None
  /\ execute_step demo ("Retry Click " ++ q "#go" ++ " 3 times") false new_page
     = (Ok (Some [("step", VStr ("Retry Click " ++ q "#go" ++ " 3 times"));
                  ("status", VStr "FAIL");
                  ("error", VStr "Not implemented: Retry")]), new_page).
Proof.
  apply (stub_commands_not_implemented demo
           ("Retry Click " ++ q "#go" ++ " 3 times") "Retry"
           ["Click"; q "#go"; "3"; "times"] false new_page).
  - reflexivity.
  - simpl. tauto.
Defined.

Lemma unknown_keyword_syntax_error_witness :
  exists d msg,
    execute_step demo "Hover over the menu" false new_page = (Ok (Some d), new_page)
    /\ dict_get "step" d = Some (VStr "Hover over the menu")
    /\ dict_get "status" d = Some (VStr "SYNTAX_ERROR")
    /\ dict_get "error" d = Some (VStr msg)
    /\ msg = "Unknown or malformed: Hover"
    /\ occurs "Hover" msg = true.
Proof.
  apply (unknown_keyword_syntax_error demo "Hover over the menu" "Hover"
           ["over"; "the"; "menu"] false new_page).
  - reflexivity.
  - reflexivity.
  - reflexivity.
  - discriminate.
Defined.

(** ** Goto *)

Section Goto.

Context {B : Type} (E : Env B).

Import StrFacts.

(** A line that the pattern of Goto matches is dispatched to [handle_goto]. *)
Lemma goto_line_dispatched (line : string) (m : groups) (save_snapshots : bool) :
  re_match goto_re line = Some m ->
  execute_step E line save_snapshots
  = (r <- handle_goto E line ;; ret (Some r)).
Proof.
  intros Hm.
  destruct (ReFacts.re_match_lit_prefix "Goto" _ line m Hm) as [rest ->].
  unfold re_match in Hm.
  change (exec goto_re ("Goto" ++ rest) [] (fun _ gs => Some gs))
    with (match rest with
          | String c s' =>
              if isspace c
              then rep_greedy isspace s' (fun s'' => exec quoted s'' [] (fun _ gs => Some gs))
              else None
          | EmptyString => None
          end) in Hm.
  destruct rest as [|c rest]; [discriminate|].
  destruct (isspace c) eqn:Hc; [|discriminate].
  unfold execute_step.
  change (is_skipped ("Goto" ++ String c rest)) with false. cbv iota.
  assert (Hs : split ("Goto" ++ String c rest) = "Goto" :: split_go None rest).
  { unfold split. cbn [append split_go].
    change (isspace "G") with false. cbv iota.
    rewrite split_go_some. cbn [span]. 
    change (negb (isspace "o")) with true. change (negb (isspace "t")) with true.
    cbv iota. cbn [span]. rewrite Hc. cbn [negb fst snd append drop]. reflexivity. }
  rewrite Hs. reflexivity.
Qed.

(** The result of a Goto whose page goes on to answer.  When the line is
    a Goto with its URL, the navigation returns a
    response, and the page then gives its navigation timing and its title,
    the Step Result is PASS with a null error for a status code below 400,
    and FAIL with an error message that holds the status code and the reason
    for a status code of 400 or more; either way it carries status_code,
    status_text, redirect_chain, headers, page_title and timing, and the
    response is kept on the page. *)
Theorem goto_result_by_status_code
    (line url : string) (p : Page B) (resp : response) (perf : value)
    (title : string) (b1 b2 b3 : B) :
  re_match goto_re line = Some [url] ->
  pg_goto E url (browser p) = (Ok (Some resp), b1) ->
  pg_evaluate E navigation_timing_js b1 = (Ok perf, b2) ->
  pg_title E b2 = (Ok title, b3) ->
  exists d,
    handle_goto E line p = (Ok d, MkPage b3 (Some resp) (_vars p))
    /\ (forall save_snapshots,
          execute_step E line save_snapshots p
          = (Ok (Some d), MkPage b3 (Some resp) (_vars p)))
    /\ dict_get "step" d = Some (VStr line)
    /\ ((status resp < 400)%Z ->
        dict_get "status" d = Some (VStr "PASS")
        /\ dict_get "error" d = Some VNone)
    /\ ((400 <= status resp)%Z ->
        dict_get "status" d = Some (VStr "FAIL")
        /\ exists msg,
             dict_get "error" d = Some (VStr msg)
             /\ msg = "HTTP " ++ of_Z (status resp) ++ " " ++ reason_of E (status resp)
             /\ occurs (of_Z (status resp)) msg = true
             /\ occurs (reason_of E (status resp)) msg = true)
    /\ dict_get "status_code" d = Some (VInt (status resp))
    /\ dict_get "status_text" d = Some (VStr (reason_of E (status resp)))
    /\ dict_get "redirect_chain" d
       = Some (VList (map VStr (get_redirect_chain resp)))
    /\ dict_get "headers" d = Some (headers resp)
    /\ dict_get "page_title" d = Some (VStr title)
    /\ dict_get "timing" d = Some perf.
Proof.
  intros Hm Hgoto Hperf Htitle.
  assert (Hd : exists d,
             handle_goto E line p = (Ok d, MkPage b3 (Some resp) (_vars p))
             /\ d = dict_of
                  [ ("step", VStr line);
                    ("status", VStr (if (status resp <? 400)%Z then "PASS" else "FAIL"));
                    ("error", if (status resp <? 400)%Z then VNone
                              else VStr ("HTTP " ++ of_Z (status resp) ++ " "
                                         ++ reason_of E (status resp)));
                    ("status_code", VInt (status resp));
                    ("status_text", VStr (reason_of E (status resp)));
                    ("redirect_chain", VList (map VStr (get_redirect_chain resp)));
                    ("headers", headers resp);
                    ("page_title", VStr title);
                    ("timing", perf) ]).
  { unfold handle_goto. rewrite Hm.
    run. rewrite Hgoto; simpl. rewrite Hperf; simpl. rewrite Htitle; simpl.
    fold (reason_of E (status resp)).
    eexists. split; reflexivity. }
  destruct Hd as [d [Hh ->]].
  eexists. split; [exact Hh|].
  split.
  { intros save_snapshots. rewrite (goto_line_dispatched line [url] save_snapshots Hm).
    unfold bind, ret. now rewrite Hh. }
  cbn.
  split; [reflexivity|].
  split.
  { intros Hlt. apply Z.ltb_lt in Hlt. rewrite Hlt. split; reflexivity. }
  split.
  { intros Hge. apply Z.ltb_ge in Hge. rewrite Hge.
    split; [reflexivity|]. eexists. split; [reflexivity|].
    split; [reflexivity|]. split.
    - apply (occurs_append (of_Z (status resp)) "HTTP "
               (" " ++ reason_of E (status resp))).
    - pose proof (occurs_append (reason_of E (status resp))
                    ("HTTP " ++ of_Z (status resp) ++ " ") "") as H.
      rewrite append_nil_r in H.
      now rewrite !append_assoc in H. }
  repeat split; reflexivity.
Qed.

(** C4.  A Goto whose navigation completed with a status code still
    yields no Step Result when the page then fails to give its navigation
    timing or its title: the two calls are made outside the [try] that
    guards the navigation, so the exception leaves [handle_goto] and
    [execute_step] in place of a result.  The response is on the page by
    then. *)
Theorem goto_timing_failure_escapes
    (line url : string) (p : Page B) (resp : response) (e : exn) (b1 : B) :
  re_match goto_re line = Some [url] ->
  pg_goto E url (browser p) = (Ok (Some resp), b1) ->
  (forall b2,
     pg_evaluate E navigation_timing_js b1 = (Raise e, b2) ->
     handle_goto E line p = (Raise e, MkPage b2 (Some resp) (_vars p))
     /\ (forall save_snapshots,
           execute_step E line save_snapshots p
           = (Raise e, MkPage b2 (Some resp) (_vars p))))
  /\ (forall perf b2 b3,
        pg_evaluate E navigation_timing_js b1 = (Ok perf, b2) ->
        pg_title E b2 = (Raise e, b3) ->
        handle_goto E line p = (Raise e, MkPage b3 (Some resp) (_vars p))
        /\ (forall save_snapshots,
              execute_step E line save_snapshots p
              = (Raise e, MkPage b3 (Some resp) (_vars p)))).
Proof.
  intros Hm Hgoto. split.
  - intros b2 Hperf.
    assert (Hh : handle_goto E line p
                 = (Raise e, MkPage b2 (Some resp) (_vars p))).
    { unfold handle_goto. rewrite Hm. run. rewrite Hgoto; simpl.
      rewrite Hperf. reflexivity. }
    split; [exact Hh|].
    intros save_snapshots.
    rewrite (goto_line_dispatched line [url] save_snapshots Hm).
    unfold bind. now rewrite Hh.
  - intros perf b2 b3 Hperf Htitle.
    assert (Hh : handle_goto E line p
                 = (Raise e, MkPage b3 (Some resp) (_vars p))).
    { unfold handle_goto. rewrite Hm. run. rewrite Hgoto; simpl.
      rewrite Hperf; simpl. rewrite Htitle. reflexivity. }
    split; [exact Hh|].
    intros save_snapshots.
    rewrite (goto_line_dispatched line [url] save_snapshots Hm).
    unfold bind. now rewrite Hh.
Qed.

End Goto.

(** A page that answers 404. *)
Lemma goto_result_by_status_code_witness :
  exists d,
    handle_goto demo ("Goto " ++ q "https://example.test/missing") new_page
    = (Ok d, MkPage tt
               (Some (demo_response 404 "https://example.test/missing")) None)
    /\ (forall save_snapshots,
          execute_step demo ("Goto " ++ q "https://example.test/missing")
            save_snapshots new_page
          = (Ok (Some d), MkPage tt
                            (Some (demo_response 404 "https://example.test/missing"))
                            None))
    /\ dict_get "step" d
       = Some (VStr ("Goto " ++ q "https://example.test/missing"))
    /\ ((404 < 400)%Z ->
        dict_get "status" d = Some (VStr "PASS")
        /\ dict_get "error" d = Some VNone)
    /\ ((400 <= 404)%Z ->
        dict_get "status" d = Some (VStr "FAIL")
        /\ exists msg,
             dict_get "error" d = Some (VStr msg)
             /\ msg = "HTTP 404 Not Found"
             /\ occurs "404" msg = true
             /\ occurs "Not Found" msg = true)
    /\ dict_get "status_code" d = Some (VInt 404)
    /\ dict_get "status_text" d = Some (VStr "Not Found")
    /\ dict_get "redirect_chain" d = Some (VList [])
    /\ dict_get "headers" d = Some (VDict [("content-type", VStr "text/html")])
    /\ dict_get "page_title" d = Some (VStr "Example Domain")
    /\ dict_get "timing" d = Some (VDict [("totalTime", VInt 12)]).
Proof.
  apply (goto_result_by_status_code demo
           ("Goto " ++ q "https://example.test/missing")
           "https://example.test/missing" new_page
           (demo_response 404 "https://example.test/missing")
           (VDict [("totalTime", VInt 12)]) "Example Domain" tt tt tt);
    reflexivity.
Defined.

(** A page that answers 200 and is gone when its timing is asked for. *)
Lemma goto_timing_failure_escapes_witness :
  handle_goto demo_navigating ("Goto " ++ q "https://example.test/") new_page
  = (Raise (PlaywrightError
              "Execution context was destroyed, most likely because of a navigation"),
     MkPage tt (Some (demo_response 200 "https://example.test/")) None)
  /\ (forall save_snapshots,
        execute_step demo_navigating ("Goto " ++ q "https://example.test/")
          save_snapshots new_page
        = (Raise (PlaywrightError
                    "Execution context was destroyed, most likely because of a navigation"),
           MkPage tt (Some (demo_response 200 "https://example.test/")) None)).
Proof.
  apply (proj1 (goto_timing_failure_escapes demo_navigating
                  ("Goto " ++ q "https://example.test/")
                  "https://example.test/" new_page
                  (demo_response 200 "https://example.test/")
                  (PlaywrightError
                     "Execution context was destroyed, most likely because of a navigation")
                  tt eq_refl eq_refl) tt).
  reflexivity.
Defined.

(** ** The assertion chain *)

Section AssertChain.

Context {B : Type} (E : Env B).

Import StrFacts ReFacts.

#[local] Abbreviation handler := (string -> Run.M B (option dict)).

(** The four ways one pass of the loop of [handle_assert] ends. *)
Lemma assert_loop_no_match (h : handler) (hs : list handler)
    (step_line expr : string) (save_snapshots : bool) (p p' : Page B) :
  h expr p = (Ok None, p') ->
  assert_loop E (h :: hs) step_line expr save_snapshots p
  = assert_loop E hs step_line expr save_snapshots p'.
Proof. intros H. simpl. unfold try_handler. run. now rewrite H. Qed.

Lemma assert_loop_passed (h : handler) (hs : list handler)
    (step_line expr : string) (save_snapshots : bool) (p p' : Page B) (res : dict) :
  h expr p = (Ok (Some res), p') ->
  assert_loop E (h :: hs) step_line expr save_snapshots p
  = (Ok (dict_update [("step", VStr step_line); ("status", VStr "PASS");
                      ("error", VNone)] res), p').
Proof. intros H. simpl. unfold try_handler. run. now rewrite H. Qed.

(** An [AssertionError] of a handler becomes a FAIL result. *)
Lemma assert_loop_failed (h : handler) (hs : list handler)
    (step_line expr msg : string) (p p' : Page B) :
  h expr p = (Raise (AssertionError msg), p') ->
  assert_loop E (h :: hs) step_line expr false p
  = (Ok (fail step_line msg), p').
Proof. intros H. simpl. unfold try_handler. run. now rewrite H. Qed.

(** Any other exception of a handler leaves the loop as it is. *)
Lemma assert_loop_escapes (h : handler) (hs : list handler)
    (step_line expr : string) (save_snapshots : bool) (p p' : Page B) (e : exn) :
  h expr p = (Raise e, p') ->
  is_AssertionError e = false ->
  assert_loop E (h :: hs) step_line expr save_snapshots p = (Raise e, p').
Proof. intros H He. simpl. unfold try_handler. run. now rewrite H, He. Qed.

(** C2.  The expression canonical href equals page.url is recognized by the
    canonical matcher; when reading the href of the first canonical link
    times out, the failure is no [AssertionError], the chain does not catch
    it, and the step raises it in place of returning a Step Result. *)
Theorem canonical_timeout_escapes_chain
    (save_snapshots : bool) (p : Page B) (msg : string) (b1 : B) :
  loc_get_attribute E (First "link[rel='canonical']") "href" (browser p)
  = (Raise (PlaywrightTimeoutError msg), b1) ->
  assert_canonical E "canonical href equals page.url" p
  = (Raise (PlaywrightTimeoutError msg), MkPage b1 (_last_response p) (_vars p))
  /\ execute_step E "Assert canonical href equals page.url" save_snapshots p
     = (Raise (PlaywrightTimeoutError msg), MkPage b1 (_last_response p) (_vars p)).
Proof.
  intros H.
  assert (Hc : assert_canonical E "canonical href equals page.url" p
               = (Raise (PlaywrightTimeoutError msg),
                  MkPage b1 (_last_response p) (_vars p))).
  { unfold assert_canonical. run. now rewrite H. }
  split; [exact Hc|].
  unfold execute_step.
  change (is_skipped "Assert canonical href equals page.url") with false.
  change (split "Assert canonical href equals page.url")
    with ["Assert"; "canonical"; "href"; "equals"; "page.url"].
  cbv beta iota.
  replace (lookup "Assert" (dispatcher E)) with (@None (string -> Run.M B dict))
    by reflexivity.
  rewrite String.eqb_refl.
  change (strip (drop (length "Assert") "Assert canonical href equals page.url"))
    with "canonical href equals page.url".
  assert (Hloop : handle_assert E "canonical href equals page.url" save_snapshots p
                  = (Raise (PlaywrightTimeoutError msg),
                     MkPage b1 (_last_response p) (_vars p))).
  { unfold handle_assert, assertion_handlers.
    do 9 (erewrite assert_loop_no_match; [|reflexivity]).
    apply assert_loop_escapes; [exact Hc | reflexivity]. }
  unfold bind. now rewrite Hloop.
Qed.

(** The same time-out in the matcher of one attribute is turned into an
    [AssertionError], and so into a FAIL result. *)
Lemma attribute_timeout_is_fail
    (p : Page B) (msg : string) (b1 : B) :
  loc_get_attribute E (Loc "a") "href" (browser p)
  = (Raise (PlaywrightTimeoutError msg), b1) ->
  handle_assert E "attribute a@href matches /^x/" false p
  = (Ok (fail "Assert attribute a@href matches /^x/"
           "Could not read attribute 'href' from a: timed out"),
     MkPage b1 (_last_response p) (_vars p)).
Proof.
  intros H.
  unfold handle_assert, assertion_handlers.
  do 7 (erewrite assert_loop_no_match; [|reflexivity]).
  apply assert_loop_failed.
  unfold assert_attribute_regex.
  change (re_match attribute_re "attribute a@href matches /^x/")
    with (Some ["a@href"; "^x"]).
  run. now rewrite H.
Qed.

(** C3.  When the expression is of the shape each attribute ... in elements
    ... matches /.../ and the variable store holds a non-empty string for
    BASE_URL, the matcher raises [UnboundLocalError] before it reads any
    element, and the chain lets it through: no placeholder is expanded and
    no verdict is produced. *)
Theorem regex_each_with_base_url_raises
    (expr : string) (m : groups) (save_snapshots : bool) (p : Page B)
    (base : string) :
  re_match regex_each_re expr = Some m ->
  base_url p = VStr base ->
  base <> "" ->
  exists msg,
    assert_regex_each E expr p = (Raise (UnboundLocalError msg), p)
    /\ handle_assert E expr save_snapshots p = (Raise (UnboundLocalError msg), p).
Proof.
  intros Hm Hbase Hne.
  eexists.
  assert (Hr : assert_regex_each E expr p
               = (Raise (UnboundLocalError
                    "cannot access local variable 'raw_regex' where it is not associated with a value"), p)).
  { unfold assert_regex_each. rewrite Hm. run. rewrite Hbase. simpl.
    apply String.eqb_neq in Hne. rewrite Hne. reflexivity. }
  split; [exact Hr|].
  assert (Hpre : exists rest, expr = "each attribute " ++ rest).
  { exact (re_match_lit_prefix _ _ _ _ Hm). }
  destruct Hpre as [rest ->].
  unfold handle_assert, assertion_handlers.
  do 8 (erewrite assert_loop_no_match; [|reflexivity]).
  apply assert_loop_escapes; [exact Hr | reflexivity].
Qed.

End AssertChain.

Lemma canonical_timeout_escapes_chain_witness :
  assert_canonical demo "canonical href equals page.url" new_page
  = (Raise (PlaywrightTimeoutError "Timeout 30000ms exceeded."), new_page)
  /\ execute_step demo "Assert canonical href equals page.url" false new_page
     = (Raise (PlaywrightTimeoutError "Timeout 30000ms exceeded."), new_page).
Proof.
  apply (canonical_timeout_escapes_chain demo false new_page
           "Timeout 30000ms exceeded." tt).
  reflexivity.
Defined.

Lemma regex_each_with_base_url_raises_witness :
  exists msg,
    assert_regex_each demo
      ("each attribute href in elements " ++ q "a" ++ " matches /^<BASE_URL>/")
      page_with_base_url
    = (Raise (UnboundLocalError msg), page_with_base_url)
    /\ handle_assert demo
         ("each attribute href in elements " ++ q "a" ++ " matches /^<BASE_URL>/")
         false page_with_base_url
       = (Raise (UnboundLocalError msg), page_with_base_url).
Proof.
  apply (regex_each_with_base_url_raises demo
           ("each attribute href in elements " ++ q "a" ++ " matches /^<BASE_URL>/")
           ["href"; "a"; "^<BASE_URL>"] false page_with_base_url
           "https://example.test").
  - reflexivity.
  - reflexivity.
  - discriminate.
Defined.

(** ** SetVar and the invariant of a Step Result *)

Section SetVar.

Context {B : Type} (E : Env B).

(** Setting a field leaves the others as they are. *)
Lemma dict_get_set_other (k k' : string) (v : value) (d : dict) :
  k <> k' -> dict_get k (dict_set k' v d) = dict_get k d.
Proof.
  intros Hk. apply String.eqb_neq in Hk.
  induction d as [|[k0 v0] d IH]; simpl.
  - now rewrite Hk.
  - destruct (String.eqb k' k0) eqn:E0; simpl.
    + apply String.eqb_eq in E0; subst k0. now rewrite Hk.
    + destruct (String.eqb k k0); [reflexivity | exact IH].
Qed.

Lemma dict_get_cons (k k' : string) (v : value) (d : dict) :
  dict_get k ((k', v) :: d) = if String.eqb k k' then Some v else dict_get k d.
Proof. reflexivity. Qed.

(** The results the handlers build by hand keep the invariant. *)
Lemma pass_invariant (line : string) : result_invariant (pass line).
Proof.
  split; [reflexivity|]. intros [H|H]; discriminate.
Qed.

Lemma fail_invariant (line msg : string) : result_invariant (fail line msg).
Proof.
  split; [discriminate|]. intros _. exists (VStr msg). split; [reflexivity | discriminate].
Qed.

Lemma syntax_error_invariant (line msg : string) :
  result_invariant (syntax_error line msg).
Proof.
  split; [discriminate|]. intros _. exists (VStr msg). split; [reflexivity | discriminate].
Qed.

(** C1, at the input where the code departs from it.  When the line is a
    SetVar of a variable named otherwise than step, status or error and the
    page evaluates the expression, the Step Result has status PASS and no
    error field at all: the invariant of a Step Result does not hold of it.
    The value is stored under the name in the variable store. *)
Theorem setvar_pass_has_no_error_field
    (line varname js_expr : string) (p : Page B) (val : value) (b1 : B) :
  re_match setvar_re line = Some [varname; js_expr] ->
  pg_evaluate E js_expr (browser p) = (Ok val, b1) ->
  varname <> "step" -> varname <> "status" -> varname <> "error" ->
  exists d,
    handle_setvar E line p
    = (Ok d, MkPage b1 (_last_response p)
               (Some (dict_set varname val
                        (match _vars p with Some vars => vars | None => [] end))))
    /\ d = [("step", VStr line); ("status", VStr "PASS"); (varname, val)]
    /\ dict_get "status" d = Some (VStr "PASS")
    /\ dict_get "error" d = None
    /\ ~ result_invariant d.
Proof.
  intros Hm Hev Hstep Hstatus Herror.
  apply String.eqb_neq in Hstep, Hstatus.
  assert (Herr : String.eqb "error" varname = false).
  { apply String.eqb_neq. congruence. }
  unfold handle_setvar. rewrite Hm. run. rewrite Hev. simpl.
  eexists. split; [reflexivity|].
  unfold dict_of; simpl. rewrite Hstep, Hstatus.
  split; [reflexivity|].
  assert (Hget : dict_get "error"
                   [("step", VStr line); ("status", VStr "PASS"); (varname, val)]
                 = None).
  { rewrite !dict_get_cons, Herr. reflexivity. }
  split; [reflexivity|]. split; [exact Hget|].
  intros [Hpass _]. specialize (Hpass eq_refl). congruence.
Qed.

End SetVar.

Lemma setvar_pass_has_no_error_field_witness :
  exists d,
    handle_setvar demo ("SetVar " ++ q "TWO" ++ " = 1+1") new_page
    = (Ok d, MkPage tt None (Some [("TWO", VInt 2)]))
    /\ d = [("step", VStr ("SetVar " ++ q "TWO" ++ " = 1+1"));
            ("status", VStr "PASS"); ("TWO", VInt 2)]
    /\ dict_get "status" d = Some (VStr "PASS")
    /\ dict_get "error" d = None
    /\ ~ result_invariant d.
Proof.
  apply (setvar_pass_has_no_error_field demo
           ("SetVar " ++ q "TWO" ++ " = 1+1") "TWO" "1+1" new_page (VInt 2) tt).
  - reflexivity.
  - reflexivity.
  - discriminate.
  - discriminate.
  - discriminate.
Defined.

(** ** The invariant of a Step Result, on every path but SetVar's *)

Section Invariant.

Context {B : Type} (E : Env B).

(** Destructs the next call of the engine in [H], or the next test. *)
Ltac call_in H :=
  match type of H with
  | context [loc_count E ?l ?b] => destruct (loc_count E l b) as [[?|?] ?]
  | context [loc_is_visible E ?l ?b] => destruct (loc_is_visible E l b) as [[[]|?] ?]
  | context [loc_get_attribute E ?l ?a ?b] =>
      destruct (loc_get_attribute E l a b) as [[?|?] ?]
  | context [loc_evaluate E ?l ?a ?b] => destruct (loc_evaluate E l a b) as [[?|?] ?]
  | context [pg_evaluate E ?a ?b] => destruct (pg_evaluate E a b) as [[?|?] ?]
  | context [count_visible E ?s ?l ?n ?p] =>
      destruct (count_visible E s l n p) as [[?|?] ?]
  | context [regex_each_loop E ?s ?a ?r ?l ?n ?p] =>
      destruct (regex_each_loop E s a r l n p) as [[?|?] ?]
  | context [no_duplicates_loop E ?s ?a ?l ?n ?p] =>
      destruct (no_duplicates_loop E s a l n p) as [[?|?] ?]
  | context [re_dyn E ?a ?b] => destruct (re_dyn E a b) as [[]|?]
  | context [float_of_str E ?a] => destruct (float_of_str E a) as [?|?]
  | context [int_of_str ?a] => destruct (int_of_str a) as [?|?]
  | context [split_once ?c ?s] => destruct (split_once c s) as [[? ?]|]
  | context [as_number ?v] => destruct (as_number v)
  | context [base_url ?p] => destruct (base_url p)
  | context [_last_response ?p] => destruct (_last_response p)
  | context [is_PlaywrightTimeoutError ?e] => destruct (is_PlaywrightTimeoutError e)
  | context [if ?c then _ else _] => destruct c
  end;
  cbn beta iota in H.

Ltac payload H :=
  match type of H with
  | context [re_match ?r ?l] => destruct (re_match r l)
  end;
  [|inversion H];
  unfold extract_visible_text in H;
  unfold bind, try_except, call, ret, raise, get_page in H;
  repeat call_in H;
  try discriminate;
  inversion H; subst; split; reflexivity.

Lemma assertion_payload_ok (h : string -> Run.M B (option dict)) (expr : string)
    (p p' : Page B) (res : dict) :
  In h (assertion_handlers E) ->
  h expr p = (Ok (Some res), p') -> payload_ok res.
Proof.
  unfold assertion_handlers. intros Hin H. simpl in Hin.
  repeat (destruct Hin as [Hin|Hin]; [subst h|]); try contradiction.
  - unfold assert_status in H. payload H.
  - unfold assert_url in H. payload H.
  - unfold assert_exists in H. payload H.
  - unfold assert_visible in H. payload H.
  - unfold assert_similar in H. payload H.
  - unfold assert_children in H. payload H.
  - unfold assert_cls in H. payload H.
  - unfold assert_attribute_regex in H. payload H.
  - unfold assert_regex_each in H. payload H.
  - unfold assert_canonical in H.
    unfold bind, try_except, call, ret, raise, get_page in H.
    repeat call_in H; try discriminate; inversion H; subst; split; reflexivity.
  - unfold assert_language in H. payload H.
  - unfold assert_no_duplicates in H. payload H.
Qed.

Lemma dict_get_update_absent (k : string) (more : dict) :
  forall d, dict_get k more = None -> dict_get k (dict_update d more) = dict_get k d.
Proof.
  unfold dict_update. induction more as [|[k' v'] more IH]; intros d H; simpl.
  - reflexivity.
  - simpl in H. destruct (String.eqb k k') eqn:Ek; [discriminate|].
    rewrite (IH _ H). apply dict_get_set_other. now apply String.eqb_neq.
Qed.

(** A verdict of the assertion chain keeps the invariant. *)
Lemma assert_loop_invariant (hs : list (string -> Run.M B (option dict)))
    (step_line expr : string) (save_snapshots : bool) :
  (forall h, In h hs -> In h (assertion_handlers E)) ->
  forall (p p' : Page B) (d : dict),
    assert_loop E hs step_line expr save_snapshots p = (Ok d, p') ->
    result_invariant d.
Proof.
  induction hs as [|h hs IH]; intros Hsub p p' d H; cbn [assert_loop] in H.
  - inversion H. apply syntax_error_invariant.
  - unfold try_handler, bind, try_except, ret in H.
    destruct (h expr p) as [[[res|]|e] p1] eqn:Eh.
    + inversion H; subst. clear H.
      destruct (assertion_payload_ok h expr p p' res (Hsub h (or_introl eq_refl)) Eh)
        as [Hs He].
      unfold result_invariant. rewrite !dict_get_update_absent by assumption.
      apply (pass_invariant step_line).
    + eapply IH; [|exact H]. intros h' Hh'. apply Hsub. now right.
    + destruct (is_AssertionError e); [|discriminate].
      destruct save_snapshots.
      * unfold save_snapshot, call_total, call, bind, ret in H.
        destruct (time_ms E (browser p1)) as [t b1]. cbn in H.
        destruct (pg_content E b1) as [[html|e1] b2]; cbn in H; [|discriminate].
        destruct (write_text E _ html b2) as [[[]|e2] b3]; cbn in H; [|discriminate].
        destruct (pg_screenshot E _ b3) as [[[]|e3] b4]; cbn in H; [|discriminate].
        inversion H; subst. split; [discriminate|]. intros _.
        eexists. split; [reflexivity | discriminate].
      * inversion H. apply fail_invariant.
Qed.

Lemma pass_or_fail_invariant (line : string) (action : Run.M B unit)
    (p p' : Page B) (d : dict) :
  pass_or_fail line action p = (Ok d, p') -> result_invariant d.
Proof.
  unfold pass_or_fail, try_except, bind, ret. intros H.
  destruct (action p) as [[[]|e] p1]; inversion H;
    [apply pass_invariant | apply fail_invariant].
Qed.

Ltac pattern_invariant H :=
  match type of H with
  | context [re_match ?r ?l] => destruct (re_match r l) eqn:?
  end;
  [ eapply pass_or_fail_invariant; exact H
  | inversion H; apply syntax_error_invariant ].

(** So does a result of every command handler but SetVar's. *)
Lemma handler_invariant (cmd line : string) (h : string -> Run.M B dict)
    (p p' : Page B) (d : dict) :
  lookup cmd (dispatcher E) = Some h ->
  cmd <> "SetVar" ->
  h line p = (Ok d, p') -> result_invariant d.
Proof.
  unfold dispatcher, lookup. intros Hl Hcmd H.
  apply String.eqb_neq in Hcmd.
  repeat match type of Hl with
         | context [String.eqb cmd ?k] =>
             destruct (String.eqb cmd k);
             [inversion Hl; subst h; clear Hl|]
         end; try discriminate.
  - unfold handle_goto in H.
    destruct (re_match goto_re line) eqn:Em;
      [|inversion H; apply syntax_error_invariant].
    unfold bind, try_except, call, ret, raise, set_last_response in H.
    destruct (pg_goto E (group 1 g) (browser p)) as [[[resp|]|e] b1];
      cbn in H; try discriminate.
    + destruct (pg_evaluate E navigation_timing_js b1) as [[perf|e] b2];
        cbn in H; try discriminate.
      destruct (pg_title E b2) as [[title|e] b3]; cbn in H; try discriminate.
      inversion H; subst. clear H.
      destruct (status resp <? 400)%Z; split.
      * reflexivity.
      * intros [Hs|Hs]; discriminate.
      * discriminate.
      * intros _. eexists. split; [reflexivity | discriminate].
    + inversion H. apply fail_invariant.
  - unfold handle_click in H. pattern_invariant H.
  - unfold handle_fill in H. pattern_invariant H.
  - unfold handle_fillauto in H. pattern_invariant H.
  - unfold handle_waitfor in H. pattern_invariant H.
  - unfold handle_scrollto in H. pattern_invariant H.
  - unfold handle_assertcookie in H. pattern_invariant H.
  - unfold handle_viewport in H.
    destruct (re_match viewport_re line);
      [|inversion H; apply syntax_error_invariant].
    destruct (int_of_str (group 1 g)) as [w|e]; cbn beta iota in H;
      [|discriminate].
    destruct (int_of_str (group 2 g)) as [h|e]; cbn beta iota in H;
      [|discriminate].
    eapply pass_or_fail_invariant; exact H.
  - inversion H. apply fail_invariant.
  - inversion H. apply fail_invariant.
  - inversion H. apply fail_invariant.
  - inversion H. apply fail_invariant.
  - inversion H. apply fail_invariant.
  - inversion H. apply fail_invariant.
  - inversion H. apply fail_invariant.
  - inversion H. apply fail_invariant.
Qed.

(** Every Step Result keeps the invariant, but those of SetVar. *)
Lemma execute_step_invariant (line cmd : string) (rest : list string)
    (save_snapshots : bool) (p p' : Page B) (d : dict) :
  split line = cmd :: rest ->
  cmd <> "SetVar" ->
  execute_step E line save_snapshots p = (Ok (Some d), p') ->
  result_invariant d.
Proof.
  intros Hs Hcmd H. unfold execute_step in H.
  destruct (is_skipped line); [discriminate|]. rewrite Hs in H.
  destruct (lookup cmd (dispatcher E)) as [h|] eqn:El.
  - unfold bind, ret in H.
    destruct (h line p) as [[d1|e] p1] eqn:Eh; [|discriminate].
    inversion H; subst. eapply handler_invariant; eassumption.
  - destruct (String.eqb cmd "Assert").
    + unfold bind, ret in H.
      destruct (handle_assert E _ save_snapshots p) as [[d1|e] p1] eqn:Eh;
        [|discriminate].
      inversion H; subst.
      eapply (assert_loop_invariant (assertion_handlers E)); [|exact Eh].
      intros h Hh. exact Hh.
    + destruct (negb (mem cmd SUPPORTED_COMMANDS));
        inversion H; apply syntax_error_invariant.
Qed.

End Invariant.

(** ** Tags *)

Section Tags.

Context {B : Type} (E : Env B).

Import StrFacts.

Lemma dict_set_not_nil (k : string) (v : value) (d : dict) : dict_set k v d <> [].
Proof.
  destruct d as [|[k' v'] d]; simpl; [discriminate|].
  destruct (String.eqb k k'); discriminate.
Qed.

Lemma dict_update_not_nil (d more : dict) : d <> [] -> dict_update d more <> [].
Proof.
  unfold dict_update. revert d.
  induction more as [|[k v] more IH]; intros d Hd; simpl; [exact Hd|].
  apply IH, dict_set_not_nil.
Qed.

Lemma dict_of_not_nil (kv : string * value) (kvs : list (string * value)) :
  dict_of (kv :: kvs) <> [].
Proof.
  unfold dict_of; simpl.
  apply (dict_update_not_nil (dict_set (fst kv) (snd kv) []) kvs).
  apply dict_set_not_nil.
Qed.

Lemma dict_get_set_same (k : string) (v : value) (d : dict) :
  dict_get k (dict_set k v d) = Some v.
Proof.
  induction d as [|[k' v'] d IH]; simpl.
  - now rewrite String.eqb_refl.
  - destruct (String.eqb k k') eqn:Ek; simpl; rewrite Ek; [reflexivity | exact IH].
Qed.

Lemma dict_truthy_not_nil (d : dict) : d <> [] -> dict_truthy d = true.
Proof. destruct d; [congruence | reflexivity]. Qed.

(** Destructs what the next computation step of a handler depends on. *)
Ltac step_in H :=
  match type of H with
  | context [match ?x with _ => _ end] => destruct x eqn:?
  end.

Ltac finish_result H :=
  inversion H; subst; unfold fail, pass, syntax_error;
  first [ apply dict_of_not_nil
        | apply dict_update_not_nil; apply dict_of_not_nil
        | discriminate ].

(** A result of the assertion chain is never the empty dict. *)
Lemma assert_loop_not_nil (hs : list (string -> Run.M B (option dict)))
    (step_line expr : string) (save_snapshots : bool) (p p' : Page B) (d : dict) :
  assert_loop E hs step_line expr save_snapshots p = (Ok d, p') -> d <> [].
Proof.
  revert p; induction hs as [|h hs IH]; intros p H; simpl in H.
  - unfold ret in H. finish_result H.
  - unfold try_handler, save_snapshot in H. run_in H.
    destruct (h expr p) as [[[res|]|e] p1] eqn:Eh.
    + finish_result H.
    + eapply IH; eassumption.
    + destruct (is_AssertionError e); [|discriminate].
      destruct save_snapshots.
      * repeat step_in H; try discriminate; finish_result H.
      * finish_result H.
Qed.

Lemma pass_or_fail_not_nil (line : string) (action : Run.M B unit)
    (p p' : Page B) (d : dict) :
  pass_or_fail line action p = (Ok d, p') -> d <> [].
Proof.
  unfold pass_or_fail, try_except, bind, ret. intros H.
  destruct (action p) as [[[]|e] p1]; simpl in H; inversion H; discriminate.
Qed.

(** A handler that checks its pattern and then acts. *)
Ltac pattern_then_act H :=
  match type of H with
  | context [re_match ?r ?l] => destruct (re_match r l) eqn:?
  end;
  [ eapply pass_or_fail_not_nil; exact H
  | inversion H; discriminate ].

(** Nor is a result of a command handler. *)
Lemma handler_not_nil (cmd line : string) (h : string -> Run.M B dict)
    (p p' : Page B) (d : dict) :
  lookup cmd (dispatcher E) = Some h ->
  h line p = (Ok d, p') -> d <> [].
Proof.
  unfold dispatcher, lookup. intros Hl H.
  repeat match type of Hl with
         | context [String.eqb cmd ?k] =>
             destruct (String.eqb cmd k);
             [inversion Hl; subst h; clear Hl|]
         end; try discriminate.
  - unfold handle_goto in H.
    destruct (re_match goto_re line) eqn:Em; [|inversion H; discriminate].
    run_in H. repeat step_in H; try discriminate; finish_result H.
  - unfold handle_click in H. pattern_then_act H.
  - unfold handle_fill in H. pattern_then_act H.
  - unfold handle_fillauto in H. pattern_then_act H.
  - unfold handle_waitfor in H. pattern_then_act H.
  - unfold handle_scrollto in H. pattern_then_act H.
  - unfold handle_assertcookie in H. pattern_then_act H.
  - unfold handle_viewport in H.
    destruct (re_match viewport_re line); [|inversion H; discriminate].
    destruct (int_of_str (group 1 g)) as [w|e]; cbn beta iota in H;
      [|discriminate].
    destruct (int_of_str (group 2 g)) as [h|e]; cbn beta iota in H;
      [|discriminate].
    eapply pass_or_fail_not_nil; exact H.
  - inversion H. discriminate.
  - inversion H. discriminate.
  - inversion H. discriminate.
  - inversion H. discriminate.
  - inversion H. discriminate.
  - inversion H. discriminate.
  - inversion H. discriminate.
  - inversion H. discriminate.
  - unfold handle_setvar in H.
    destruct (re_match setvar_re line) eqn:Em; [|inversion H; discriminate].
    unfold try_except, bind, call, get_page, set_vars, ret in H.
    destruct (pg_evaluate E (group 2 g) (browser p)) as [[v|e] b1];
      simpl in H; inversion H; subst.
    + apply dict_of_not_nil.
    + discriminate.
Qed.

(** A line that is not skipped yields a result that is not empty, unless
    the step raises. *)
Lemma execute_step_not_nil (line : string) (save_snapshots : bool)
    (p p' : Page B) (o : option dict) :
  is_skipped line = false ->
  execute_step E line save_snapshots p = (Ok o, p') ->
  exists d, o = Some d /\ d <> [].
Proof.
  intros Hs H. unfold execute_step in H. rewrite Hs in H.
  destruct (split line) as [|cmd rest]; [discriminate|].
  destruct (lookup cmd (dispatcher E)) as [h|] eqn:El.
  - unfold bind, ret in H.
    destruct (h line p) as [[d|e] p1] eqn:Eh; [|discriminate].
    inversion H; subst. exists d. split; [reflexivity|].
    eapply handler_not_nil; eassumption.
  - destruct (String.eqb cmd "Assert").
    + unfold bind, ret in H.
      destruct (handle_assert E _ save_snapshots p) as [[d|e] p1] eqn:Eh;
        [|discriminate].
      inversion H; subst. exists d. split; [reflexivity|].
      eapply assert_loop_not_nil. exact Eh.
    + destruct (negb (mem cmd SUPPORTED_COMMANDS));
        inversion H; eexists; (split; [reflexivity | discriminate]).
Qed.

(** Once Tags: lines are set apart, the loop of [run_device] skips the
    lines that [execute_step] skips. *)
Lemma run_lines_skip_cond (line : string) :
  startswith "Tags:" line = false ->
  String.eqb line "" || startswith "Test:" line || String.eqb line "End"
  || startswith "#" line
  = is_skipped line.
Proof.
  intros Ht. unfold is_skipped. rewrite Ht.
  destruct (String.eqb line ""), (startswith "Test:" line),
    (String.eqb line "End"), (startswith "#" line); reflexivity.
Qed.

Lemma run_lines_tags (save_snapshots : bool) (lines : list string) :
  forall (tags : list string) (results : list dict) (p p' : Page B)
         (out : list dict),
    run_lines E lines tags save_snapshots results p = (Ok out, p') ->
    map (dict_get "tags") out
    = (map (dict_get "tags") results
       ++ map tags_value (active_tags lines tags))%list.
Proof.
  induction lines as [|raw lines IH]; intros tags results p p' out H.
  - simpl in H. inversion H; subst. simpl. now rewrite app_nil_r.
  - cbn [run_lines] in H. cbn [active_tags].
    unfold is_step_line, is_tags_line, tags_of_line.
    destruct (startswith "Tags:" (strip raw)) eqn:Et.
    + apply IH in H. exact H.
    + rewrite (run_lines_skip_cond _ Et) in H.
      destruct (is_skipped (strip raw)) eqn:Es; simpl negb; cbv iota.
      * apply IH in H. exact H.
      * simpl andb. cbv iota. unfold bind in H.
        destruct (execute_step E (strip raw) save_snapshots p)
          as [[o|e] p1] eqn:Ex; [|discriminate].
        destruct (execute_step_not_nil _ _ _ _ _ Es Ex) as [d [-> Hd]].
        rewrite (dict_truthy_not_nil d Hd) in H.
        apply IH in H. rewrite H, map_app. simpl.
        rewrite dict_get_set_same. unfold tags_value.
        now rewrite <- app_assoc.
Qed.

(** After a Tags: line, the steps up to the next Tags: line all run under
    the words of that line. *)
Lemma active_tags_segment (tagline : string) (seg rest : list string)
    (tags : list string) :
  is_tags_line tagline = true ->
  forallb (fun l => negb (is_tags_line l)) seg = true ->
  active_tags (tagline :: seg ++ rest) tags
  = (repeat (tags_of_line tagline) (List.length (filter is_step_line seg))
     ++ active_tags rest (tags_of_line tagline))%list.
Proof.
  intros Ht Hseg. cbn [active_tags]. rewrite Ht.
  generalize (tags_of_line tagline) as t. intros t.
  induction seg as [|l seg IH]; simpl; [reflexivity|].
  simpl in Hseg. apply andb_true_iff in Hseg as [Hl Hseg].
  apply negb_true_iff in Hl. rewrite Hl.
  destruct (is_step_line l); simpl; rewrite (IH Hseg); reflexivity.
Qed.

(** C7.  In a device run that returns, the results are stamped, in order,
    with the tag sets active at their steps: the n-th result carries the
    tag set under which the n-th step of the script ran.  A Tags: line
    replaces the active tag set by its words for all the steps up to the
    next Tags: line or the end of the script. *)
Theorem results_stamped_with_active_tags
    (content device : string) (vars_ : list (string * string))
    (save_snapshots : bool) (p p' : Page B) (dev : string) (results : list dict) :
  run_device E content device vars_ save_snapshots p = (Ok (dev, results), p') ->
  map (dict_get "tags") results
  = map tags_value (active_tags (splitlines (substitute vars_ content)) [])
  /\ (forall (tagline : string) (seg rest : list string) (tags : list string),
        is_tags_line tagline = true ->
        forallb (fun l => negb (is_tags_line l)) seg = true ->
        active_tags (tagline :: seg ++ rest) tags
        = (repeat (tags_of_line tagline) (List.length (filter is_step_line seg))
           ++ active_tags rest (tags_of_line tagline))%list).
Proof.
  intros H. split; [|exact active_tags_segment].
  unfold run_device, bind, ret in H.
  destruct (run_lines E (splitlines (substitute vars_ content)) []
              save_snapshots [] p) as [[out|e] p1] eqn:Er; [|discriminate].
  inversion H; subst. apply run_lines_tags in Er. exact Er.
Qed.

End Tags.

(** The script of the specification: three steps after Tags: smoke
    regression, two after Tags: extended. *)
Lemma results_stamped_with_active_tags_witness :
  map (dict_get "tags")
    (results_of (run_device demo tagged_script "desktop" [] false new_page))
  = [ tags_value ["smoke"; "regression"]; tags_value ["smoke"; "regression"];
      tags_value ["smoke"; "regression"];
      tags_value ["extended"]; tags_value ["extended"] ].
Proof.
  exact (proj1 (results_stamped_with_active_tags demo tagged_script "desktop"
                  [] false new_page _ _ _ eq_refl)).
Defined.

(** ** Substitution of the declared variables *)

Module Subst.
Import StrFacts.

#[local] Arguments startswith : simpl never.

Lemma replace_go_skip (old new x s : string) :
  replace_go old new (length x) (x ++ s) = replace_go old new 0 s.
Proof. induction x as [|c x IH]; simpl; [reflexivity | exact IH]. Qed.

(** An occurrence at the head is replaced. *)
Lemma replace_head (old new s : string) :
  old <> "" -> replace old new (old ++ s) = new ++ replace old new s.
Proof.
  intros Hne. destruct old as [|c old]; [congruence|].
  unfold replace. cbn [append replace_go].
  change (String c (old ++ s)) with (String c old ++ s).
  rewrite startswith_append.
  replace (length (String c old) - 1) with (length old) by (simpl; lia).
  now rewrite replace_go_skip.
Qed.

(** A character where no occurrence starts is kept. *)
Lemma replace_keep (old new : string) (c : ascii) (s : string) :
  startswith old (String c s) = false ->
  replace old new (String c s) = String c (replace old new s).
Proof. intros H. unfold replace. cbn [replace_go]. now rewrite H. Qed.

(** A variable whose placeholder does not occur leaves the text as it is. *)
Lemma replace_absent (old new s : string) :
  occurs old s = false -> replace old new s = s.
Proof.
  induction s as [|c s IH]; intros H; [reflexivity|].
  rewrite occurs_unfold in H. apply orb_false_iff in H as [Hh Ht].
  rewrite replace_keep by exact Hh. now rewrite IH.
Qed.

Lemma startswith_angle (k : string) (c : ascii) (s : string) :
  Ascii.eqb c "<" = false -> startswith ("<" ++ k ++ ">") (String c s) = false.
Proof.
  intros Hc. cbn [append]. rewrite startswith_cons.
  now rewrite Ascii.eqb_sym, Hc.
Qed.

(** Plain text holds no occurrence of a placeholder. *)
Lemma replace_plain (k new t s : string) :
  plain t = true ->
  replace ("<" ++ k ++ ">") new (t ++ s)
  = t ++ replace ("<" ++ k ++ ">") new s.
Proof.
  set (old := "<" ++ k ++ ">").
  induction t as [|c t IH]; intros Hp; [reflexivity|].
  simpl in Hp. apply andb_true_iff in Hp as [Hc Hp].
  apply negb_true_iff in Hc. unfold isangle in Hc.
  apply orb_false_iff in Hc as [Hc _].
  cbn [append]. rewrite replace_keep by (now apply startswith_angle).
  now rewrite IH.
Qed.

(** Two placeholders of plain names match only when the names are equal. *)
Lemma placeholder_names (k n r : string) :
  plain k = true -> plain n = true ->
  startswith (k ++ ">") (n ++ ">" ++ r) = true -> n = k.
Proof.
  revert n; induction k as [|c k IH]; intros n Hk Hn H.
  - destruct n as [|d n]; [reflexivity|].
    cbn [append] in H. rewrite startswith_cons in H.
    apply andb_true_iff in H as [H _]. apply Ascii.eqb_eq in H; subst d.
    discriminate.
  - destruct n as [|d n].
    + cbn [append] in H. rewrite startswith_cons in H.
      apply andb_true_iff in H as [H _]. apply Ascii.eqb_eq in H; subst c.
      discriminate.
    + cbn [append] in H. rewrite startswith_cons in H.
      apply andb_true_iff in H as [Hcd H]. apply Ascii.eqb_eq in Hcd; subst d.
      simpl in Hk, Hn.
      apply andb_true_iff in Hk as [_ Hk]. apply andb_true_iff in Hn as [_ Hn].
      f_equal. now apply IH.
Qed.

Lemma replace_render (k v : string) (ts : list token) :
  plain k = true ->
  forallb plain_token ts = true ->
  replace ("<" ++ k ++ ">") v (render ts) = render (map (pass_token k v) ts).
Proof.
  intros Hk. induction ts as [|t ts IH]; intros Hts; [reflexivity|].
  simpl in Hts. apply andb_true_iff in Hts as [Ht Hts].
  specialize (IH Hts). destruct t as [s|n]; cbn [map render render_token pass_token].
  - rewrite replace_plain by exact Ht. now rewrite IH.
  - simpl in Ht. destruct (String.eqb n k) eqn:Enk.
    + apply String.eqb_eq in Enk; subst n. cbn [render_token].
      rewrite replace_head by discriminate. now rewrite IH.
    + cbn [render_token].
      assert (Hs : startswith ("<" ++ k ++ ">")
                     (String "<" ((n ++ ">") ++ render ts)) = false).
      { cbn [append]. rewrite startswith_cons, Ascii.eqb_refl. cbn [andb].
        destruct (startswith (k ++ ">") ((n ++ ">") ++ render ts)) eqn:Es;
          [|reflexivity].
        rewrite append_assoc in Es.
        apply placeholder_names in Es; try assumption.
        subst n. now rewrite String.eqb_refl in Enk. }
      revert Hs IH. set (old := "<" ++ k ++ ">"). intros Hs IH.
      cbn [append].
      rewrite replace_keep by exact Hs.
      rewrite append_assoc.
      unfold old. rewrite replace_plain by exact Ht. fold old.
      cbn [append]. rewrite replace_keep by (now apply startswith_angle).
      rewrite IH, append_assoc. reflexivity.
Qed.

Lemma pass_token_plain (k v : string) (ts : list token) :
  plain v = true ->
  forallb plain_token ts = true ->
  forallb plain_token (map (pass_token k v) ts) = true.
Proof.
  intros Hv. induction ts as [|t ts IH]; intros H; [reflexivity|].
  simpl in H. apply andb_true_iff in H as [Ht H].
  simpl. rewrite (IH H), andb_true_r.
  destruct t as [s|n]; simpl; [exact Ht|].
  destruct (String.eqb n k); [exact Hv | exact Ht].
Qed.

Lemma expand_cons (k v : string) (vars_ : list (string * string)) (ts : list token) :
  expand vars_ (map (pass_token k v) ts) = expand ((k, v) :: vars_) ts.
Proof.
  unfold expand. rewrite map_map. apply map_ext. intros [s|n]; simpl; [reflexivity|].
  destruct (String.eqb n k); reflexivity.
Qed.

(** On a text whose angle brackets only delimit placeholders, with plain
    names and values, the passes amount to one substitution. *)
Lemma substitute_render (vars_ : list (string * string)) :
  forall ts : list token,
    forallb plain_var vars_ = true ->
    forallb plain_token ts = true ->
    substitute vars_ (render ts) = render (expand vars_ ts).
Proof.
  induction vars_ as [|[k v] vars_ IH]; intros ts Hv Hts.
  - simpl. unfold expand. rewrite map_ext with (g := fun t => t).
    + now rewrite map_id.
    + intros [s|n]; reflexivity.
  - simpl in Hv. apply andb_true_iff in Hv as [Hkv Hv].
    unfold plain_var in Hkv. simpl in Hkv. apply andb_true_iff in Hkv as [Hk Hvv].
    cbn [substitute]. rewrite replace_render by assumption.
    rewrite IH by (try assumption; now apply pass_token_plain).
    now rewrite expand_cons.
Qed.

(** *** The passes and the scan *)

Lemma expand_go_skip (vars_ : list (string * string)) (x s : string) :
  expand_go vars_ (length x) (x ++ s) = expand_go vars_ 0 s.
Proof. induction x as [|c x IH]; simpl; [reflexivity | exact IH]. Qed.

Lemma expand_found (vars_ : list (string * string)) (c : ascii) (s k v : string) :
  find_placeholder vars_ (String c s) = Some (k, v) ->
  expand_text vars_ (String c s) = v ++ expand_go vars_ (length k + 1) s.
Proof. intros H. unfold expand_text. cbn [expand_go]. now rewrite H. Qed.

Lemma expand_keep (vars_ : list (string * string)) (c : ascii) (s : string) :
  find_placeholder vars_ (String c s) = None ->
  expand_text vars_ (String c s) = String c (expand_text vars_ s).
Proof. intros H. unfold expand_text. cbn [expand_go]. now rewrite H. Qed.

Lemma expand_nil (s : string) : expand_text [] s = s.
Proof.
  induction s as [|c s IH]; [reflexivity|].
  rewrite expand_keep by reflexivity. now rewrite IH.
Qed.

Lemma find_not_lt (vars_ : list (string * string)) (c : ascii) (s : string) :
  Ascii.eqb c "<" = false -> find_placeholder vars_ (String c s) = None.
Proof.
  intros Hc. induction vars_ as [|[k v] vars_ IH]; [reflexivity|].
  cbn [find_placeholder]. now rewrite startswith_angle.
Qed.

Lemma expand_lt_free (vars_ : list (string * string)) (x s : string) :
  lt_free x = true -> expand_text vars_ (x ++ s) = x ++ expand_text vars_ s.
Proof.
  induction x as [|c x IH]; intros Hx; [reflexivity|].
  cbn in Hx. apply andb_true_iff in Hx as [Hc Hx].
  apply negb_true_iff in Hc.
  cbn [append]. rewrite expand_keep by (now apply find_not_lt).
  now rewrite IH.
Qed.

(** A pass is the scan for its one variable. *)
Lemma replace_go_scan (k v : string) (s : string) :
  forall skip, replace_go ("<" ++ k ++ ">") v skip s = expand_go [(k, v)] skip s.
Proof.
  induction s as [|c s IH]; intros skip; [reflexivity|].
  cbn [replace_go expand_go find_placeholder].
  destruct skip as [|n]; [|apply IH].
  destruct (startswith ("<" ++ k ++ ">") (String c s)).
  - f_equal. rewrite <- IH. f_equal.
    cbn [append length]. rewrite length_append. cbn [length]. lia.
  - f_equal. apply IH.
Qed.

Lemma replace_scan (k v s : string) :
  replace ("<" ++ k ++ ">") v s = expand_text [(k, v)] s.
Proof. apply replace_go_scan. Qed.

Lemma substitute_app (vars1 vars2 : list (string * string)) (content : string) :
  substitute (vars1 ++ vars2) content = substitute vars2 (substitute vars1 content).
Proof.
  revert content. induction vars1 as [|[k v] vars1 IH]; intros content;
    [reflexivity|].
  cbn [app substitute]. apply IH.
Qed.

Section Scan.

Variable P : ascii -> bool.
Hypothesis Plt : P "<" = false.
Hypothesis Pgt : P ">" = false.

Lemma span_parts (s : string) :
  s = fst (span P s) ++ snd (span P s)
  /\ all P (fst (span P s)) = true /\ run_ends P (snd (span P s)).
Proof.
  induction s as [|c s IH]; cbn [span].
  - repeat split.
  - destruct (P c) eqn:Hc.
    + destruct (span P s) as [a b]. cbn [fst snd] in *.
      destruct IH as [IH1 [IH2 IH3]]. repeat split.
      * cbn [append]. now f_equal.
      * cbn [all]. now rewrite Hc, IH2.
      * exact IH3.
    + cbn [fst snd append all run_ends]. repeat split. exact Hc.
Qed.

Lemma span_app (w t : string) :
  all P w = true -> run_ends P t -> span P (w ++ t) = (w, t).
Proof.
  induction w as [|c w IH]; intros Hw Ht.
  - cbn [append]. destruct t as [|d t]; [reflexivity|].
    cbn [span]. cbn [run_ends] in Ht. now rewrite Ht.
  - cbn [all] in Hw. apply andb_true_iff in Hw as [Hc Hw].
    cbn [append span]. rewrite Hc, IH by assumption. reflexivity.
Qed.

Lemma name_lt_free (w : string) : all P w = true -> lt_free w = true.
Proof.
  induction w as [|c w IH]; intros Hw; [reflexivity|].
  cbn [all] in Hw. apply andb_true_iff in Hw as [Hc Hw].
  unfold lt_free. cbn [all]. fold (lt_free w). rewrite IH by exact Hw.
  destruct (Ascii.eqb c "<") eqn:E; [|reflexivity].
  apply Ascii.eqb_eq in E; subst c. congruence.
Qed.

(** A placeholder stands at a [<] exactly when its name is the run of name
    characters that follows and a [>] ends the run. *)
Lemma placeholder_here (k w t : string) :
  all P k = true -> all P w = true -> run_ends P t ->
  startswith (k ++ ">") (w ++ t) = String.eqb k w && startswith ">" t.
Proof.
  revert w; induction k as [|c k IH]; intros w Hk Hw Ht.
  - destruct w as [|d w]; [reflexivity|].
    cbn [append String.eqb andb]. rewrite startswith_cons.
    cbn [all] in Hw. apply andb_true_iff in Hw as [Hd _].
    destruct (Ascii.eqb ">" d) eqn:E; [|reflexivity].
    apply Ascii.eqb_eq in E; subst d. congruence.
  - cbn [all] in Hk. apply andb_true_iff in Hk as [Hc Hk].
    destruct w as [|d w].
    + cbn [append String.eqb andb]. destruct t as [|d t]; [reflexivity|].
      rewrite startswith_cons. cbn [run_ends] in Ht.
      destruct (Ascii.eqb c d) eqn:E; [|reflexivity].
      apply Ascii.eqb_eq in E; subst d. congruence.
    + cbn [all] in Hw. apply andb_true_iff in Hw as [_ Hw].
      cbn [append String.eqb]. rewrite startswith_cons.
      rewrite IH by assumption.
      destruct (Ascii.eqb c d); reflexivity.
Qed.

Lemma find_here (vars_ : list (string * string)) (w t : string) :
  forallb (fun kv => all P (fst kv)) vars_ = true ->
  all P w = true -> run_ends P t ->
  find_placeholder vars_ (String "<" (w ++ t))
  = if startswith ">" t
    then option_map (fun v => (w, v)) (declared w vars_)
    else None.
Proof.
  intros Hv Hw Ht. induction vars_ as [|[k v] vars_ IH].
  - cbn. now destruct (startswith ">" t).
  - cbn [forallb fst] in Hv. apply andb_true_iff in Hv as [Hk Hv].
    cbn [find_placeholder declared append].
    rewrite startswith_cons, Ascii.eqb_refl. cbn [andb].
    rewrite placeholder_here by assumption.
    rewrite (String.eqb_sym w k).
    destruct (String.eqb k w) eqn:E; cbn [andb].
    + apply String.eqb_eq in E; subst w.
      destruct (startswith ">" t) eqn:Et; [reflexivity|].
      now apply IH.
    + now apply IH.
Qed.

(** The scan at a [<]. *)
Lemma expand_bracket (vars_ : list (string * string)) (w t : string) :
  forallb (fun kv => all P (fst kv)) vars_ = true ->
  all P w = true -> run_ends P t ->
  expand_text vars_ (String "<" (w ++ t))
  = match (if startswith ">" t then declared w vars_ else None) with
    | Some v => v ++ expand_text vars_ (drop 1 t)
    | None => String "<" (w ++ expand_text vars_ t)
    end.
Proof.
  intros Hv Hw Ht.
  pose proof (find_here vars_ w t Hv Hw Ht) as Hf.
  destruct (startswith ">" t) eqn:Et.
  - destruct (declared w vars_) as [v|]; cbn [option_map] in Hf.
    + rewrite (expand_found _ _ _ _ _ Hf).
      destruct t as [|d t]; [discriminate|].
      rewrite startswith_cons in Et. apply andb_true_iff in Et as [Ed _].
      apply Ascii.eqb_eq in Ed; subst d. cbn [drop].
      f_equal.
      change (w ++ String ">" t) with (w ++ (">" ++ t)).
      rewrite <- append_assoc.
      replace (length w + 1) with (length (w ++ ">"))
        by (rewrite length_append; reflexivity).
      apply expand_go_skip.
    + rewrite (expand_keep _ _ _ Hf).
      now rewrite expand_lt_free by (now apply name_lt_free).
  - rewrite (expand_keep _ _ _ Hf).
    now rewrite expand_lt_free by (now apply name_lt_free).
Qed.

Lemma guarded_lt_free (x s : string) :
  lt_free x = true -> guarded P (x ++ s) = guarded P s.
Proof.
  induction x as [|c x IH]; intros Hx; [reflexivity|].
  cbn in Hx. apply andb_true_iff in Hx as [Hc Hx].
  apply negb_true_iff in Hc.
  cbn [append guarded]. rewrite Hc. cbn [andb]. now apply IH.
Qed.

(** One pass, on a guarded text: the text stays guarded, and the scan for
    the variables declared after it, on the text the pass leaves, is the
    scan for all of them. *)
Lemma pass_then_scan (k v : string) (vars_ : list (string * string)) :
  all P k = true -> lt_free v = true ->
  forallb (fun kv => all P (fst kv)) vars_ = true ->
  forall (n : nat) (c : string),
    length c <= n ->
    guarded P c = true ->
    guarded P (replace ("<" ++ k ++ ">") v c) = true
    /\ expand_text vars_ (replace ("<" ++ k ++ ">") v c)
       = expand_text ((k, v) :: vars_) c.
Proof.
  intros Hk Hv Hvars.
  assert (Hall : forallb (fun kv => all P (fst kv)) ((k, v) :: vars_) = true)
    by (cbn [forallb fst]; now rewrite Hk, Hvars).
  assert (Hone : forallb (fun kv => all P (fst kv)) [(k, v)] = true)
    by (cbn [forallb fst]; now rewrite Hk).
  induction n as [|n IH]; intros c Hlen Hg.
  { destruct c; [|cbn in Hlen; lia]. split; reflexivity. }
  destruct c as [|c0 s]; [split; reflexivity|].
  cbn [length] in Hlen.
  cbn [guarded] in Hg. apply andb_true_iff in Hg as [Hc Hg].
  destruct (Ascii.eqb c0 "<") eqn:E0.
  - apply Ascii.eqb_eq in E0; subst c0.
    destruct (span_parts s) as [Hs [Hw Ht]].
    unfold closes in Hc.
    destruct (span P s) as [w t]. cbn [fst snd] in *. subst s.
    rewrite guarded_lt_free in Hg by (now apply name_lt_free).
    assert (Hlt : length t <= n) by (rewrite length_append in Hlen; lia).
    rewrite replace_scan.
    rewrite (expand_bracket [(k, v)] w t Hone Hw Ht).
    rewrite (expand_bracket ((k, v) :: vars_) w t Hall Hw Ht).
    rewrite <- !replace_scan.
    cbn [declared]. rewrite (String.eqb_sym w k).
    destruct t as [|d t].
    + (* the text ends after the run *)
      rewrite startswith_empty.
      change (replace ("<" ++ k ++ ">") v "") with "".
      split.
      * cbn [guarded]. rewrite Ascii.eqb_refl.
        rewrite guarded_lt_free by (now apply name_lt_free).
        unfold closes. rewrite span_app by (exact Hw || exact I).
        reflexivity.
      * rewrite (expand_bracket vars_ w "" Hvars Hw I).
        rewrite startswith_empty. reflexivity.
    + apply negb_true_iff in Hc. cbn [run_ends] in Ht.
      assert (Hkeep : replace ("<" ++ k ++ ">") v (String d t)
                      = String d (replace ("<" ++ k ++ ">") v t))
        by (apply replace_keep; now apply startswith_angle).
      cbn [guarded] in Hg. rewrite Hc in Hg. cbn [andb] in Hg.
      assert (Hlt' : length t <= n) by (cbn [length] in Hlt; lia).
      destruct (IH t Hlt' Hg) as [IHg IHe].
      rewrite startswith_cons, startswith_nil, andb_true_r.
      destruct (Ascii.eqb ">" d) eqn:Ed.
      * apply Ascii.eqb_eq in Ed; subst d. cbn [drop].
        destruct (String.eqb k w) eqn:Ekw.
        -- (* the placeholder of the pass *)
           split.
           ++ rewrite guarded_lt_free by exact Hv. exact IHg.
           ++ rewrite expand_lt_free by exact Hv. now rewrite IHe.
        -- (* the placeholder of another name *)
           rewrite Hkeep. split.
           ++ cbn [guarded]. rewrite Ascii.eqb_refl.
              rewrite guarded_lt_free by (now apply name_lt_free).
              unfold closes. rewrite span_app by (exact Hw || exact Pgt).
              cbn [snd guarded]. now rewrite IHg.
           ++ rewrite (expand_bracket vars_ w
                         (String ">" (replace ("<" ++ k ++ ">") v t))
                         Hvars Hw Pgt).
              rewrite startswith_cons, Ascii.eqb_refl, startswith_nil.
              cbn [andb drop].
              destruct (declared w vars_) as [v'|]; [now rewrite IHe|].
              rewrite <- Hkeep.
              destruct (IH (String ">" t) Hlt) as [_ IHe'].
              { cbn [guarded]. exact Hg. }
              now rewrite IHe'.
      * (* no placeholder here *)
        destruct (IH (String d t) Hlt) as [IHg' IHe'].
        { cbn [guarded]. now rewrite Hc, Hg. }
        split.
        -- cbn [guarded]. rewrite Ascii.eqb_refl.
           rewrite guarded_lt_free by (now apply name_lt_free).
           rewrite IHg', andb_true_r.
           rewrite Hkeep.
           unfold closes. rewrite span_app by (exact Hw || exact Ht).
           cbn [snd]. now rewrite Hc.
        -- rewrite Hkeep in *.
           rewrite (expand_bracket vars_ w
                      (String d (replace ("<" ++ k ++ ">") v t))
                      Hvars Hw Ht).
           rewrite startswith_cons, Ed. cbn [andb].
           now rewrite IHe'.
  - (* a character other than [<] *)
    assert (Hlt : length s <= n) by lia.
    destruct (IH s Hlt Hg) as [IHg IHe].
    rewrite replace_keep by (now apply startswith_angle).
    split.
    + cbn [guarded]. now rewrite E0, IHg.
    + rewrite !expand_keep by (now apply find_not_lt).
      now rewrite IHe.
Qed.

Lemma var_ok_names (vars_ : list (string * string)) :
  forallb (var_ok P) vars_ = true ->
  forallb (fun kv => all P (fst kv)) vars_ = true.
Proof.
  induction vars_ as [|kv vars_ IH]; intros H; [reflexivity|].
  cbn [forallb] in *. apply andb_true_iff in H as [Hkv H].
  unfold var_ok in Hkv. apply andb_true_iff in Hkv as [Hk _].
  now rewrite Hk, IH.
Qed.

(** The passes, on a guarded text, amount to the scan. *)
Lemma substitute_scan (vars_ : list (string * string)) :
  forall content : string,
    forallb (var_ok P) vars_ = true ->
    guarded P content = true ->
    substitute vars_ content = expand_text vars_ content.
Proof.
  induction vars_ as [|[k v] vars_ IH]; intros content Hv Hg.
  - cbn [substitute]. now rewrite expand_nil.
  - cbn [forallb] in Hv. apply andb_true_iff in Hv as [Hkv Hv].
    unfold var_ok in Hkv. cbn [fst snd] in Hkv.
    apply andb_true_iff in Hkv as [Hk Hvv].
    destruct (pass_then_scan k v vars_ Hk Hvv (var_ok_names _ Hv)
                (length content) content (le_n _) Hg) as [Hg' He].
    cbn [substitute]. rewrite IH by assumption. exact He.
Qed.

(** A text made of tokens is guarded, and its scan works token by token. *)
Lemma render_guarded (ts : list token) :
  forallb (token_ok P) ts = true -> guarded P (render ts) = true.
Proof.
  induction ts as [|t ts IH]; intros H; [reflexivity|].
  cbn [forallb] in H. apply andb_true_iff in H as [Ht H].
  cbn [render]. destruct t as [s|n]; cbn [render_token token_ok] in *.
  - rewrite guarded_lt_free by exact Ht. now apply IH.
  - rewrite !append_assoc. cbn [append guarded]. rewrite Ascii.eqb_refl.
    rewrite guarded_lt_free by (now apply name_lt_free).
    unfold closes. rewrite span_app by (exact Ht || exact Pgt).
    cbn [snd guarded negb andb Ascii.eqb]. 
    change (Ascii.eqb ">" "<") with false. cbn. now apply IH.
Qed.

Lemma scan_render (vars_ : list (string * string)) (ts : list token) :
  forallb (fun kv => all P (fst kv)) vars_ = true ->
  forallb (token_ok P) ts = true ->
  expand_text vars_ (render ts) = render (expand vars_ ts).
Proof.
  intros Hv. induction ts as [|t ts IH]; intros H; [reflexivity|].
  cbn [forallb] in H. apply andb_true_iff in H as [Ht H].
  specialize (IH H).
  cbn [render expand map]. fold (expand vars_ ts).
  destruct t as [s|n]; cbn [render_token token_ok expand_token] in *.
  - rewrite expand_lt_free by exact Ht. now rewrite IH.
  - rewrite !append_assoc. cbn [append].
    rewrite (expand_bracket vars_ n (String ">" (render ts)) Hv Ht Pgt).
    rewrite startswith_cons, Ascii.eqb_refl, startswith_nil. cbn [andb drop].
    destruct (declared n vars_) as [v|]; cbn [render_token].
    + now rewrite IH.
    + rewrite expand_keep by (now apply find_not_lt).
      rewrite IH, !append_assoc. reflexivity.
Qed.

End Scan.

End Subst.

(** C8, as amended.  The variables are substituted one after the other, in
    the order of their declaration, each pass replacing from the left the
    occurrences of its placeholder in the text the pass before left.  Take
    for the name characters any class without the angle brackets (letters,
    digits and the underscore, say).  When every declared name is made of
    name characters, no declared value holds a [<], and no [<] of the script
    text is followed by name characters only up to another [<] (a
    comparison such as [count < <N>] or [a <= b] is allowed), the result is
    the text read once from the left with every placeholder of a declared
    name replaced by the declared value and everything else kept, a
    placeholder of an undeclared name too; on a text made of pieces without
    [<] and of placeholders this is the replacement placeholder by
    placeholder.  A pass for a variable whose placeholder does not occur in
    the text leaves the text unchanged. *)
Theorem substitution_replaces_placeholders (P : ascii -> bool) :
  P "<"%char = false -> P ">"%char = false ->
  (forall (vars_ : list (string * string)) (content : string),
      forallb (var_ok P) vars_ = true ->
      guarded P content = true ->
      substitute vars_ content = expand_text vars_ content)
  /\ (forall (vars_ : list (string * string)) (ts : list token),
         forallb (var_ok P) vars_ = true ->
         forallb (token_ok P) ts = true ->
         substitute vars_ (render ts) = render (expand vars_ ts)
         /\ expand_text vars_ (render ts) = render (expand vars_ ts))
  /\ (forall (vars1 vars2 : list (string * string)) (content : string),
         substitute (vars1 ++ vars2) content
         = substitute vars2 (substitute vars1 content))
  /\ (forall (k v content : string),
         substitute [(k, v)] content = expand_text [(k, v)] content)
  /\ (forall (k v content : string),
         occurs ("<" ++ k ++ ">") content = false ->
         replace ("<" ++ k ++ ">") v content = content).
Proof.
  intros Plt Pgt. split; [|split; [|split; [|split]]].
  - intros vars_ content. now apply Subst.substitute_scan.
  - intros vars_ ts Hv Hts.
    assert (E : expand_text vars_ (render ts) = render (expand vars_ ts))
      by (apply (Subst.scan_render P Plt Pgt); [now apply Subst.var_ok_names | exact Hts]).
    split; [|exact E].
    rewrite <- E. apply (Subst.substitute_scan P Plt Pgt); [exact Hv|].
    now apply Subst.render_guarded.
  - exact Subst.substitute_app.
  - intros k v content. apply Subst.replace_scan.
  - intros k v content. apply Subst.replace_absent.
Qed.

Lemma substitution_replaces_placeholders_witness :
  substitute [("BASE", "https://example.test/a>b"); ("N", "3"); ("LIMIT", "0.25")]
    ("Goto <BASE>/u?tab=<TAB>" ++ lf
     ++ "Assert children of " ++ q "ul" ++ " count >= <N>" ++ lf
     ++ "Assert element " ++ q "p" ++ " similar to " ++ q "a <= b"
     ++ " < <LIMIT>")
  = "Goto https://example.test/a>b/u?tab=<TAB>" ++ lf
    ++ "Assert children of " ++ q "ul" ++ " count >= 3" ++ lf
    ++ "Assert element " ++ q "p" ++ " similar to " ++ q "a <= b" ++ " < 0.25"
  /\ substitute [("BASE", "https://example.test"); ("USER", "ada")]
       (render [Text "Goto "; Placeholder "BASE"; Text "/u/"; Placeholder "USER";
                Text "?tab="; Placeholder "TAB"; Text " > "])
     = "Goto https://example.test/u/ada?tab=<TAB> > "
  /\ replace "<USER>" "ada" "Click #go" = "Click #go".
Proof.
  destruct (substitution_replaces_placeholders isword eq_refl eq_refl)
    as [Hscan [Htok [_ [_ Habsent]]]].
  split; [|split].
  - etransitivity; [apply Hscan; reflexivity | reflexivity].
  - apply (Htok [("BASE", "https://example.test"); ("USER", "ada")]
             [Text "Goto "; Placeholder "BASE"; Text "/u/"; Placeholder "USER";
              Text "?tab="; Placeholder "TAB"; Text " > "]); reflexivity.
  - apply (Habsent "USER" "ada" "Click #go"). reflexivity.
Defined.

(** C8 as stated fails: when the value of a variable holds the placeholder
    of a variable declared after it, that placeholder is substituted too,
    and the text does not end with the declared value of the first in place
    of its placeholder.  The same happens, with values that hold no angle
    bracket, when a pass completes a placeholder out of a [<] and a [>] of
    the text. *)
Lemma substitution_is_sequential :
  let vars_ := [("A", "<B>"); ("B", "x")] in
  (substitute vars_ (render [Placeholder "A"]) = "x"
   /\ render (expand vars_ [Placeholder "A"]) = "<B>"
   /\ substitute vars_ (render [Placeholder "A"])
      <> render (expand vars_ [Placeholder "A"]))
  /\ (substitute vars_ "<A>" = "x" /\ expand_text vars_ "<A>" = "<B>")
  /\ (substitute [("A", "B"); ("B", "x")] "<<A>>" = "x"
      /\ expand_text [("A", "B"); ("B", "x")] "<<A>>" = "<B>"
      /\ guarded isword "<<A>>" = false).
Proof.
  repeat split; try reflexivity. discriminate.
Qed.

(** ** Patterns and trailing text *)

Module Trailing.
Import StrFacts.

#[local] Arguments startswith : simpl never.

Lemma quotes_append (a b : string) : quotes (a ++ b) = quotes a + quotes b.
Proof.
  unfold quotes. induction a as [|c a IH]; simpl; [reflexivity|].
  rewrite IH. lia.
Qed.

Lemma rep_lazy_unfold (p : ascii -> bool) (s : string) (k : string -> option groups) :
  rep_lazy p s k
  = match k s with
    | Some g => Some g
    | None =>
        match s with
        | String c s' => if p c then rep_lazy p s' k else None
        | EmptyString => None
        end
    end.
Proof. destruct s; reflexivity. Qed.


(** A lazy repetition that matches hands the rest of the text to its
    continuation at some point. *)
Lemma rep_lazy_some (p : ascii -> bool) (k : string -> option groups) (s : string)
    (g : groups) :
  rep_lazy p s k = Some g -> exists z y, s = z ++ y /\ k y = Some g.
Proof.
  induction s as [|c s IH]; intros H; rewrite rep_lazy_unfold in H.
  - destruct (k "") eqn:E; [|discriminate]. inversion H; subst.
    exists "", "". auto.
  - destruct (k (String c s)) eqn:E.
    + inversion H; subst. exists "", (String c s). auto.
    + destruct (p c); [|discriminate].
      destruct (IH H) as [z [y [-> Hy]]].
      exists (String c z), y. auto.
Qed.

Lemma rep_greedy_some (p : ascii -> bool) (k : string -> option groups) (s : string) :
  rep_greedy p s k <> None -> exists z y, s = z ++ y /\ k y <> None.
Proof.
  induction s as [|c s IH]; intros H; simpl in H.
  - exists "", "". auto.
  - destruct (p c).
    + destruct (rep_greedy p s k) eqn:E.
      * destruct IH as [z [y [-> Hy]]]; [discriminate|].
        exists (String c z), y. auto.
      * exists "", (String c s). auto.
    + exists "", (String c s). auto.
Qed.


Section Extend.

(** The trailing text. *)
Variable t : string.



(** *** A pattern that accepts a line accepts it with trailing text *)





(** *** When the groups stay the same

    [k'] is the continuation [k] on the text with its trailing part. *)

(** A greedy repetition over characters that its continuation does not
    start with has one place to stop at. *)
Lemma rep_greedy_stable (p : ascii -> bool) (k k' : string -> option groups) :
  (forall s g, k s = Some g -> k' (s ++ t) = Some g) ->
  (forall c s, p c = true -> k (String c s) = None) ->
  k "" = None ->
  forall s g, rep_greedy p s k = Some g -> rep_greedy p (s ++ t) k' = Some g.
Proof.
  intros HS HD HN. induction s as [|c s IH]; intros g H; simpl in H.
  - congruence.
  - cbn [append rep_greedy]. destruct (p c) eqn:Pc.
    + destruct (rep_greedy p s k) eqn:E.
      * inversion H; subst. now rewrite (IH g eq_refl).
      * rewrite (HD c s Pc) in H. discriminate.
    + apply (HS (String c s) g H).
Qed.




(** *** Counting quotes: what a continuation needs, and what it can lack *)


Lemma needs_lit (l : string) (r : regex) (k : string -> groups -> option groups)
    (n : nat) :
  needs (fun s gs => exec r s gs k) n ->
  needs (fun s gs => exec (Cat (Lit l) r) s gs k) (quotes l + n).
Proof.
  intros Hn y gs H. cbn [exec] in H.
  destruct (strip_prefix l y) as [y'|] eqn:E; [|contradiction].
  apply strip_prefix_some in E; subst y. rewrite quotes_append.
  specialize (Hn y' gs H). lia.
Qed.


Lemma rep_greedy_needs (p : ascii -> bool) (k : string -> option groups) (n : nat) :
  (forall y, k y <> None -> n <= quotes y) ->
  forall y, rep_greedy p y k <> None -> n <= quotes y.
Proof.
  intros Hn y H. destruct (rep_greedy_some _ _ _ H) as [z [y' [-> Hy]]].
  rewrite quotes_append. specialize (Hn y' Hy). lia.
Qed.


Lemma needs_ws1 (r : regex) (k : string -> groups -> option groups) (n : nat) :
  needs (fun s gs => exec r s gs k) n ->
  needs (fun s gs => exec (Cat ws1 r) s gs k) n.
Proof.
  intros Hn y gs H. cbn [exec ws1] in H.
  destruct y as [|c y]; [contradiction|].
  destruct (isspace c) eqn:Pc; [|contradiction].
  apply (rep_greedy_needs isspace _ n) in H.
  - unfold quotes in *. cbn [count]. lia.
  - intros y0. apply Hn.
Qed.





Lemma needs_last_group :
  needs (fun s gs => exec (Cat (Grp (PlusLazy isdot)) (Lit dq)) s gs
                       (fun _ g' => Some g')) 1.
Proof.
  intros y gs H. cbn [exec] in H.
  destruct y as [|c y]; [contradiction|].
  destruct (isdot c); [|contradiction].
  destruct (rep_lazy isdot y _) as [g|] eqn:E in H; [|contradiction].
  destruct (rep_lazy_some _ _ _ _ E) as [z [y' [-> Hy]]].
  cbn beta in Hy. destruct y' as [|d y']; [discriminate|].
  unfold dq in Hy. cbn [strip_prefix] in Hy.
  destruct (Ascii.eqb quote d) eqn:Ed; [|discriminate].
  change (String c (z ++ String d y')) with (String c z ++ String d y').
  rewrite quotes_append. unfold quotes at 2. cbn [count].
  rewrite Ascii.eqb_sym, Ed. lia.
Qed.

(** *** Composing: the groups of a pattern stay the same *)

Lemma preserved_done : preserved t done done.
Proof. intros s gs g H. exact H. Qed.



Lemma preserved_star_lit (p : ascii -> bool) (c : ascii) (l : string) (r : regex)
    (k k' : string -> groups -> option groups) :
  p c = false ->
  preserved t (fun s gs => exec (Cat (Lit (String c l)) r) s gs k)
            (fun s gs => exec (Cat (Lit (String c l)) r) s gs k') ->
  preserved t (fun s gs => exec (Cat (Star p) (Cat (Lit (String c l)) r)) s gs k)
            (fun s gs => exec (Cat (Star p) (Cat (Lit (String c l)) r)) s gs k').
Proof.
  intros Pc Hp s gs g H.
  change (exec (Cat (Star p) (Cat (Lit (String c l)) r)) s gs k)
    with (exec (Star p) s gs (fun s1 g1 => exec (Cat (Lit (String c l)) r) s1 g1 k))
    in H.
  change (exec (Cat (Star p) (Cat (Lit (String c l)) r)) (s ++ t) gs k')
    with (exec (Star p) (s ++ t) gs
            (fun s1 g1 => exec (Cat (Lit (String c l)) r) s1 g1 k')).
  cbn [exec] in H |- *.
  revert H. apply rep_greedy_stable.
  - intros s1 g1. apply (Hp s1 gs g1).
  - intros d1 s1 Pd. cbn [strip_prefix].
    destruct (Ascii.eqb c d1) eqn:E; [|reflexivity].
    apply Ascii.eqb_eq in E; subst d1. congruence.
  - reflexivity.
Qed.






Lemma isspace_not_digit (c : ascii) : isspace c = true -> isdigit c = false.
Proof.
  destruct c as [[] [] [] [] [] [] [] []]; try reflexivity; discriminate.
Qed.

(** *** The patterns of the command handlers *)





End Extend.

End Trailing.

(** * What the patterns read off a well-formed line *)

Module Grammar.

Import StrFacts.

Lemma exec_lit_here (l s : string) (gs : groups)
    (k : string -> groups -> option groups) :
  exec (Lit l) (l ++ s) gs k = k s gs.
Proof. cbn [exec]. now rewrite strip_prefix_append. Qed.

Lemma exec_cat (r1 r2 : regex) (s : string) (gs : groups)
    (k : string -> groups -> option groups) :
  exec (Cat r1 r2) s gs k = exec r1 s gs (fun s' gs' => exec r2 s' gs' k).
Proof. reflexivity. Qed.

(** A greedy run stops where the class stops, when the rest matches. *)
Lemma rep_greedy_run (p : ascii -> bool) (k : string -> option groups)
    (w r : string) (g : groups) :
  all p w = true -> stops p r = true -> k r = Some g ->
  rep_greedy p (w ++ r) k = Some g.
Proof.
  intros Hw Hr Hk. induction w as [|c w IH].
  - cbn [append]. destruct r as [|d r]; [exact Hk|].
    cbn [rep_greedy]. cbn in Hr. apply negb_true_iff in Hr. now rewrite Hr.
  - cbn [all] in Hw. apply andb_true_iff in Hw as [Hc Hw].
    cbn [append rep_greedy]. rewrite Hc, (IH Hw). reflexivity.
Qed.

Lemma exec_plus_run (p : ascii -> bool) (w r : string) (gs g : groups)
    (k : string -> groups -> option groups) :
  w <> "" -> all p w = true -> stops p r = true -> k r gs = Some g ->
  exec (Plus p) (w ++ r) gs k = Some g.
Proof.
  intros Hne Hw Hr Hk. destruct w as [|c w]; [congruence|].
  cbn [all] in Hw. apply andb_true_iff in Hw as [Hc Hw].
  cbn [append exec]. rewrite Hc.
  now apply (rep_greedy_run p (fun s'' => k s'' gs)).
Qed.

Lemma exec_star_run (p : ascii -> bool) (w r : string) (gs g : groups)
    (k : string -> groups -> option groups) :
  all p w = true -> stops p r = true -> k r gs = Some g ->
  exec (Star p) (w ++ r) gs k = Some g.
Proof.
  intros Hw Hr Hk. cbn [exec].
  now apply (rep_greedy_run p (fun s'' => k s'' gs)).
Qed.

Lemma consumed_here (a b : string) : consumed (a ++ b) b = a.
Proof.
  unfold consumed. rewrite length_append.
  replace (length a + length b - length b) with (length a) by lia.
  induction a as [|c a IH]; cbn [append length take].
  - destruct b; reflexivity.
  - now rewrite IH.
Qed.

Lemma exec_grp_plus_run (p : ascii -> bool) (w r : string) (gs g : groups)
    (k : string -> groups -> option groups) :
  w <> "" -> all p w = true -> stops p r = true ->
  k r (gs ++ [w])%list = Some g ->
  exec (Grp (Plus p)) (w ++ r) gs k = Some g.
Proof.
  intros Hne Hw Hr Hk. cbn [exec]. fold (exec (Plus p)).
  apply (exec_plus_run p w r gs g
           (fun s' gs' => k s' (gs' ++ [consumed (w ++ r) s'])%list)); auto.
  now rewrite consumed_here.
Qed.

(** A lazy run goes on to the first place where the rest matches. *)
Lemma rep_lazy_run (p : ascii -> bool) (k : string -> option groups)
    (u r : string) (g : groups) :
  all p u = true ->
  (forall u1 c u2, u = u1 ++ String c u2 -> k (String c u2 ++ r) = None) ->
  k r = Some g ->
  rep_lazy p (u ++ r) k = Some g.
Proof.
  intros Hu Hno Hk. induction u as [|c u IH].
  - cbn [append]. destruct r; cbn [rep_lazy]; now rewrite Hk.
  - cbn [all] in Hu. apply andb_true_iff in Hu as [Hc Hu].
    cbn [append rep_lazy].
    rewrite (Hno "" c u eq_refl : k (String c (u ++ r)) = None), Hc.
    apply IH; [exact Hu|]. intros u1 d u2 ->.
    apply (Hno (String c u1) d u2). reflexivity.
Qed.

Lemma all_split (p : ascii -> bool) (u1 : string) (c : ascii) (u2 : string) :
  all p (u1 ++ String c u2) = true -> p c = true.
Proof.
  induction u1 as [|d u1 IH]; cbn [append all]; intros H;
    apply andb_true_iff in H as [H1 H2]; auto.
Qed.

(** A quoted argument is read up to its closing quote. *)
Lemma exec_quoted_here (arg rest : string) (gs g : groups)
    (k : string -> groups -> option groups) :
  is_argument arg = true ->
  k rest (gs ++ [arg])%list = Some g ->
  exec quoted (dq ++ arg ++ dq ++ rest) gs k = Some g.
Proof.
  intros Ha Hk. destruct arg as [|c u]; [discriminate|].
  cbn [is_argument] in Ha.
  apply andb_true_iff in Ha as [Ha Hq]. apply andb_true_iff in Ha as [Hc Hu].
  unfold quoted. cbn [cat]. cbn [exec]. rewrite strip_prefix_append.
  cbn [append]. rewrite Hc.
  set (s := String c (u ++ dq ++ rest)).
  apply rep_lazy_run; [exact Hu| |].
  - intros u1 d u2 ->. apply all_split in Hq.
    unfold notquote in Hq. apply negb_true_iff in Hq.
    unfold dq. cbn [append strip_prefix].
    rewrite Ascii.eqb_sym, Hq. reflexivity.
  - rewrite strip_prefix_append.
    change s with (String c u ++ (dq ++ rest)).
    rewrite (consumed_here (String c u) (dq ++ rest)).
    replace (consumed (dq ++ rest) rest) with dq in * by
      (symmetry; apply consumed_here).
    exact Hk.
Qed.

Lemma separator_parts (w : string) :
  is_separator w = true -> w <> "" /\ all isspace w = true.
Proof.
  unfold is_separator. intros H. apply andb_true_iff in H as [H1 H2].
  split; [|exact H2]. intros ->. discriminate.
Qed.

Lemma number_parts (w : string) :
  is_number w = true -> w <> "" /\ all isdigit w = true.
Proof.
  unfold is_number. intros H. apply andb_true_iff in H as [H1 H2].
  split; [|exact H2]. intros ->. discriminate.
Qed.

Lemma exec_ws1_here (w r : string) (gs g : groups)
    (k : string -> groups -> option groups) :
  is_separator w = true -> stops isspace r = true -> k r gs = Some g ->
  exec ws1 (w ++ r) gs k = Some g.
Proof.
  intros Hw Hr Hk. destruct (separator_parts w Hw).
  now apply exec_plus_run.
Qed.

Lemma stops_dq (r : string) : stops isspace (dq ++ r) = true.
Proof. reflexivity. Qed.

(** Keyword, white space, a quoted argument. *)
Lemma parse_one_quoted (kw w arg rest : string) :
  is_separator w = true -> is_argument arg = true ->
  re_match (cat [Lit kw; ws1; quoted]) (kw ++ w ++ dq ++ arg ++ dq ++ rest)
  = Some [arg].
Proof.
  intros Hw Ha. unfold re_match. cbn [cat]. cbn [exec].
  rewrite strip_prefix_append. fold (exec ws1). fold (exec quoted).
  apply (exec_ws1_here w _ [] [arg] (fun s' gs' => exec quoted s' gs' _));
    [exact Hw | apply stops_dq |].
  now apply exec_quoted_here.
Qed.

(** Keyword, white space, a quoted argument, white space, a linking word,
    white space, a second quoted argument. *)
Lemma parse_two_quoted (kw w1 a1 w2 link w3 a2 rest : string) :
  is_separator w1 = true -> is_argument a1 = true ->
  is_separator w2 = true -> link <> "" -> stops isspace link = true ->
  is_separator w3 = true -> is_argument a2 = true ->
  re_match (cat [Lit kw; ws1; quoted; ws1; Lit link; ws1; quoted])
    (kw ++ w1 ++ dq ++ a1 ++ dq ++ w2 ++ link ++ w3 ++ dq ++ a2 ++ dq ++ rest)
  = Some [a1; a2].
Proof.
  intros H1 Ha1 H2 Hne Hl H3 Ha2. unfold re_match. cbn [cat]. cbn [exec].
  rewrite strip_prefix_append. fold (exec ws1). fold (exec quoted).
  apply (exec_ws1_here w1 _ [] [a1; a2]
           (fun s' gs' => exec quoted s' gs' _));
    [exact H1 | apply stops_dq |].
  apply exec_quoted_here; [exact Ha1|]. cbn [app].
  apply (exec_ws1_here w2 _ [a1] [a1; a2]); [exact H2| |].
  - destruct link; [congruence | exact Hl].
  - rewrite strip_prefix_append.
    apply (exec_ws1_here w3 _ [a1] [a1; a2]
             (fun s' gs' => exec quoted s' gs' _));
      [exact H3 | apply stops_dq |].
    now apply exec_quoted_here.
Qed.



(** [int] on a numeral, by the number of its digits. *)
Lemma int_of_str_short (s : string) :
  (Z.of_nat (length s) <= 4300)%Z -> int_of_str s = Ok (to_int s).
Proof.
  intros H. unfold int_of_str.
  destruct (4300 <? Z.of_nat (length s))%Z eqn:E; [|reflexivity].
  apply Z.ltb_lt in E. lia.
Qed.

Lemma int_of_str_long (s : string) :
  (4300 < Z.of_nat (length s))%Z ->
  int_of_str s = Raise (ValueError (int_limit_message s)).
Proof.
  intros H. unfold int_of_str. apply Z.ltb_lt in H. now rewrite H.
Qed.

End Grammar.
(** ** Expressions that no matcher of [handle_assert] takes *)

Section Unknown.

Context {B : Type} (E : Env B).

Import StrFacts.

Lemma no_match_without_opening (l : string) (r : regex) (s : string) :
  startswith l s = false -> re_match (Cat (Lit l) r) s = None.
Proof.
  intros Hs. unfold re_match. cbn [exec].
  destruct (strip_prefix l s) as [rest|] eqn:Ep; [|reflexivity].
  apply strip_prefix_some in Ep. subst s.
  now rewrite startswith_append in Hs.
Qed.

(** An expression that opens with none of the words of the matchers and is
    not the canonical expression goes through the twelve of them. *)
Lemma handle_assert_unknown
    (expr : string) (save_snapshots : bool) (p : Page B) :
  forallb (fun w => negb (startswith w expr)) assertion_openings = true ->
  strip expr <> "canonical href equals page.url" ->
  handle_assert E expr save_snapshots p
  = (Ok (syntax_error ("Assert " ++ expr) ("Unknown assertion: " ++ expr)), p).
Proof.
  intros Hop Hcan. unfold assertion_openings in Hop. cbn [forallb] in Hop.
  repeat (apply andb_true_iff in Hop as [?H Hop]).
  repeat match goal with
         | H : negb _ = true |- _ => apply negb_true_iff in H
         end.
  apply String.eqb_neq in Hcan.
  unfold handle_assert, assertion_handlers.
  rewrite (assert_loop_no_match E _ _ _ _ _ p p);
    [|unfold assert_status, status_re; cbn [cat];
      now rewrite no_match_without_opening].
  rewrite (assert_loop_no_match E _ _ _ _ _ p p);
    [|unfold assert_url, url_re; cbn [cat];
      now rewrite no_match_without_opening].
  rewrite (assert_loop_no_match E _ _ _ _ _ p p);
    [|unfold assert_exists, exists_re; cbn [cat];
      now rewrite no_match_without_opening].
  rewrite (assert_loop_no_match E _ _ _ _ _ p p);
    [|unfold assert_visible, visible_re; cbn [cat];
      now rewrite no_match_without_opening].
  rewrite (assert_loop_no_match E _ _ _ _ _ p p);
    [|unfold assert_similar, similar_re; cbn [cat];
      now rewrite no_match_without_opening].
  rewrite (assert_loop_no_match E _ _ _ _ _ p p);
    [|unfold assert_children, children_re; cbn [cat];
      now rewrite no_match_without_opening].
  rewrite (assert_loop_no_match E _ _ _ _ _ p p);
    [|unfold assert_cls, cls_re; cbn [cat];
      now rewrite no_match_without_opening].
  rewrite (assert_loop_no_match E _ _ _ _ _ p p);
    [|unfold assert_attribute_regex, attribute_re; cbn [cat];
      now rewrite no_match_without_opening].
  rewrite (assert_loop_no_match E _ _ _ _ _ p p);
    [|unfold assert_regex_each, regex_each_re; cbn [cat];
      now rewrite no_match_without_opening].
  rewrite (assert_loop_no_match E _ _ _ _ _ p p);
    [|unfold assert_canonical; now rewrite Hcan].
  rewrite (assert_loop_no_match E _ _ _ _ _ p p);
    [|unfold assert_language, language_re; cbn [cat];
      now rewrite no_match_without_opening].
  rewrite (assert_loop_no_match E _ _ _ _ _ p p);
    [|unfold assert_no_duplicates, no_duplicates_re; cbn [cat];
      now rewrite no_match_without_opening].
  reflexivity.
Qed.

End Unknown.


(** ** Command handlers and trailing text *)

Section TrailingText.

Context {B : Type} (E : Env B).

Import StrFacts Trailing.











End TrailingText.



(** ** difflib *)

Module DifflibFacts.
Import Difflib.

(** *** The dict of [__chain_b] *)

Lemma b2j_get_append (c d : ascii) (i : nat) (m : b2j_t) :
  b2j_get c (b2j_append d i m)
  = if Ascii.eqb c d then (b2j_get c m ++ [i])%list else b2j_get c m.
Proof.
  induction m as [|[c' l] m IH]; simpl.
  - destruct (Ascii.eqb c d); reflexivity.
  - destruct (Ascii.eqb d c') eqn:Edc; simpl.
    + apply Ascii.eqb_eq in Edc; subst c'.
      destruct (Ascii.eqb c d); reflexivity.
    + destruct (Ascii.eqb c c') eqn:Ecc; [|exact IH].
      apply Ascii.eqb_eq in Ecc; subst c'.
      rewrite Ascii.eqb_sym in Edc. now rewrite Edc.
Qed.

Lemma chain_loop_get (c : ascii) (b : string) :
  forall (i : nat) (m : b2j_t),
    b2j_get c (chain_loop i b m) = (b2j_get c m ++ indices_from i c b)%list.
Proof.
  induction b as [|d b IH]; intros i m; simpl.
  - now rewrite app_nil_r.
  - rewrite IH, b2j_get_append.
    destruct (Ascii.eqb c d); [|reflexivity].
    now rewrite <- app_assoc.
Qed.

Lemma b2j_append_keys (d : ascii) (i : nat) (m : b2j_t) (c : ascii) :
  In c (map fst (b2j_append d i m)) <-> c = d \/ In c (map fst m).
Proof.
  induction m as [|[c' l] m IH]; simpl.
  - intuition congruence.
  - destruct (Ascii.eqb d c') eqn:E; simpl.
    + apply Ascii.eqb_eq in E; subst c'. intuition congruence.
    + rewrite IH. intuition congruence.
Qed.

Lemma b2j_append_nodup (d : ascii) (i : nat) (m : b2j_t) :
  NoDup (map fst m) -> NoDup (map fst (b2j_append d i m)).
Proof.
  induction m as [|[c' l] m IH]; intros H; simpl.
  - constructor; [intros [] | constructor].
  - inversion H as [|x xs Hx Hxs]; subst.
    destruct (Ascii.eqb d c') eqn:E; simpl.
    + constructor; assumption.
    + constructor; [|now apply IH].
      rewrite b2j_append_keys. intros [->|Hin]; [|contradiction].
      now rewrite Ascii.eqb_refl in E.
Qed.

Lemma chain_loop_nodup (b : string) :
  forall (i : nat) (m : b2j_t),
    NoDup (map fst m) -> NoDup (map fst (chain_loop i b m)).
Proof.
  induction b as [|d b IH]; intros i m H; simpl; [exact H|].
  apply IH. now apply b2j_append_nodup.
Qed.

Lemma b2j_get_absent (c : ascii) (m : b2j_t) :
  ~ In c (map fst m) -> b2j_get c m = [].
Proof.
  induction m as [|[c' l] m IH]; intros H; simpl; [reflexivity|].
  destruct (Ascii.eqb c c') eqn:E.
  - apply Ascii.eqb_eq in E; subst c'. exfalso. apply H. now left.
  - apply IH. intros Hin. apply H. now right.
Qed.

Lemma b2j_get_filter (f : list nat -> bool) (c : ascii) (m : b2j_t) :
  NoDup (map fst m) ->
  b2j_get c (filter (fun kv => f (snd kv)) m)
  = if f (b2j_get c m) then b2j_get c m else [].
Proof.
  induction m as [|[c' l] m IH]; intros H; simpl.
  - destruct (f []); reflexivity.
  - inversion H as [|x xs Hx Hxs]; subst.
    destruct (Ascii.eqb c c') eqn:E.
    + apply Ascii.eqb_eq in E; subst c'.
      destruct (f l) eqn:El; simpl.
      * now rewrite Ascii.eqb_refl.
      * apply b2j_get_absent. intros Hin. apply Hx.
        apply in_map_iff in Hin as [[k v] [Hk Hin]].
        apply filter_In in Hin as [Hin _].
        simpl in Hk; subst k. apply in_map_iff. exists (c, v). auto.
    + destruct (f l); simpl; [rewrite E|]; now apply IH.
Qed.

(** What [b2j] holds for an element: its indices in [b], or nothing when
    the element is popular. *)
Lemma chain_b_get (c : ascii) (b : string) :
  b2j_get c (chain_b b) = if popular b c then [] else indices_from 0 c b.
Proof.
  unfold chain_b, popular.
  assert (Hg : b2j_get c (chain_loop 0 b []) = indices_from 0 c b).
  { now rewrite chain_loop_get. }
  destruct (200 <=? length b); cbn [andb]; [|exact Hg].
  cbv zeta.
  rewrite (b2j_get_filter
             (fun l => negb (length b / 100 + 1 <? List.length l))).
  - rewrite Hg.
    destruct (length b / 100 + 1 <? List.length (indices_from 0 c b));
      reflexivity.
  - apply chain_loop_nodup. constructor.
Qed.

Lemma indices_from_in (c : ascii) (b : string) :
  forall i j,
    In j (indices_from i c b) <-> i <= j /\ String.get (j - i) b = Some c.
Proof.
  induction b as [|d b IH]; intros i j; simpl.
  - split; [contradiction | intros [_ H]; discriminate].
  - assert (Hs : In j (indices_from (S i) c b)
                 <-> i < j /\ String.get (j - i) (String d b) = Some c).
    { rewrite IH. split.
      - intros [Hle Hg]. split; [lia|].
        replace (j - i) with (S (j - S i)) by lia. exact Hg.
      - intros [Hlt Hg]. split; [lia|].
        replace (j - i) with (S (j - S i)) in Hg by lia. exact Hg. }
    destruct (Ascii.eqb c d) eqn:E.
    + apply Ascii.eqb_eq in E; subst d. simpl. rewrite Hs. split.
      * intros [<-|[Hlt Hg]]; [|split; [lia | exact Hg]].
        split; [lia|]. now rewrite Nat.sub_diag.
      * intros [Hle Hg]. destruct (Nat.eq_dec i j) as [->|Hne]; [now left|].
        right. split; [lia | exact Hg].
    + rewrite Hs. split.
      * intros [Hlt Hg]. split; [lia | exact Hg].
      * intros [Hle Hg]. split; [|exact Hg].
        destruct (Nat.eq_dec i j) as [->|Hne]; [|lia].
        rewrite Nat.sub_diag in Hg. simpl in Hg. inversion Hg; subst.
        now rewrite Ascii.eqb_refl in E.
Qed.

(** The indices grow. *)
Lemma indices_from_sorted (c : ascii) (b : string) :
  forall i, StronglySorted lt (indices_from i c b).
Proof.
  induction b as [|d b IH]; intros i; simpl; [constructor|].
  destruct (Ascii.eqb c d); [|apply IH].
  constructor; [apply IH|].
  apply Forall_forall. intros j Hj. apply indices_from_in in Hj. lia.
Qed.

Lemma get_has (j : nat) (s : string) (c : ascii) :
  String.get j s = Some c -> has c s = true.
Proof.
  revert j; induction s as [|d s IH]; intros j H; [discriminate|].
  simpl. destruct j as [|j]; simpl in H.
  - inversion H; subst. now rewrite Ascii.eqb_refl.
  - rewrite (IH j H). apply orb_true_r.
Qed.

Lemma get_lt (j : nat) (s : string) (c : ascii) :
  String.get j s = Some c -> j < length s.
Proof.
  revert j; induction s as [|d s IH]; intros j H; [discriminate|].
  simpl. destruct j as [|j]; [lia|]. simpl in H. apply IH in H. lia.
Qed.

(** An element that does not occur in [b] has no index. *)
Lemma chain_b_get_absent (c : ascii) (b : string) :
  has c b = false -> b2j_get c (chain_b b) = [].
Proof.
  intros H. rewrite chain_b_get. destruct (popular b c); [reflexivity|].
  destruct (indices_from 0 c b) as [|j l] eqn:E; [reflexivity|].
  assert (Hin : In j (indices_from 0 c b)) by (rewrite E; now left).
  apply indices_from_in in Hin as [_ Hg].
  apply get_has in Hg. congruence.
Qed.

(** *** Texts with no character in common *)

Lemma outer_nothing (a : string) (b2j : b2j_t) (blo bhi : nat) (is_ : list nat) :
  (forall i c, String.get i a = Some c -> b2j_get c b2j = []) ->
  forall (j2len : j2len_t) (best : match_t),
    outer a b2j blo bhi is_ j2len best = best.
Proof.
  intros Hno. induction is_ as [|i is_ IH]; intros j2len best; simpl.
  - reflexivity.
  - destruct (String.get i a) as [c|] eqn:E.
    + rewrite (Hno i c E). simpl. apply IH.
    + simpl. apply IH.
Qed.

Lemma find_longest_match_disjoint (a b : string) :
  disjoint_chars a b ->
  find_longest_match a b (chain_b b) 0 (length a) 0 (length b) = (0, 0, 0).
Proof.
  intros Hd. unfold find_longest_match.
  rewrite outer_nothing.
  - cbn [extend_left]. rewrite Nat.sub_0_r. cbn [Nat.add].
    destruct (length a) as [|room] eqn:Ea; [reflexivity|].
    cbn [extend_right Nat.add].
    destruct (0 <? length b) eqn:Eb; [|reflexivity].
    destruct a as [|c a]; [discriminate|].
    destruct b as [|d b]; [discriminate|].
    cbn [String.get char_eqb andb].
    destruct (Ascii.eqb c d) eqn:Ecd; [|reflexivity].
    apply Ascii.eqb_eq in Ecd; subst d.
    specialize (Hd c). simpl in Hd. rewrite Ascii.eqb_refl in Hd.
    specialize (Hd eq_refl). discriminate.
  - intros i c Hg. apply chain_b_get_absent. apply Hd. eapply get_has; eassumption.
Qed.

Lemma blocks_loop_nil (a b : string) (b2j : b2j_t) (fuel : nat)
    (matching_blocks : list match_t) :
  blocks_loop a b b2j fuel [] matching_blocks = Some matching_blocks.
Proof. destruct fuel; reflexivity. Qed.

Lemma ratio_disjoint (a b : string) :
  disjoint_chars a b ->
  ratio a b = Some (calculate_ratio 0 (length a + length b)).
Proof.
  intros Hd. unfold ratio, get_matching_blocks, fuel_for.
  replace (2 * length a + 1) with (S (2 * length a)) by lia.
  cbn [blocks_loop]. rewrite (find_longest_match_disjoint a b Hd).
  cbn [Nat.eqb negb]. rewrite blocks_loop_nil. reflexivity.
Qed.

(** *** A text compared with itself *)

Lemma memb_in (j : nat) (l : list nat) : memb j l = true <-> In j l.
Proof.
  unfold memb. rewrite existsb_exists. split.
  - intros [x [Hin He]]. apply Nat.eqb_eq in He. now subst x.
  - intros Hin. exists j. split; [exact Hin | apply Nat.eqb_refl].
Qed.

Lemma j2len_get_set (j j' k : nat) (d : j2len_t) :
  j2len_get j (j2len_set j' k d) = if j =? j' then k else j2len_get j d.
Proof.
  induction d as [|[j0 k0] d IH]; simpl.
  - reflexivity.
  - destruct (j' =? j0) eqn:E0; simpl.
    + apply Nat.eqb_eq in E0; subst j0. destruct (j =? j'); reflexivity.
    + destruct (j =? j0) eqn:E1; [|exact IH].
      apply Nat.eqb_eq in E1; subst j0.
      rewrite Nat.eqb_sym in E0. now rewrite E0.
Qed.

Lemma char_eqb_refl (x : option ascii) : char_eqb x x = true.
Proof. destruct x; simpl; [apply Ascii.eqb_refl | reflexivity]. Qed.

Section Identical.

Variable s : string.

(** The row of [i] visits the indices of the element at [i]. *)
Lemma row_indices_get (i j : nat) :
  memb j (row_indices s i) = true ->
  String.get j s = String.get i s /\ String.get i s <> None.
Proof.
  unfold row_indices. intros H.
  destruct (String.get i s) as [c|] eqn:E; [|discriminate].
  rewrite chain_b_get in H. destruct (popular s c); [discriminate|].
  apply memb_in, indices_from_in in H as [_ H].
  rewrite Nat.sub_0_r in H. split; [exact H | discriminate].
Qed.

Lemma row_indices_same (i j : nat) :
  memb j (row_indices s i) = true -> row_indices s j = row_indices s i.
Proof.
  intros H. apply row_indices_get in H as [H _].
  unfold row_indices. now rewrite H.
Qed.

Lemma row_indices_diag (i j : nat) :
  memb j (row_indices s i) = true -> memb i (row_indices s i) = true.
Proof.
  unfold row_indices. intros H.
  destruct (String.get i s) as [c|] eqn:E; [|discriminate].
  rewrite chain_b_get in H |- *. destruct (popular s c); [discriminate|].
  apply memb_in, indices_from_in. split; [lia|]. now rewrite Nat.sub_0_r.
Qed.

Lemma row_indices_sorted (i : nat) : StronglySorted lt (row_indices s i).
Proof.
  unfold row_indices. destruct (String.get i s) as [c|]; [|constructor].
  rewrite chain_b_get. destruct (popular s c); [constructor|].
  apply indices_from_sorted.
Qed.

Lemma row_indices_lt (i j : nat) :
  memb j (row_indices s i) = true -> j < length s.
Proof.
  intros H. apply row_indices_get in H as [H Hn].
  destruct (String.get i s) as [c|] eqn:E; [|congruence].
  eapply get_lt; eassumption.
Qed.

Lemma row_len_unfold (i j : nat) :
  row_len s i j
  = if memb j (row_indices s i)
    then S (match i, j with
            | S i', S j' => row_len s i' j'
            | _, _ => 0
            end)
    else 0.
Proof. destruct i; reflexivity. Qed.

(** A match found off the diagonal is no longer than the matches of the
    diagonal at its row and at its column. *)
Lemma row_len_diag (i : nat) :
  forall j, row_len s i j <= row_len s j j /\ row_len s i j <= row_len s i i.
Proof.
  induction i as [|i IH]; intros j.
  - rewrite (row_len_unfold 0 j).
    destruct (memb j (row_indices s 0)) eqn:Em; [|lia].
    rewrite (row_len_unfold j j), (row_len_unfold 0 0).
    rewrite (row_indices_same 0 j Em), Em, (row_indices_diag 0 j Em).
    split; [destruct j|]; lia.
  - rewrite (row_len_unfold (S i) j).
    destruct (memb j (row_indices s (S i))) eqn:Em; [|lia].
    rewrite (row_len_unfold j j), (row_len_unfold (S i) (S i)).
    rewrite (row_indices_same (S i) j Em), Em, (row_indices_diag (S i) j Em).
    destruct j as [|j]; [lia|].
    destruct (IH j) as [H1 H2]. lia.
Qed.

Lemma row_len_bound (i : nat) : forall j, row_len s i j <= S i.
Proof.
  induction i as [|i IH]; intros j; rewrite row_len_unfold;
    destruct (memb j _); try lia.
  destruct j as [|j]; [lia|]. specialize (IH j). lia.
Qed.

Lemma inner_identical (i : nat) (j2len : j2len_t) :
  (forall j, j2len_get j j2len = prev_len s i j) ->
  forall (js : list nat) (newj2len : j2len_t) (best : match_t),
    StronglySorted lt js ->
    (forall j, In j js -> memb j (row_indices s i) = true) ->
    on_diagonal best -> covers_rows s i best -> ends_by (S i) best ->
    (forall j, memb j (row_indices s i) = true ->
               In j js \/ row_len s i j <= size best) ->
    let r := inner 0 (length s) i js j2len newj2len best in
    (forall j, j2len_get j (fst r)
               = if memb j js then row_len s i j else j2len_get j newj2len)
    /\ on_diagonal (snd r) /\ covers_rows s i (snd r) /\ ends_by (S i) (snd r)
    /\ (forall j, memb j (row_indices s i) = true -> row_len s i j <= size (snd r)).
Proof.
  intros Hprev. induction js as [|j js IH];
    intros newj2len best Hsorted Hjs Hdiag Hcov Hend Hdone.
  - cbn. repeat split; try assumption.
    intros j Hj. destruct (Hdone j Hj) as [[]|H]; exact H.
  - assert (Hj : memb j (row_indices s i) = true) by (apply Hjs; now left).
    pose proof (row_indices_lt i j Hj) as Hlt.
    cbn [inner].
    replace (j <? 0) with false by (symmetry; apply Nat.ltb_ge; lia).
    replace (length s <=? j) with false by (symmetry; apply Nat.leb_gt; lia).
    set (k := match j with O => 0 | S j' => j2len_get j' j2len end + 1).
    assert (Hk : k = row_len s i j).
    { unfold k. rewrite (row_len_unfold i j), Hj.
      destruct j as [|j']; [destruct i; lia|].
      rewrite Hprev. unfold prev_len. destruct i; lia. }
    set (best' := if size best <? k then (i + 1 - k, j + 1 - k, k) else best).
    inversion Hsorted as [|x xs Hsorted' Hall]; subst x xs.
    assert (Hsize : size best <= size best' /\ k <= size best').
    { unfold best'. destruct (size best <? k) eqn:E.
      - apply Nat.ltb_lt in E. unfold size in *. simpl. lia.
      - apply Nat.ltb_ge in E. lia. }
    destruct Hsize as [Hmono Hkle].
    assert (Hdiag' : on_diagonal best' /\ ends_by (S i) best').
    { unfold best'. destruct (size best <? k) eqn:E; [|now split].
      apply Nat.ltb_lt in E.
      assert (Hji : j = i).
      { destruct (Nat.lt_trichotomy j i) as [Hc|[Hc|Hc]]; [|exact Hc|].
        - exfalso. pose proof (proj1 (row_len_diag i j)) as H1.
          pose proof (Hcov j j Hc) as H2. lia.
        - exfalso. pose proof (proj2 (row_len_diag i j)) as H1.
          destruct (Hdone i (row_indices_diag i j Hj)) as [[Hi|Hi]|Hi].
          + lia.
          + rewrite Forall_forall in Hall. specialize (Hall i Hi). lia.
          + lia. }
      subst j. pose proof (row_len_bound i i) as Hb.
      unfold on_diagonal, ends_by, size. simpl. split; lia. }
    destruct Hdiag' as [Hdiag' Hend'].
    specialize (IH (j2len_set j k newj2len) best' Hsorted').
    destruct IH as [Hget [Hd [Hc [He Hall']]]].
    + intros x Hx. apply Hjs. now right.
    + exact Hdiag'.
    + intros i' x Hi'. specialize (Hcov i' x Hi'). lia.
    + exact Hend'.
    + intros x Hx. destruct (Hdone x Hx) as [[Hx'|Hx']|Hx'].
      * subst x. right. lia.
      * now left.
      * right. lia.
    + cbv zeta. repeat split; try assumption.
      intros x. rewrite Hget, j2len_get_set. cbn [memb existsb].
      fold (memb x js). destruct (memb x js); [now rewrite orb_true_r|].
      rewrite orb_false_r. destruct (x =? j) eqn:E; [|reflexivity].
      apply Nat.eqb_eq in E. subst x. exact Hk.
Qed.

Lemma outer_identical (len : nat) :
  forall (i : nat) (j2len : j2len_t) (best : match_t),
    (forall j, j2len_get j j2len = prev_len s i j) ->
    on_diagonal best -> covers_rows s i best -> ends_by i best ->
    let best' := outer s (chain_b s) 0 (length s) (seq i len) j2len best in
    on_diagonal best' /\ ends_by (i + len) best'.
Proof.
  induction len as [|len IH]; intros i j2len best Hprev Hdiag Hcov Hend.
  - cbn. rewrite Nat.add_0_r. now split.
  - cbn [seq outer].
    change (match String.get i s with
            | Some c => b2j_get c (chain_b s)
            | None => []
            end) with (row_indices s i).
    pose proof (inner_identical i j2len Hprev (row_indices s i) [] best
                  (row_indices_sorted i)) as Hin.
    destruct (inner 0 (length s) i (row_indices s i) j2len [] best)
      as [newj2len best1].
    destruct Hin as [Hget [Hd [Hc [He Hall]]]].
    + intros j Hj. now apply memb_in.
    + exact Hdiag.
    + exact Hcov.
    + unfold ends_by in *. lia.
    + intros j Hj. left. now apply memb_in.
    + cbn [fst snd] in *.
      replace (i + S len) with (S i + len) by lia.
      apply IH.
      * intros j. rewrite Hget. cbn [prev_len].
        rewrite (row_len_unfold i j). destruct (memb j (row_indices s i)); reflexivity.
      * exact Hd.
      * intros i' j Hi'. destruct (Nat.eq_dec i' i) as [->|Hne].
        -- rewrite (row_len_unfold i j).
           destruct (memb j (row_indices s i)) eqn:Em; [|lia].
           specialize (Hall j Em). now rewrite (row_len_unfold i j), Em in Hall.
        -- apply Hc. lia.
      * exact He.
Qed.

Lemma extend_left_diagonal (d : nat) :
  forall size0, extend_left s s 0 0 d d size0 = (0, 0, size0 + d).
Proof.
  induction d as [|d IH]; intros size0; cbn [extend_left].
  - now rewrite Nat.add_0_r.
  - rewrite char_eqb_refl.
    replace (0 <? S d) with true by (symmetry; apply Nat.ltb_lt; lia).
    cbn [andb]. rewrite IH. f_equal. lia.
Qed.

Lemma extend_right_diagonal (room : nat) :
  forall size0,
    size0 + room = length s ->
    extend_right s s (length s) room 0 0 size0 = (0, 0, length s).
Proof.
  induction room as [|room IH]; intros size0 H; cbn [extend_right].
  - f_equal. lia.
  - cbn [Nat.add]. rewrite char_eqb_refl.
    replace (size0 <? length s) with true by (symmetry; apply Nat.ltb_lt; lia).
    cbn [andb]. apply IH. lia.
Qed.

(** The longest match of a text with itself is the text. *)
Lemma find_longest_match_identical :
  find_longest_match s s (chain_b s) 0 (length s) 0 (length s)
  = (0, 0, length s).
Proof.
  unfold find_longest_match.
  pose proof (outer_identical (length s - 0) 0 [] (0, 0, 0)) as H.
  destruct (outer s (chain_b s) 0 (length s) (seq 0 (length s - 0)) [] (0, 0, 0))
    as [[bi bj] bs].
  destruct H as [Hd He].
  - intros j. reflexivity.
  - reflexivity.
  - intros i' j Hi'. lia.
  - unfold ends_by, size. simpl. lia.
  - unfold on_diagonal, ends_by, size in Hd, He. simpl in Hd, He. subst bj.
    rewrite extend_left_diagonal. cbn [Nat.add].
    apply extend_right_diagonal. lia.
Qed.

Lemma ratio_identical :
  ratio s s = Some (calculate_ratio (length s) (length s + length s)).
Proof.
  unfold ratio, get_matching_blocks, fuel_for.
  replace (2 * length s + 1) with (S (2 * length s)) by lia.
  cbn [blocks_loop]. rewrite find_longest_match_identical.
  rewrite Nat.add_0_l, Nat.ltb_irrefl. cbn [andb].
  change (0 <? 0) with false. cbn [andb].
  destruct (length s =? 0) eqn:E0; cbn [negb]; rewrite blocks_loop_nil.
  - apply Nat.eqb_eq in E0. rewrite E0. reflexivity.
  - cbn [app sort fold_right insert_sorted collapse Nat.add Nat.eqb andb negb].
    rewrite E0. cbn [negb app map size snd fold_left].
    rewrite Nat.add_0_r. reflexivity.
Qed.

End Identical.

(** *** The search for blocks ends *)

Section Bounds.

Variables (a b : string) (b2j : b2j_t).
Variables (alo ahi blo bhi : nat).

Lemma inner_bounds (i : nat) (j2len : j2len_t) :
  alo <= i ->
  (forall j, j2len_get j j2len <= i - alo) ->
  forall (js : list nat) (newj2len : j2len_t) (best : match_t),
    (forall j, j2len_get j newj2len <= S i - alo) ->
    alo <= fst (fst best) -> fst (fst best) + size best <= S i ->
    let r := inner blo bhi i js j2len newj2len best in
    (forall j, j2len_get j (fst r) <= S i - alo)
    /\ alo <= fst (fst (snd r)) /\ fst (fst (snd r)) + size (snd r) <= S i.
Proof.
  intros Hi Hprev. induction js as [|j js IH]; intros newj2len best Hnew Hlo Hhi.
  - cbn. auto.
  - cbn [inner]. destruct (j <? blo); [now apply IH|].
    destruct (bhi <=? j); [cbn; auto|].
    set (k := match j with O => 0 | S j' => j2len_get j' j2len end + 1).
    assert (Hk : 1 <= k <= S i - alo).
    { unfold k. destruct j as [|j']; [lia|]. specialize (Hprev j'). lia. }
    apply IH.
    + intros x. rewrite j2len_get_set. destruct (x =? j); [lia | apply Hnew].
    + destruct (size best <? k); [cbn; lia | exact Hlo].
    + destruct (size best <? k); [unfold size; cbn; lia | exact Hhi].
Qed.

Lemma outer_bounds (len : nat) :
  forall (i : nat) (j2len : j2len_t) (best : match_t),
    alo <= i ->
    (forall j, j2len_get j j2len <= i - alo) ->
    alo <= fst (fst best) -> fst (fst best) + size best <= i ->
    let best' := outer a b2j blo bhi (seq i len) j2len best in
    alo <= fst (fst best') /\ fst (fst best') + size best' <= i + len.
Proof.
  induction len as [|len IH]; intros i j2len best Hi Hprev Hlo Hhi.
  - cbn. split; [exact Hlo | lia].
  - cbn [seq outer].
    set (js := match String.get i a with
               | Some c => b2j_get c b2j
               | None => []
               end).
    pose proof (inner_bounds i j2len Hi Hprev js [] best) as Hin.
    destruct (inner blo bhi i js j2len [] best) as [newj2len best1].
    destruct Hin as [Hget [Hlo1 Hhi1]].
    + intros j. cbn. lia.
    + exact Hlo.
    + lia.
    + cbn [fst snd] in *. replace (i + S len) with (S i + len) by lia.
      apply IH; try assumption; try lia.
Qed.

Lemma extend_left_bounds (besti : nat) :
  forall bestj bestsize,
    alo <= besti ->
    let r := extend_left a b alo blo besti bestj bestsize in
    alo <= fst (fst r) /\ fst (fst r) + size r = besti + bestsize.
Proof.
  induction besti as [|i' IH]; intros bestj bestsize Hlo; cbn [extend_left].
  - cbn. auto.
  - destruct bestj as [|j']; [cbn; auto|].
    destruct ((alo <? S i') && (blo <? S j')
              && char_eqb (String.get i' a) (String.get j' b)) eqn:E;
      [|cbn; auto].
    apply andb_true_iff in E as [E _]. apply andb_true_iff in E as [E _].
    apply Nat.ltb_lt in E.
    destruct (IH j' (bestsize + 1)) as [H1 H2]; [lia|].
    split; [exact H1 | lia].
Qed.

Lemma extend_right_bounds (room : nat) :
  forall besti bestj bestsize,
    let r := extend_right a b bhi room besti bestj bestsize in
    fst (fst r) = besti /\ bestsize <= size r <= bestsize + room.
Proof.
  induction room as [|room IH]; intros besti bestj bestsize; cbn [extend_right].
  - unfold size; cbn. lia.
  - destruct ((bestj + bestsize <? bhi)
              && char_eqb (String.get (besti + bestsize) a)
                          (String.get (bestj + bestsize) b));
      [|unfold size; cbn; lia].
    destruct (IH besti bestj (bestsize + 1)) as [H1 H2].
    split; [exact H1 | lia].
Qed.

(** The match lies in the range of [a] it was looked for in. *)
Lemma find_longest_match_bounds :
  alo <= ahi ->
  let r := find_longest_match a b b2j alo ahi blo bhi in
  alo <= fst (fst r) /\ fst (fst r) + size r <= ahi.
Proof.
  intros Hle. unfold find_longest_match.
  pose proof (outer_bounds (ahi - alo) alo [] (alo, blo, 0)) as Ho.
  destruct (outer a b2j blo bhi (seq alo (ahi - alo)) [] (alo, blo, 0))
    as [[bi bj] bs].
  destruct Ho as [Ho1 Ho2]; try (cbn; lia).
  cbn [fst snd size] in Ho1, Ho2. unfold size in Ho2. cbn in Ho2.
  pose proof (extend_left_bounds bi bj bs Ho1) as Hl.
  destruct (extend_left a b alo blo bi bj bs) as [[li lj] ls].
  destruct Hl as [Hl1 Hl2]. unfold size in Hl2. cbn in Hl1, Hl2.
  pose proof (extend_right_bounds (ahi - (li + ls)) li lj ls) as Hr.
  destruct (extend_right a b bhi (ahi - (li + ls)) li lj ls) as [[ri rj] rs].
  destruct Hr as [Hr1 Hr2]. unfold size in *. cbn in *. lia.
Qed.

End Bounds.

Lemma blocks_loop_total (a b : string) (b2j : b2j_t) (fuel : nat) :
  forall (queue : list range_t) (matching_blocks : list match_t),
    Forall range_ok queue ->
    queue_measure queue <= fuel ->
    blocks_loop a b b2j fuel queue matching_blocks <> None.
Proof.
  induction fuel as [|fuel IH]; intros queue mb Hok Hm.
  - destruct queue as [|[[[alo ahi] blo] bhi] queue]; [discriminate|].
    cbn in Hm. lia.
  - destruct queue as [|[[[alo ahi] blo] bhi] queue]; [discriminate|].
    cbn [blocks_loop]. cbn [queue_measure] in Hm.
    inversion Hok as [|x xs Hr Hq]; subst. cbn in Hr.
    pose proof (find_longest_match_bounds a b b2j alo ahi blo bhi Hr) as Hb.
    destruct (find_longest_match a b b2j alo ahi blo bhi) as [[i j] k].
    unfold size in Hb. cbn in Hb. destruct Hb as [Hb1 Hb2].
    destruct (k =? 0) eqn:Ek; cbn [negb].
    + apply IH; [exact Hq | lia].
    + apply Nat.eqb_neq in Ek. apply IH.
      * destruct ((i + k <? ahi) && (j + k <? bhi));
          destruct ((alo <? i) && (blo <? j));
          repeat (constructor; try (cbn; lia)); exact Hq.
      * destruct ((i + k <? ahi) && (j + k <? bhi));
          destruct ((alo <? i) && (blo <? j));
          cbn [queue_measure]; lia.
Qed.

(** [ratio] returns for every pair of texts. *)
Lemma ratio_total (a b : string) : ratio a b <> None.
Proof.
  unfold ratio, get_matching_blocks.
  destruct (blocks_loop a b (chain_b b) (fuel_for a)
              [(0, length a, 0, length b)] []) eqn:E; [discriminate|].
  exfalso. revert E. apply blocks_loop_total.
  - constructor; [cbn; lia | constructor].
  - unfold fuel_for. cbn. lia.
Qed.

End DifflibFacts.

(** ** similar *)

Lemma calculate_ratio_all (n : nat) :
  (Difflib.calculate_ratio n (n + n) == 1)%Q.
Proof.
  unfold Difflib.calculate_ratio.
  destruct (n + n =? 0) eqn:E; cbn [negb]; [reflexivity|].
  apply Nat.eqb_neq in E.
  unfold Qeq. cbn [Qnum Qden].
  rewrite <- (positive_nat_Z (Pos.of_nat (n + n))), Nat2Pos.id by exact E.
  lia.
Qed.

Lemma calculate_ratio_none (n : nat) :
  n <> 0 -> (Difflib.calculate_ratio 0 n == 0)%Q.
Proof.
  intros Hn. unfold Difflib.calculate_ratio.
  apply Nat.eqb_neq in Hn. rewrite Hn. reflexivity.
Qed.

(** C6, as amended.  [similar] returns a score for every pair of texts; the
    score of a text with itself is 1; the score of two texts with no
    character in common, not both empty, is 0.  (The score is not
    symmetric.) *)
Theorem similar_identical_and_disjoint :
  (forall a b : string, similar a b <> None)
  /\ (forall a : string, exists x, similar a a = Some x /\ (x == 1)%Q)
  /\ (forall a b : string,
         disjoint_chars a b -> a <> "" \/ b <> "" ->
         exists x, similar a b = Some x /\ (x == 0)%Q).
Proof.
  split; [|split].
  - intros a b. apply DifflibFacts.ratio_total.
  - intros a. unfold similar. rewrite DifflibFacts.ratio_identical.
    eexists. split; [reflexivity | apply calculate_ratio_all].
  - intros a b Hd Hne. unfold similar. rewrite (DifflibFacts.ratio_disjoint a b Hd).
    eexists. split; [reflexivity|]. apply calculate_ratio_none.
    destruct a, b; simpl; try lia. destruct Hne; congruence.
Qed.

Lemma similar_identical_and_disjoint_witness :
  (exists x, similar "Sign in" "Sign in" = Some x /\ (x == 1)%Q)
  /\ (exists x, similar "abc" "xyz" = Some x /\ (x == 0)%Q).
Proof.
  destruct similar_identical_and_disjoint as [_ [Hid Hdis]].
  split.
  - apply (Hid "Sign in").
  - apply (Hdis "abc" "xyz").
    + intros c Hc. simpl in Hc.
      repeat (apply orb_true_iff in Hc as [Hc|Hc];
              [apply Ascii.eqb_eq in Hc; subst c; reflexivity|]).
      discriminate.
    + left. discriminate.
Defined.

(** C6 as stated fails: the score depends on the order of the two texts;
    and two empty texts, which have no character in common, score 1. *)
Lemma similar_not_symmetric :
  similar "tide" "diet" = Some (2 # 8)%Q
  /\ similar "diet" "tide" = Some (4 # 8)%Q
  /\ ~ (2 # 8 == 4 # 8)%Q
  /\ disjoint_chars "" ""
  /\ similar "" "" = Some 1%Q.
Proof.
  split; [reflexivity|]. split; [reflexivity|]. split; [discriminate|].
  split; [intros c H; discriminate | reflexivity].
Qed.

(** * Floats *)

Module FloatFacts.

Lemma round_zero (q : Q) : (q == 0)%Q -> Float.round q = 0%Q.
Proof.
  destruct q as [n d]. unfold Qeq. cbn [Qnum Qden]. intros H.
  rewrite Z.mul_1_r in H. cbn in H. subst n. reflexivity.
Qed.

Lemma round_pos_one (d : positive) : (Float.round_pos d d == 1)%Q.
Proof.
  unfold Float.round_pos, Float.floor_log2.
  rewrite Z.sub_diag. change (0 <=? 0)%Z with true. cbv iota.
  rewrite Z.pow_0_r, Z.mul_1_r, Z.leb_refl.
  change (Z.max (0 - 52) (-1074)) with (-52)%Z.
  change (Z.max (- -52) 0) with 52%Z. change (Z.max (-52) 0) with 0%Z.
  rewrite Z.pow_0_r, !Z.mul_1_r.
  rewrite (Z.mul_comm (Z.pos d)), Z.div_mul, Z.mod_mul by discriminate.
  change (2 * 0 <? Z.pos d)%Z with true. cbv iota.
  unfold Qeq. cbn [Qnum Qden]. rewrite Z2Pos.id by reflexivity. ring.
Qed.

Lemma round_one (q : Q) : (q == 1)%Q -> (Float.round q == 1)%Q.
Proof.
  destruct q as [n d]. unfold Qeq. cbn [Qnum Qden]. intros H.
  rewrite Z.mul_1_r, Z.mul_1_l in H. subst n.
  unfold Float.round. cbn [Qnum Qden]. apply round_pos_one.
Qed.

End FloatFacts.

(** * Further properties of the handler *)

(** ** Skipped lines, first words and the dead branch of the dispatcher *)

Section StepFacts.

Context {B : Type} (E : Env B).

Import StrFacts.

Lemma rstrip_nonspace (c : ascii) (s : string) :
  isspace c = false -> exists s', rstrip (String c s) = String c s'.
Proof.
  intros Hc. cbn [rstrip]. destruct (rstrip s) as [|d r].
  - rewrite Hc. eauto.
  - eauto.
Qed.

Lemma lstrip_head (s : string) (c : ascii) (s' : string) :
  lstrip s = String c s' -> isspace c = false.
Proof.
  induction s as [|d s IH]; intros H; simpl in H; [discriminate|].
  destruct (isspace d) eqn:Ed; [now apply IH|].
  inversion H; subst. exact Ed.
Qed.

(** A stripped line that is not empty starts with a character that is not
    white space. *)
Lemma strip_head (raw : string) (c : ascii) (s : string) :
  strip raw = String c s -> isspace c = false.
Proof.
  unfold strip. intros H.
  destruct (lstrip raw) as [|d l] eqn:El; [discriminate|].
  pose proof (lstrip_head raw d l El) as Hd.
  destruct (rstrip_nonspace d l Hd) as [s' Hs]. rewrite Hs in H.
  inversion H; subst. exact Hd.
Qed.

(** X1.  [execute_step] returns [None] on the lines it skips, and on those
    only; it then leaves the page as it is. *)
Theorem execute_step_none_iff_skipped
    (line : string) (save_snapshots : bool) (p : Page B) :
  (is_skipped line = true -> execute_step E line save_snapshots p = (Ok None, p))
  /\ (forall p', execute_step E line save_snapshots p = (Ok None, p') ->
                 is_skipped line = true /\ p' = p).
Proof.
  split.
  - intros H. unfold execute_step. now rewrite H.
  - intros p' H. destruct (is_skipped line) eqn:Es.
    + unfold execute_step in H. rewrite Es in H. inversion H. auto.
    + destruct (execute_step_not_nil E line save_snapshots p p' None Es H)
        as [d [Hd _]]. discriminate.
Qed.

(** X2.  In [run_device] the lookup of the first word never fails: a line
    that is stripped and not empty has a first word, which starts the
    line; so [execute_step] raises no [IndexError] there. *)
Theorem stripped_line_has_first_word (raw : string) :
  strip raw <> "" ->
  exists cmd rest,
    split (strip raw) = cmd :: rest
    /\ cmd <> ""
    /\ startswith cmd (strip raw) = true.
Proof.
  intros Hne. destruct (strip raw) as [|c s] eqn:Es; [congruence|].
  pose proof (strip_head raw c s Es) as Hc.
  destruct (split_cons_nonspace c s Hc) as [rest Hr].
  eexists. exists rest. split; [exact Hr|]. split; [discriminate|].
  rewrite startswith_cons, Ascii.eqb_refl. cbn [andb].
  clear. induction s as [|d s IH]; [reflexivity|].
  cbn [span]. destruct (negb (isspace d)).
  - destruct (span (fun c0 => negb (isspace c0)) s) as [x y]. cbn [fst] in *.
    now rewrite startswith_cons, Ascii.eqb_refl, IH.
  - apply startswith_nil.
Qed.

(** X3.  Every supported command but Assert has a handler in the dispatch
    table, so the last branch of [execute_step], which reports a supported
    command as not implemented with status SYNTAX_ERROR, is never taken. *)
Theorem not_implemented_branch_is_dead (cmd : string) :
  mem cmd SUPPORTED_COMMANDS = true ->
  cmd = "Assert" \/ lookup cmd (dispatcher E) <> None.
Proof.
  unfold mem, SUPPORTED_COMMANDS. cbn [existsb]. intros H.
  repeat (apply orb_true_iff in H as [H|H];
          [apply String.eqb_eq in H; subst cmd;
           first [left; reflexivity | right; discriminate]|]).
  discriminate.
Qed.

End StepFacts.

Lemma stripped_line_has_first_word_witness :
  exists cmd rest,
    split (strip "   Click now  ") = cmd :: rest
    /\ cmd <> ""
    /\ startswith cmd (strip "   Click now  ") = true.
Proof.
  apply (stripped_line_has_first_word "   Click now  "). discriminate.
Defined.

Lemma not_implemented_branch_is_dead_witness :
  "Retry" = "Assert" \/ lookup "Retry" (dispatcher demo) <> None.
Proof.
  apply (not_implemented_branch_is_dead demo "Retry"). reflexivity.
Defined.

Lemma execute_step_none_iff_skipped_witness :
  execute_step demo "# a comment" false new_page = (Ok None, new_page).
Proof.
  apply (proj1 (execute_step_none_iff_skipped demo "# a comment" false new_page)).
  reflexivity.
Defined.

(** ** Settling, redirect chains, variables and tags *)

Section StateFacts.

Context {B : Type} (E : Env B).

(** X4.  The two waits that let a page settle never raise, whatever the
    engine answers, and touch nothing of the page but the browser. *)
Theorem settle_waits_never_raise (selector : string) (p : Page B) :
  (exists b, wait_after_action E p = (Ok tt, with_browser p b))
  /\ (exists b, wait_for_main_content E selector p = (Ok tt, with_browser p b)).
Proof.
  split.
  - unfold wait_after_action, idle_or_pass, with_browser. run.
    destruct (pg_wait_for_load_state E "networkidle" 7000 (browser p))
      as [[[]|e1] b1]; simpl;
      destruct (pg_wait_for_load_state E "networkidle" 7000 b1)
        as [[[]|e2] b2]; simpl; eauto.
  - unfold wait_for_main_content, with_browser. run.
    destruct (pg_wait_for_selector E selector 7000 (browser p))
      as [[[]|e1] b1]; simpl; eauto.
    destruct (pg_wait_for_load_state E "networkidle" 7000 b1)
      as [[[]|e2] b2]; simpl; eauto.
Qed.

Lemma hops_snoc (l : list string) (u v : string) :
  hops ((l ++ [u]) ++ [v]) = (hops (l ++ [u]) ++ [(u ++ arrow ++ v)%string])%list.
Proof.
  induction l as [|x l IH]; [reflexivity|].
  destruct l as [|y l]; [reflexivity|].
  change (hops (((x :: y :: l) ++ [u]) ++ [v]))
    with ((x ++ arrow ++ y) :: hops (((y :: l) ++ [u]) ++ [v])).
  rewrite IH. reflexivity.
Qed.

Lemma redirect_pairs_request_of (earlier : list string) :
  forall last,
    redirect_pairs (request_of last earlier)
    = rev (hops (rev earlier ++ [last])).
Proof.
  induction earlier as [|u earlier IH]; intros last; [reflexivity|].
  cbn [request_of redirect_pairs rev]. rewrite IH.
  rewrite hops_snoc, rev_app_distr. cbn [rev app].
  destruct earlier; reflexivity.
Qed.

Lemma hops_length (l : list string) : List.length (hops l) = pred (List.length l).
Proof.
  induction l as [|x l IH]; [reflexivity|].
  destruct l as [|y l]; [reflexivity|].
  change (hops (x :: y :: l)) with ((x ++ arrow ++ y) :: hops (y :: l)).
  cbn [List.length] in *. rewrite IH. reflexivity.
Qed.

(** X5.  [get_redirect_chain] lists the hops of a navigation in the order
    they were followed, one per redirect, each as the two URLs around the
    arrow; a navigation without redirect gives the empty chain. *)
Theorem redirect_chain_lists_hops_in_order
    (st : Z) (hs : value) (last : string) (earlier : list string) :
  get_redirect_chain (Response st hs (request_of last earlier))
  = hops (rev earlier ++ [last])
  /\ List.length (get_redirect_chain (Response st hs (request_of last earlier)))
     = List.length earlier.
Proof.
  assert (H : get_redirect_chain (Response st hs (request_of last earlier))
              = hops (rev earlier ++ [last])).
  { unfold get_redirect_chain. cbn [resp_request].
    now rewrite redirect_pairs_request_of, rev_involutive. }
  split; [exact H|].
  rewrite H, hops_length, length_app, length_rev. cbn. lia.
Qed.

(** X6.  A SetVar whose expression evaluates stores the value under the
    variable name and leaves every other variable and the last response as
    they were; when the evaluation raises, nothing is stored and the step
    fails with the text of the exception. *)
Theorem setvar_stores_value (line varname js : string) (p : Page B) :
  re_match setvar_re line = Some [varname; js] ->
  (forall val b, pg_evaluate E js (browser p) = (Ok val, b) ->
     exists d p',
       handle_setvar E line p = (Ok d, p')
       /\ dict_get varname (vars_of p') = Some val
       /\ (forall k, k <> varname ->
             dict_get k (vars_of p') = dict_get k (vars_of p))
       /\ browser p' = b
       /\ _last_response p' = _last_response p)
  /\ (forall e b, pg_evaluate E js (browser p) = (Raise e, b) ->
        handle_setvar E line p = (Ok (fail line (exn_str e)), with_browser p b)).
Proof.
  intros Hm. split.
  - intros val b Hev. unfold handle_setvar. rewrite Hm. run. rewrite Hev.
    simpl. eexists. eexists. split; [reflexivity|].
    unfold vars_of. cbn [_vars browser _last_response].
    split; [apply dict_get_set_same|].
    split; [|split; reflexivity].
    intros k Hk. now apply dict_get_set_other.
  - intros e b Hev. unfold handle_setvar. rewrite Hm. run. rewrite Hev.
    reflexivity.
Qed.

(** X7.  The result of a passing SetVar carries the value under the name
    of the variable; a variable called status or step thereby replaces
    the field of that name, and any other name leaves both in place. *)
Theorem setvar_result_field_follows_name
    (line varname js : string) (val : value) (b : B) (p : Page B) :
  re_match setvar_re line = Some [varname; js] ->
  pg_evaluate E js (browser p) = (Ok val, b) ->
  exists d p',
    handle_setvar E line p = (Ok d, p')
    /\ dict_get varname d = Some val
    /\ (varname <> "status" -> dict_get "status" d = Some (VStr "PASS"))
    /\ (varname <> "step" -> dict_get "step" d = Some (VStr line)).
Proof.
  intros Hm Hev. unfold handle_setvar. rewrite Hm. run. rewrite Hev. simpl.
  eexists. eexists. split; [reflexivity|].
  unfold dict_of. cbn [fold_left fst snd].
  split; [apply dict_get_set_same|]. split; intros Hne.
  - rewrite dict_get_set_other by congruence. reflexivity.
  - rewrite dict_get_set_other by congruence. reflexivity.
Qed.

End StateFacts.

Lemma findall_go_words (s : string) :
  forall cur w,
    (forall x, cur = Some x -> x <> "" /\ all isword x = true) ->
    In w (findall_go cur s) -> w <> "" /\ all isword w = true.
Proof.
  assert (Hall : forall x c, all isword x = true -> isword c = true ->
                             all isword (x ++ String c "") = true).
  { induction x as [|d x IH]; intros c Hx Hc; simpl in *.
    - now rewrite Hc.
    - apply andb_true_iff in Hx as [Hd Hx]. rewrite Hd. now apply IH. }
  induction s as [|c s IH]; intros cur w Hcur Hin; cbn [findall_go] in Hin.
  - destruct cur as [x|]; [|contradiction].
    destruct Hin as [<-|[]]. now apply Hcur.
  - destruct (isword c) eqn:Ec.
    + apply IH in Hin; [exact Hin|]. intros x Hx. inversion Hx; subst; clear Hx.
      destruct cur as [y|].
      * destruct (Hcur y eq_refl) as [Hy Hw]. split.
        -- destruct y; [congruence | discriminate].
        -- now apply Hall.
      * split; [discriminate|]. simpl. now rewrite Ec.
    + destruct cur as [y|].
      * destruct Hin as [<-|Hin]; [now apply Hcur|].
        apply IH in Hin; [exact Hin | discriminate].
      * apply IH in Hin; [exact Hin | discriminate].
Qed.

(** X8.  The tags [run_device] reads off the text after Tags: are words:
    none is empty and each holds only letters, digits and underscores,
    whatever separates them. *)
Theorem tags_are_words (text w : string) :
  In w (findall_words text) -> w <> "" /\ all isword w = true.
Proof.
  unfold findall_words. apply findall_go_words. discriminate.
Qed.

Lemma setvar_stores_value_witness :
  exists d p',
    handle_setvar demo ("SetVar " ++ q "total" ++ " = 1+1") new_page = (Ok d, p')
    /\ dict_get "total" (vars_of p') = Some (VInt 2)
    /\ (forall k, k <> "total" ->
          dict_get k (vars_of p') = dict_get k (vars_of new_page))
    /\ browser p' = tt
    /\ _last_response p' = _last_response new_page.
Proof.
  apply (proj1 (setvar_stores_value demo ("SetVar " ++ q "total" ++ " = 1+1")
                  "total" "1+1" new_page eq_refl) (VInt 2) tt).
  reflexivity.
Defined.

Lemma setvar_result_field_follows_name_witness :
  exists d p',
    handle_setvar demo ("SetVar " ++ q "status" ++ " = 1+1") new_page = (Ok d, p')
    /\ dict_get "status" d = Some (VInt 2)
    /\ ("status" <> "status" -> dict_get "status" d = Some (VStr "PASS"))
    /\ ("status" <> "step" ->
        dict_get "step" d = Some (VStr ("SetVar " ++ q "status" ++ " = 1+1"))).
Proof.
  apply (setvar_result_field_follows_name demo
           ("SetVar " ++ q "status" ++ " = 1+1") "status" "1+1" (VInt 2) tt
           new_page); reflexivity.
Defined.

Lemma tags_are_words_witness :
  "checkout" <> "" /\ all isword "checkout" = true.
Proof.
  apply (tags_are_words " smoke, checkout-flow" "checkout").
  vm_compute. auto.
Defined.

(** ** The commands on a well-formed line *)

Section CommandFacts.

Context {B : Type} (E : Env B).

Import StrFacts Grammar.

Lemma wait_after_action_ok (p : Page B) :
  exists b, wait_after_action E p = (Ok tt, with_browser p b).
Proof.
  unfold wait_after_action, idle_or_pass, with_browser. run.
  destruct (pg_wait_for_load_state E "networkidle" 7000 (browser p))
    as [[[]|e1] b1]; simpl;
    destruct (pg_wait_for_load_state E "networkidle" 7000 b1)
      as [[[]|e2] b2]; simpl; eauto.
Qed.

(** X9.  Click, WaitFor and ScrollTo read the selector between the quotes
    and make one call of the engine with it: the step passes when the call
    returns and fails with the text of the exception when it raises.
    What follows the closing quote plays no part. *)
Theorem selector_actions_verdict
    (kw : string) (h : string -> Run.M B dict)
    (act : string -> B -> outcome unit * B)
    (w sel rest : string) (p : Page B) :
  In (kw, h, act) (selector_actions E) ->
  is_separator w = true -> is_argument sel = true ->
  let line := kw ++ w ++ dq ++ sel ++ dq ++ rest in
  (forall b, act sel (browser p) = (Ok tt, b) ->
     exists b', h line p = (Ok (pass line), with_browser p b'))
  /\ (forall e b, act sel (browser p) = (Raise e, b) ->
        h line p = (Ok (fail line (exn_str e)), with_browser p b)).
Proof.
  intros Hin Hw Hs line.
  pose proof (parse_one_quoted kw w sel rest Hw Hs) as Hm. fold line in Hm.
  destruct Hin as [H|[H|[H|[]]]]; inversion H; subst kw h act; clear H.
  - split.
    + intros b Hb. unfold handle_click. fold click_re in Hm. rewrite Hm.
      unfold pass_or_fail. run. rewrite Hb. cbn.
      destruct (wait_after_action_ok (MkPage b (_last_response p) (_vars p)))
        as [b' Hb']. rewrite Hb'. exists b'. reflexivity.
    + intros e b Hb. unfold handle_click. fold click_re in Hm. rewrite Hm.
      unfold pass_or_fail. run. rewrite Hb. reflexivity.
  - split.
    + intros b Hb. unfold handle_waitfor. fold waitfor_re in Hm. rewrite Hm.
      unfold pass_or_fail. run. rewrite Hb. exists b. reflexivity.
    + intros e b Hb. unfold handle_waitfor. fold waitfor_re in Hm. rewrite Hm.
      unfold pass_or_fail. run. rewrite Hb. reflexivity.
  - split.
    + intros b Hb. unfold handle_scrollto. fold scrollto_re in Hm. rewrite Hm.
      unfold pass_or_fail. run. rewrite Hb. exists b. reflexivity.
    + intros e b Hb. unfold handle_scrollto. fold scrollto_re in Hm. rewrite Hm.
      unfold pass_or_fail. run. rewrite Hb. reflexivity.
Qed.

(** X10.  Fill and FillAuto read the selector and the text between their
    quotes.  When filling raises, the step fails with the text of the
    exception and FillAuto presses no key; when it returns, Fill passes,
    and FillAuto presses Enter on the same selector and passes or fails by
    that call. *)
Theorem fill_commands_verdict
    (w1 sel w2 w3 txt rest : string) (p : Page B) :
  is_separator w1 = true -> is_argument sel = true ->
  is_separator w2 = true -> is_separator w3 = true ->
  is_argument txt = true ->
  let tail := w1 ++ dq ++ sel ++ dq ++ w2 ++ "with" ++ w3
              ++ dq ++ txt ++ dq ++ rest in
  (forall kw h e b, In (kw, h) (fill_commands E) ->
     pg_fill E sel txt (browser p) = (Raise e, b) ->
     h (kw ++ tail) p
     = (Ok (fail (kw ++ tail) (exn_str e)), with_browser p b))
  /\ (forall b, pg_fill E sel txt (browser p) = (Ok tt, b) ->
        exists b', handle_fill E ("Fill" ++ tail) p
                   = (Ok (pass ("Fill" ++ tail)), with_browser p b'))
  /\ (forall b e b', pg_fill E sel txt (browser p) = (Ok tt, b) ->
        pg_press E sel "Enter" b = (Raise e, b') ->
        handle_fillauto E ("FillAuto" ++ tail) p
        = (Ok (fail ("FillAuto" ++ tail) (exn_str e)), with_browser p b'))
  /\ (forall b b', pg_fill E sel txt (browser p) = (Ok tt, b) ->
        pg_press E sel "Enter" b = (Ok tt, b') ->
        exists b'', handle_fillauto E ("FillAuto" ++ tail) p
                    = (Ok (pass ("FillAuto" ++ tail)), with_browser p b'')).
Proof.
  intros H1 Hs H2 H3 Ht tail.
  assert (Hm : forall kw,
             re_match (cat [Lit kw; ws1; quoted; ws1; Lit "with"; ws1; quoted])
               (kw ++ tail) = Some [sel; txt]).
  { intros kw. apply parse_two_quoted; auto. discriminate. }
  pose proof (Hm "Fill") as Hfill. fold fill_re in Hfill.
  pose proof (Hm "FillAuto") as Hauto. fold fillauto_re in Hauto.
  split; [|split; [|split]].
  - intros kw h e b Hin Hb.
    destruct Hin as [H|[H|[]]]; inversion H; subst kw h; clear H.
    + unfold handle_fill. rewrite Hfill. unfold pass_or_fail. run.
      rewrite Hb. reflexivity.
    + unfold handle_fillauto. rewrite Hauto. unfold pass_or_fail. run.
      rewrite Hb. reflexivity.
  - intros b Hb. unfold handle_fill. rewrite Hfill. unfold pass_or_fail. run.
    rewrite Hb. cbn.
    destruct (wait_after_action_ok (MkPage b (_last_response p) (_vars p)))
      as [b' Hb']. rewrite Hb'. exists b'. reflexivity.
  - intros b e b' Hb Hp. unfold handle_fillauto. rewrite Hauto.
    unfold pass_or_fail. run. rewrite Hb. cbn. rewrite Hp. reflexivity.
  - intros b b' Hb Hp. unfold handle_fillauto. rewrite Hauto.
    unfold pass_or_fail. run. rewrite Hb. cbn. rewrite Hp. cbn.
    destruct (wait_after_action_ok (MkPage b' (_last_response p) (_vars p)))
      as [b'' Hb'']. rewrite Hb''. exists b''. reflexivity.
Qed.

(** X11.  AssertCookie compares the expected value with the first cookie
    of the given name: the step passes when they are equal, and fails when
    they differ or when no cookie has the name, which is reported as the
    value None. *)
Theorem assertcookie_first_cookie_decides
    (w1 name w2 w3 val rest : string) (cookies : list cookie) (b : B)
    (p : Page B) :
  is_separator w1 = true -> is_argument name = true ->
  is_separator w2 = true -> is_separator w3 = true ->
  is_argument val = true ->
  pg_cookies E (browser p) = (Ok cookies, b) ->
  let line := "AssertCookie" ++ w1 ++ dq ++ name ++ dq ++ w2 ++ "is" ++ w3
              ++ dq ++ val ++ dq ++ rest in
  handle_assertcookie E line p
  = (Ok match find (fun c => String.eqb (ck_name c) name) cookies with
        | Some c =>
            if String.eqb (ck_value c) val then pass line
            else fail line ("Cookie " ++ name ++ " has value " ++ ck_value c
                            ++ ", expected " ++ val)
        | None =>
            fail line ("Cookie " ++ name ++ " has value None, expected " ++ val)
        end,
     with_browser p b).
Proof.
  intros H1 Hn H2 H3 Hv Hc line.
  assert (Hm : re_match assertcookie_re line = Some [name; val]).
  { unfold assertcookie_re, line. apply parse_two_quoted; auto. discriminate. }
  unfold handle_assertcookie. rewrite Hm. unfold pass_or_fail, find_cookie.
  run. rewrite Hc. cbn.
  destruct (find (fun c => String.eqb (ck_name c) name) cookies) as [c|];
    [|reflexivity].
  destruct (String.eqb (ck_value c) val); reflexivity.
Qed.

(** X12.  Viewport reads the two numbers around the letter x, turns them
    into integers and only then, under its [try], sets the size of the
    viewport to them: the step passes or fails by that call.  A number of
    more than 4300 digits is turned down by [int] with a [ValueError],
    which the step raises in place of a result, the page untouched. *)
Theorem viewport_sets_the_size
    (w width height rest : string) (p : Page B) :
  is_separator w = true -> is_number width = true ->
  is_number height = true -> stops isdigit rest = true ->
  let line := "Viewport" ++ w ++ width ++ "x" ++ height ++ rest in
  ((Z.of_nat (length width) <= 4300)%Z ->
   (Z.of_nat (length height) <= 4300)%Z ->
   handle_viewport E line p
   = match pg_set_viewport_size E (to_int width) (to_int height) (browser p) with
     | (Ok _, b) => (Ok (pass line), with_browser p b)
     | (Raise e, b) => (Ok (fail line (exn_str e)), with_browser p b)
     end)
  /\ ((4300 < Z.of_nat (length width))%Z ->
      handle_viewport E line p
      = (Raise (ValueError (int_limit_message width)), p))
  /\ ((Z.of_nat (length width) <= 4300)%Z ->
      (4300 < Z.of_nat (length height))%Z ->
      handle_viewport E line p
      = (Raise (ValueError (int_limit_message height)), p)).
Proof.
  intros Hw Hx Hy Hr line.
  destruct (number_parts width Hx) as [Hx1 Hx2].
  destruct (number_parts height Hy) as [Hy1 Hy2].
  assert (Hm : re_match viewport_re line = Some [width; height]).
  { unfold viewport_re, line, re_match. cbn [cat].
    rewrite exec_cat, exec_lit_here, exec_cat.
    apply exec_ws1_here; [exact Hw| |].
    - destruct width as [|c x]; [congruence|]. cbn [all] in Hx2.
      apply andb_true_iff in Hx2 as [Hc _]. cbn [append stops].
      destruct (isspace c) eqn:Es; [|reflexivity].
      now rewrite (Trailing.isspace_not_digit c Es) in Hc.
    - rewrite exec_cat. apply exec_grp_plus_run; auto. cbn [app].
      rewrite exec_cat, exec_lit_here.
      apply exec_grp_plus_run; auto. }
  unfold handle_viewport. rewrite Hm.
  change (group 1 [width; height]) with width.
  change (group 2 [width; height]) with height.
  split; [|split].
  - intros Lw Lh. rewrite (int_of_str_short width Lw), (int_of_str_short height Lh).
    unfold pass_or_fail. run.
    destruct (pg_set_viewport_size E (to_int width) (to_int height) (browser p))
      as [[[]|e] b]; reflexivity.
  - intros Lw. rewrite (int_of_str_long width Lw). reflexivity.
  - intros Lw Lh.
    rewrite (int_of_str_short width Lw), (int_of_str_long height Lh).
    reflexivity.
Qed.

End CommandFacts.

Lemma selector_actions_verdict_witness :
  exists b',
    handle_click demo ("Click " ++ dq ++ "#buy" ++ dq ++ " twice") new_page
    = (Ok (pass ("Click " ++ dq ++ "#buy" ++ dq ++ " twice")),
       with_browser new_page b').
Proof.
  apply (proj1 (selector_actions_verdict demo "Click" (handle_click demo)
                  (pg_click demo) " " "#buy" " twice" new_page
                  (or_introl eq_refl) eq_refl eq_refl) tt).
  reflexivity.
Defined.

Lemma fill_commands_verdict_witness :
  exists b'',
    handle_fillauto demo
      ("FillAuto " ++ dq ++ "#q" ++ dq ++ " with " ++ dq ++ "tea" ++ dq ++ "")
      new_page
    = (Ok (pass ("FillAuto " ++ dq ++ "#q" ++ dq ++ " with " ++ dq ++ "tea"
                 ++ dq ++ "")),
       with_browser new_page b'').
Proof.
  apply (proj2 (proj2 (proj2
           (fill_commands_verdict demo " " "#q" " " " " "tea" "" new_page
              eq_refl eq_refl eq_refl eq_refl eq_refl))) tt tt);
    reflexivity.
Defined.

Lemma assertcookie_first_cookie_decides_witness :
  handle_assertcookie demo
    ("AssertCookie " ++ dq ++ "sid" ++ dq ++ " is " ++ dq ++ "42" ++ dq ++ "")
    new_page
  = (Ok (pass ("AssertCookie " ++ dq ++ "sid" ++ dq ++ " is " ++ dq ++ "42"
               ++ dq ++ "")),
     with_browser new_page tt).
Proof.
  apply (assertcookie_first_cookie_decides demo " " "sid" " " " " "42" ""
           [Cookie "sid" "42"] tt new_page);
    reflexivity.
Defined.

Lemma viewport_sets_the_size_witness :
  handle_viewport demo "Viewport 390x844" new_page
  = (Ok (pass "Viewport 390x844"), with_browser new_page tt)
  /\ handle_viewport demo ("Viewport " ++ nines 4301 ++ "x844") new_page
     = (Raise (ValueError (int_limit_message (nines 4301))), new_page).
Proof.
  split.
  - apply (proj1 (viewport_sets_the_size demo " " "390" "844" "" new_page
                    eq_refl eq_refl eq_refl eq_refl)); vm_compute; discriminate.
  - apply (proj1 (proj2 (viewport_sets_the_size demo " " (nines 4301) "844" ""
                           new_page eq_refl ltac:(vm_compute; reflexivity)
                           eq_refl eq_refl))).
    vm_compute. reflexivity.
Defined.

(** ** Assertions on a well-formed expression *)

Section AssertFacts.

Context {B : Type} (E : Env B).

Import StrFacts Grammar.

Lemma stops_space_number (n r : string) :
  is_number n = true -> stops isspace (n ++ r) = true.
Proof.
  intros Hn. destruct (number_parts n Hn) as [Hne Hd].
  destruct n as [|c x]; [congruence|]. cbn [all] in Hd.
  apply andb_true_iff in Hd as [Hc _]. cbn [append stops].
  destruct (isspace c) eqn:Es; [|reflexivity].
  now rewrite (Trailing.isspace_not_digit c Es) in Hc.
Qed.

Lemma parse_status (w1 w2 code rest : string) :
  is_separator w1 = true -> is_separator w2 = true ->
  is_number code = true -> stops isdigit rest = true ->
  re_match status_re ("page.status" ++ w1 ++ "is" ++ w2 ++ code ++ rest)
  = Some [code].
Proof.
  intros H1 H2 Hn Hr. destruct (number_parts code Hn) as [Hne Hd].
  unfold status_re, re_match. cbn [cat].
  rewrite exec_cat, exec_lit_here, exec_cat.
  apply exec_ws1_here; [exact H1 | reflexivity |].
  rewrite exec_cat, exec_lit_here, exec_cat.
  apply exec_ws1_here; [exact H2 | now apply stops_space_number |].
  now apply exec_grp_plus_run.
Qed.

(** X13.  Assert page.status is N, on a page that holds the response of
    a navigation, compares N with the status of that response: equal
    passes, different fails with both numbers; a page that holds no
    response fails for want of a prior Goto, whatever N is.  The number is
    turned into an integer once a response is there: one of more than 4300
    digits makes [int] raise a [ValueError], which is no [AssertionError]
    and leaves the chain, so that the step raises in place of a result.
    The page is left as it is. *)
Theorem status_assertion_verdict (w1 w2 code rest : string) (p : Page B) :
  is_separator w1 = true -> is_separator w2 = true ->
  is_number code = true -> stops isdigit rest = true ->
  let expr := "page.status" ++ w1 ++ "is" ++ w2 ++ code ++ rest in
  (_last_response p = None ->
   handle_assert E expr false p
   = (Ok (fail ("Assert " ++ expr) "No prior Goto; cannot check page.status"),
      p))
  /\ (forall r, _last_response p = Some r ->
        (Z.of_nat (length code) <= 4300)%Z ->
        handle_assert E expr false p
        = (Ok (if (status r =? to_int code)%Z then pass ("Assert " ++ expr)
               else fail ("Assert " ++ expr)
                      ("Expected status " ++ of_Z (to_int code)
                       ++ ", got " ++ of_Z (status r))), p))
  /\ (forall r save_snapshots, _last_response p = Some r ->
        (4300 < Z.of_nat (length code))%Z ->
        handle_assert E expr save_snapshots p
        = (Raise (ValueError (int_limit_message code)), p)).
Proof.
  intros H1 H2 Hn Hr expr.
  pose proof (parse_status w1 w2 code rest H1 H2 Hn Hr) as Hm. fold expr in Hm.
  unfold handle_assert, assertion_handlers.
  split; [|split].
  - intros El. apply assert_loop_failed.
    unfold assert_status. rewrite Hm. run. rewrite El. reflexivity.
  - intros r El Lc. destruct (status r =? to_int code)%Z eqn:Ez.
    + rewrite assert_loop_passed with (res := []) (p' := p); [reflexivity|].
      unfold assert_status. rewrite Hm. run. rewrite El.
      rewrite (int_of_str_short code Lc). cbn. rewrite Ez. reflexivity.
    + apply assert_loop_failed.
      unfold assert_status. rewrite Hm. run. rewrite El.
      rewrite (int_of_str_short code Lc). cbn. rewrite Ez. reflexivity.
  - intros r save El Lc. apply assert_loop_escapes; [|reflexivity].
    unfold assert_status. rewrite Hm. run. rewrite El.
    rewrite (int_of_str_long code Lc). reflexivity.
Qed.

(** X14.  A Goto whose navigation returns a response attaches it to the
    page before anything else, so the page holds it whether the step then
    passes, fails on the status code or raises while reading the timing or
    the title; a Goto whose navigation raises fails and leaves the response
    of the navigation before in place. *)
Theorem goto_records_the_response (w url rest : string) (p : Page B) :
  is_separator w = true -> is_argument url = true ->
  let line := "Goto" ++ w ++ dq ++ url ++ dq ++ rest in
  (forall resp b r p1,
     pg_goto E url (browser p) = (Ok (Some resp), b) ->
     handle_goto E line p = (r, p1) ->
     _last_response p1 = Some resp /\ _vars p1 = _vars p)
  /\ (forall e b,
        pg_goto E url (browser p) = (Raise e, b) ->
        handle_goto E line p
        = (Ok (fail line (exn_str e)), with_browser p b)).
Proof.
  intros Hw Hu line.
  pose proof (parse_one_quoted "Goto" w url rest Hw Hu) as Hm.
  fold goto_re in Hm. fold line in Hm.
  split.
  - intros resp b r p1 Hg H. unfold handle_goto in H. rewrite Hm in H.
    run_in H. rewrite Hg in H. cbn in H.
    destruct (pg_evaluate E navigation_timing_js b) as [[perf|e] b1];
      cbn in H; [|inversion H; subst; split; reflexivity].
    destruct (pg_title E b1) as [[t|e] b2]; cbn in H;
      inversion H; subst; split; reflexivity.
  - intros e b Hg. unfold handle_goto. rewrite Hm. run. rewrite Hg.
    reflexivity.
Qed.

(** X15.  When a matcher raises an [AssertionError] and snapshots are on,
    the loop of [handle_assert] reads the clock, saves the page and a
    screenshot under that time, and names both files in the FAIL result;
    when saving raises, the step raises that exception and the failure of
    the assertion is not reported. *)
Theorem failed_assertion_takes_snapshot
    (pre post : list (string -> Run.M B (option dict)))
    (h : string -> Run.M B (option dict))
    (step_line expr msg : string) (p p1 : Page B) :
  Forall (fun h' => forall p0, h' expr p0 = (Ok None, p0)) pre ->
  h expr p = (Raise (AssertionError msg), p1) ->
  let (t, b1) := time_ms E (browser p1) in
  let prefix := "snapshot_" ++ of_Z t in
  assert_loop E (pre ++ h :: post) step_line expr true p
  = match pg_content E b1 with
    | (Raise e, b2) => (Raise e, with_browser p1 b2)
    | (Ok html, b2) =>
        match write_text E (prefix ++ ".html") html b2 with
        | (Raise e, b3) => (Raise e, with_browser p1 b3)
        | (Ok _, b3) =>
            match pg_screenshot E (prefix ++ ".png") b3 with
            | (Raise e, b4) => (Raise e, with_browser p1 b4)
            | (Ok _, b4) =>
                (Ok (dict_of [("step", VStr step_line); ("status", VStr "FAIL");
                              ("error", VStr msg);
                              ("snapshot_html", VStr (prefix ++ ".html"));
                              ("snapshot_image", VStr (prefix ++ ".png"))]),
                 with_browser p1 b4)
            end
        end
    end.
Proof.
  intros Hpre Hh.
  destruct (time_ms E (browser p1)) as [t b1] eqn:Et.
  induction Hpre as [|h' pre Hh' Hpre IH].
  - cbn [app assert_loop]. unfold try_handler, save_snapshot, with_browser. run.
    rewrite Hh. cbn. rewrite Et. cbn.
    destruct (pg_content E b1) as [[html|e] b2]; cbn; [|reflexivity].
    destruct (write_text E _ html b2) as [[[]|e] b3]; cbn; [|reflexivity].
    destruct (pg_screenshot E _ b3) as [[[]|e] b4]; reflexivity.
  - cbn [app]. rewrite (assert_loop_no_match E h' _ _ _ _ p p (Hh' p)).
    exact IH.
Qed.

Lemma parse_quoted_then_word (kw w1 arg w2 word rest : string) :
  is_separator w1 = true -> is_argument arg = true ->
  is_separator w2 = true -> stops isspace (word ++ rest) = true ->
  re_match (cat [Lit kw; ws1; quoted; ws1; Lit word])
    (kw ++ w1 ++ dq ++ arg ++ dq ++ w2 ++ word ++ rest)
  = Some [arg].
Proof.
  intros H1 Ha H2 Hs. unfold re_match. cbn [cat].
  rewrite exec_cat, exec_lit_here, exec_cat.
  apply exec_ws1_here; [exact H1 | reflexivity |].
  rewrite exec_cat. apply exec_quoted_here; [exact Ha|].
  rewrite exec_cat. apply exec_ws1_here; [exact H2 | exact Hs |].
  apply exec_lit_here.
Qed.

(** X16.  When the selector matches one element and it is hidden,
    [assert_visible] swallows its own report that the element is not
    visible and examines the matches again: the assertion then holds if
    the element is visible at that second look, and fails as one element
    matched, none visible if it is not. *)
Theorem hidden_single_match_is_examined_again
    (w1 sel w2 rest : string) (p : Page B) (b1 b2 b3 b4 : B) (v : bool) :
  is_separator w1 = true -> is_argument sel = true ->
  is_separator w2 = true ->
  loc_count E (Loc sel) (browser p) = (Ok 1, b1) ->
  loc_is_visible E (Loc sel) b1 = (Ok false, b2) ->
  loc_count E (Loc sel) b2 = (Ok 1, b3) ->
  loc_is_visible E (Nth sel 0) b3 = (Ok v, b4) ->
  assert_visible E
    ("element" ++ w1 ++ dq ++ sel ++ dq ++ w2 ++ "visible" ++ rest) p
  = (if v
     then Ok (Some (dict_of [("matches", VInt 1); ("visible", VInt 1)]))
     else Raise (AssertionError (sel ++ " matched 1 elements, none visible")),
     with_browser p b4).
Proof.
  intros H1 Hs H2 Hc1 Hv1 Hc2 Hv2.
  pose proof (parse_quoted_then_word "element" w1 sel w2 "visible" rest
                H1 Hs H2 eq_refl) as Hm.
  fold visible_re in Hm.
  unfold assert_visible. rewrite Hm. run. rewrite Hc1. cbn. rewrite Hv1. cbn.
  rewrite Hc2. cbn. run. rewrite Hv2. destruct v; reflexivity.
Qed.

End AssertFacts.

Lemma status_assertion_verdict_witness :
  handle_assert demo "page.status is 200" false new_page
  = (Ok (fail "Assert page.status is 200"
           "No prior Goto; cannot check page.status"), new_page)
  /\ handle_assert demo "page.status is 404" false page_not_found
     = (Ok (pass "Assert page.status is 404"), page_not_found)
  /\ handle_assert demo "page.status is 200" false page_not_found
     = (Ok (fail "Assert page.status is 200" "Expected status 200, got 404"),
        page_not_found)
  /\ handle_assert demo ("page.status is " ++ nines 4301) true page_not_found
     = (Raise (ValueError (int_limit_message (nines 4301))), page_not_found).
Proof.
  split; [|split; [|split]].
  - apply (proj1 (status_assertion_verdict demo " " " " "200" "" new_page
                    eq_refl eq_refl eq_refl eq_refl)).
    reflexivity.
  - apply (proj1 (proj2 (status_assertion_verdict demo " " " " "404" ""
                           page_not_found eq_refl eq_refl eq_refl eq_refl))
             (demo_response 404 "https://example.test/missing")).
    + reflexivity.
    + vm_compute. discriminate.
  - apply (proj1 (proj2 (status_assertion_verdict demo " " " " "200" ""
                           page_not_found eq_refl eq_refl eq_refl eq_refl))
             (demo_response 404 "https://example.test/missing")).
    + reflexivity.
    + vm_compute. discriminate.
  - apply (proj2 (proj2 (status_assertion_verdict demo " " " " (nines 4301) ""
                           page_not_found eq_refl eq_refl
                           ltac:(vm_compute; reflexivity) eq_refl))
             (demo_response 404 "https://example.test/missing") true).
    + reflexivity.
    + vm_compute. reflexivity.
Defined.

Lemma goto_records_the_response_witness :
  _last_response
    (snd (handle_goto demo ("Goto " ++ dq ++ "https://example.test/missing" ++ dq)
            new_page))
  = Some (demo_response 404 "https://example.test/missing")
  /\ _vars (snd (handle_goto demo
                   ("Goto " ++ dq ++ "https://example.test/missing" ++ dq)
                   new_page))
     = _vars new_page.
Proof.
  apply (proj1 (goto_records_the_response demo " "
                  "https://example.test/missing" "" new_page eq_refl eq_refl)
           (demo_response 404 "https://example.test/missing") tt
           (fst (handle_goto demo
                   ("Goto " ++ dq ++ "https://example.test/missing" ++ dq)
                   new_page)));
    reflexivity.
Defined.

Lemma failed_assertion_takes_snapshot_witness :
  handle_assert demo "page.status is 200" true new_page
  = (Ok (dict_of [("step", VStr "Assert page.status is 200");
                  ("status", VStr "FAIL");
                  ("error", VStr "No prior Goto; cannot check page.status");
                  ("snapshot_html", VStr "snapshot_0.html");
                  ("snapshot_image", VStr "snapshot_0.png")]),
     new_page).
Proof.
  exact (failed_assertion_takes_snapshot demo [] (tl (assertion_handlers demo))
           (@assert_status unit) "Assert page.status is 200"
           "page.status is 200" "No prior Goto; cannot check page.status"
           new_page new_page (Forall_nil _) eq_refl).
Defined.

Lemma hidden_single_match_is_examined_again_witness :
  assert_visible demo_hidden ("element " ++ dq ++ "#menu" ++ dq ++ " visible")
    new_page
  = (Raise (AssertionError "#menu matched 1 elements, none visible"),
     with_browser new_page tt).
Proof.
  apply (hidden_single_match_is_examined_again demo_hidden " " "#menu" " " ""
           new_page tt tt tt tt false);
    reflexivity.
Defined.

(** ** The loop of the duplicate check *)

Section DuplicateFacts.

Context {B : Type} (E : Env B).

Import StrFacts Grammar.

Lemma class_parts (p : ascii -> bool) (s : string) :
  negb (String.eqb s "") && all p s = true -> s <> "" /\ all p s = true.
Proof.
  intros H. apply andb_true_iff in H as [H1 H2].
  split; [|exact H2]. intros ->. discriminate.
Qed.

Lemma isspace_not_word (c : ascii) : isspace c = true -> isword c = false.
Proof.
  destruct c as [[] [] [] [] [] [] [] []]; try reflexivity; discriminate.
Qed.

Lemma parse_no_duplicates (w1 attr w2 w3 sel rest : string) :
  is_separator w1 = true -> is_word attr = true ->
  is_separator w2 = true -> is_separator w3 = true ->
  is_unquoted sel = true ->
  re_match no_duplicates_re
    ("no duplicates in attribute" ++ w1 ++ attr ++ w2 ++ "of elements" ++ w3
     ++ dq ++ sel ++ dq ++ rest)
  = Some [attr; sel].
Proof.
  intros H1 Ha H2 H3 Hs.
  destruct (class_parts _ _ Ha) as [Ha1 Ha2].
  destruct (class_parts _ _ Hs) as [Hs1 Hs2].
  destruct (separator_parts w2 H2) as [Hw1 Hw2].
  unfold no_duplicates_re, re_match. cbn [cat].
  rewrite exec_cat, exec_lit_here, exec_cat.
  apply exec_ws1_here; [exact H1| |].
  { destruct attr as [|c x]; [congruence|]. cbn [all] in Ha2.
    apply andb_true_iff in Ha2 as [Hc _]. cbn [append stops].
    destruct (isspace c) eqn:Es; [|reflexivity].
    now rewrite (isspace_not_word c Es) in Hc. }
  rewrite exec_cat. apply exec_grp_plus_run; [exact Ha1 | exact Ha2 | |].
  { destruct w2 as [|c x]; [congruence|]. cbn [all] in Hw2.
    apply andb_true_iff in Hw2 as [Hc _]. cbn [append stops].
    now rewrite (isspace_not_word c Hc). }
  cbn [app]. rewrite exec_cat.
  apply exec_ws1_here; [exact H2 | reflexivity |].
  rewrite exec_cat, exec_lit_here, exec_cat.
  apply exec_ws1_here; [exact H3 | reflexivity |].
  unfold quoted_noquote. cbn [cat].
  rewrite exec_cat, exec_lit_here, exec_cat.
  apply exec_grp_plus_run; [exact Hs1 | exact Hs2 | reflexivity |].
  apply exec_lit_here.
Qed.

Lemma opt_eqb_eq (a b : option string) : opt_eqb a b = true <-> a = b.
Proof.
  destruct a as [x|], b as [y|]; cbn; split; intros H;
    try discriminate; try reflexivity.
  - apply String.eqb_eq in H. now subst.
  - inversion H. apply String.eqb_refl.
Qed.

Lemma seen_already (v : option string) (seen : list (option string)) :
  existsb (opt_eqb v) seen = true <-> In v seen.
Proof.
  rewrite existsb_exists. split.
  - intros [x [Hx He]]. apply opt_eqb_eq in He. now subst.
  - intros H. exists v. split; [exact H | now apply opt_eqb_eq].
Qed.

Lemma not_seen (v : option string) (seen : list (option string)) :
  ~ In v seen -> existsb (opt_eqb v) seen = false.
Proof.
  intros H. destruct (existsb (opt_eqb v) seen) eqn:Ex; [|reflexivity].
  now apply seen_already in Ex.
Qed.

Lemma fresh_before (vals : nat -> option string) (i d : nat) :
  i < d -> NoDup (map vals (seq 0 d)) -> ~ In (vals i) (map vals (seq 0 i)).
Proof.
  intros Hlt Hnd.
  replace d with (i + S (d - S i)) in Hnd by lia.
  rewrite seq_app, map_app in Hnd. cbn [seq map Nat.add] in Hnd.
  apply NoDup_remove_2 in Hnd. intros Hin. apply Hnd.
  apply in_or_app. now left.
Qed.

Section Loop.

Variables (sel attr : string) (vals : nat -> option string).

Hypothesis reads :
  forall j b, loc_get_attribute E (Nth sel j) attr b = (Ok (vals j), b).

Lemma loop_step (i : nat) (idx : list nat) (seen : list (option string))
    (p : Page B) :
  no_duplicates_loop E sel attr (i :: idx) seen p
  = if existsb (opt_eqb (vals i)) seen
    then (Raise (AssertionError
            ("Duplicate " ++ attr ++ "='" ++ opt_str (vals i) ++ "' in " ++ sel
             ++ "[" ++ of_Z (Z.of_nat i) ++ "]")), p)
    else no_duplicates_loop E sel attr idx (seen ++ [vals i])%list p.
Proof.
  cbn [no_duplicates_loop]. unfold bind, call. rewrite reads.
  destruct p as [b r v]. cbn [browser _last_response _vars].
  destruct (existsb (opt_eqb (vals i)) seen); reflexivity.
Qed.

Lemma loop_distinct (k : nat) :
  forall i p,
    NoDup (map vals (seq 0 (i + k))) ->
    no_duplicates_loop E sel attr (seq i k) (map vals (seq 0 i)) p
    = (Ok (map vals (seq 0 (i + k))), p).
Proof.
  induction k as [|k IH]; intros i p Hnd.
  - rewrite Nat.add_0_r. reflexivity.
  - cbn [seq]. rewrite loop_step.
    rewrite not_seen by (apply (fresh_before vals i (i + S k)); [lia | exact Hnd]).
    replace (map vals (seq 0 i) ++ [vals i])%list with (map vals (seq 0 (S i)))
      by (rewrite seq_S, map_app; reflexivity).
    replace (i + S k) with (S i + k) in * by lia.
    now apply IH.
Qed.

Lemma loop_duplicate (k : nat) :
  forall i d p,
    i <= d < i + k ->
    NoDup (map vals (seq 0 d)) -> In (vals d) (map vals (seq 0 d)) ->
    no_duplicates_loop E sel attr (seq i k) (map vals (seq 0 i)) p
    = (Raise (AssertionError
         ("Duplicate " ++ attr ++ "='" ++ opt_str (vals d) ++ "' in " ++ sel
          ++ "[" ++ of_Z (Z.of_nat d) ++ "]")), p).
Proof.
  induction k as [|k IH]; intros i d p Hd Hnd Hin; [lia|].
  cbn [seq]. rewrite loop_step.
  destruct (Nat.eq_dec i d) as [->|Hne].
  - apply seen_already in Hin. now rewrite Hin.
  - rewrite not_seen by (apply (fresh_before vals i d); [lia | exact Hnd]).
    replace (map vals (seq 0 i) ++ [vals i])%list with (map vals (seq 0 (S i)))
      by (rewrite seq_S, map_app; reflexivity).
    apply IH; [lia | exact Hnd | exact Hin].
Qed.

End Loop.

(** X17.  The duplicate check reads the attribute of the matched elements
    in order.  When the values are pairwise different it holds and reports
    the number of elements; otherwise it fails at the first element whose
    value was seen before, naming the attribute, the value and the index.
    An element without the attribute has the value None, so two such
    elements count as duplicates. *)
Theorem no_duplicates_verdict
    (w1 attr w2 w3 sel rest : string) (vals : nat -> option string)
    (n : nat) (b1 : B) (p : Page B) :
  is_separator w1 = true -> is_word attr = true ->
  is_separator w2 = true -> is_separator w3 = true ->
  is_unquoted sel = true ->
  loc_count E (Loc sel) (browser p) = (Ok n, b1) ->
  (forall j b, loc_get_attribute E (Nth sel j) attr b = (Ok (vals j), b)) ->
  let expr := "no duplicates in attribute" ++ w1 ++ attr ++ w2
              ++ "of elements" ++ w3 ++ dq ++ sel ++ dq ++ rest in
  (NoDup (map vals (seq 0 n)) ->
   assert_no_duplicates E expr p
   = (Ok (Some (dict_of [("unique_count", VInt (Z.of_nat n))])),
      with_browser p b1))
  /\ (forall d, d < n ->
        NoDup (map vals (seq 0 d)) -> In (vals d) (map vals (seq 0 d)) ->
        assert_no_duplicates E expr p
        = (Raise (AssertionError
             ("Duplicate " ++ attr ++ "='" ++ opt_str (vals d) ++ "' in "
              ++ sel ++ "[" ++ of_Z (Z.of_nat d) ++ "]")),
           with_browser p b1)).
Proof.
  intros H1 Ha H2 H3 Hs Hc Hr expr.
  pose proof (parse_no_duplicates w1 attr w2 w3 sel rest H1 Ha H2 H3 Hs) as Hm.
  fold expr in Hm. split.
  - intros Hnd. unfold assert_no_duplicates. rewrite Hm. run. rewrite Hc.
    change (@nil (option string)) with (map vals (seq 0 0)).
    rewrite (loop_distinct sel attr vals Hr n 0) by exact Hnd.
    cbn [Nat.add]. rewrite length_map, length_seq. reflexivity.
  - intros d Hd Hnd Hin. unfold assert_no_duplicates. rewrite Hm. run.
    rewrite Hc. change (@nil (option string)) with (map vals (seq 0 0)).
    rewrite (loop_duplicate sel attr vals Hr n 0 d) by (auto; lia).
    reflexivity.
Qed.

End DuplicateFacts.

Lemma no_duplicates_verdict_witness :
  assert_no_duplicates demo_links
    ("no duplicates in attribute href of elements " ++ dq ++ "a" ++ dq)
    new_page
  = (Ok (Some (dict_of [("unique_count", VInt 3)])), with_browser new_page tt)
  /\ assert_no_duplicates demo_links
       ("no duplicates in attribute rel of elements " ++ dq ++ "a" ++ dq)
       new_page
     = (Raise (AssertionError "Duplicate rel='None' in a[2]"),
        with_browser new_page tt).
Proof.
  split.
  - apply (proj1 (no_duplicates_verdict demo_links " " "href" " " " " "a" ""
                    (link_attribute "href") 3 tt new_page
                    eq_refl eq_refl eq_refl eq_refl eq_refl eq_refl
                    (fun _ _ => eq_refl))).
    repeat constructor; cbn; intuition discriminate.
  - apply (proj2 (no_duplicates_verdict demo_links " " "rel" " " " " "a" ""
                    (link_attribute "rel") 3 tt new_page
                    eq_refl eq_refl eq_refl eq_refl eq_refl eq_refl
                    (fun _ _ => eq_refl)) 2).
    + lia.
    + repeat constructor; cbn; intuition discriminate.
    + cbn. auto.
Defined.

(** ** Lines with too few quotes *)

Section MalformedFacts.

Context {B : Type} (E : Env B).

Import StrFacts Trailing.

Lemma needs_group (p : ascii -> bool) (r : regex)
    (k : string -> groups -> option groups) (n : nat) :
  needs (fun s gs => exec r s gs k) n ->
  needs (fun s gs => exec (Cat (Grp (PlusLazy p)) r) s gs k) n.
Proof.
  intros Hn y gs H. cbn [exec] in H.
  destruct y as [|c y]; [contradiction|].
  destruct (p c); [|contradiction].
  destruct (rep_lazy p y _) as [g|] eqn:El in H; [|contradiction].
  destruct (rep_lazy_some _ _ _ _ El) as [z [y' [-> Hy]]].
  cbn beta in Hy.
  assert (Hq : n <= quotes y') by (eapply Hn; rewrite Hy; discriminate).
  change (String c (z ++ y')) with (String c z ++ y').
  rewrite quotes_append. lia.
Qed.

Lemma needs_one_quoted (kw : string) :
  needs (fun s gs => exec (cat [Lit kw; ws1; quoted]) s gs done) 2.
Proof.
  change (cat [Lit kw; ws1; quoted])
    with (Cat (Lit kw) (Cat ws1 (Cat (Lit dq) (Cat (Grp (PlusLazy isdot)) (Lit dq))))).
  intros y gs H.
  pose proof (needs_lit kw _ done 2
                (needs_ws1 _ done 2
                   (needs_lit dq _ done 1 needs_last_group)) y gs H).
  lia.
Qed.

Lemma needs_two_quoted (kw link : string) :
  needs (fun s gs =>
           exec (cat [Lit kw; ws1; quoted; ws1; Lit link; ws1; quoted]) s gs done) 4.
Proof.
  set (rest := Cat ws1 (Cat (Lit link) (Cat ws1 quoted))).
  assert (Hnorm : forall s gs,
             exec (cat [Lit kw; ws1; quoted; ws1; Lit link; ws1; quoted]) s gs done
             = exec (Cat (Lit kw)
                       (Cat ws1
                          (Cat (Lit dq)
                             (Cat (Grp (PlusLazy isdot)) (Cat (Lit dq) rest)))))
                 s gs done)
    by reflexivity.
  assert (Hrest : needs (fun s gs => exec (Cat (Lit dq) rest) s gs done) 3).
  { intros y gs H.
    pose proof (needs_lit dq _ done _
                  (needs_ws1 _ done _
                     (needs_lit link _ done _
                        (needs_ws1 _ done _
                           (needs_lit dq _ done 1 needs_last_group)))) y gs H).
    change (quotes dq) with 1 in *. lia. }
  intros y gs H. rewrite Hnorm in H.
  pose proof (needs_lit kw _ done 4
                (needs_ws1 _ done 4
                   (needs_lit dq _ done 3
                      (needs_group isdot _ done 3 Hrest))) y gs H).
  lia.
Qed.

Lemma no_match_below (r : regex) (n : nat) (line : string) :
  needs (fun s gs => exec r s gs done) n ->
  quotes line < n -> re_match r line = None.
Proof.
  intros Hn Hq. unfold re_match. fold done.
  destruct (exec r line [] done) as [g|] eqn:Ex; [|reflexivity].
  assert (n <= quotes line) by (apply (Hn line []); rewrite Ex; discriminate).
  lia.
Qed.

(** X18.  A line with fewer double quotes than the pattern of its command
    asks for, two for Goto, Click, WaitFor and ScrollTo and four for Fill,
    FillAuto and AssertCookie, is turned down as malformed with status
    SYNTAX_ERROR, and the browser is not touched. *)
Theorem too_few_quotes_is_malformed
    (n : nat) (h : string -> Run.M B dict) (line : string) (p : Page B) :
  In (n, h) (quotes_needed E) ->
  quotes line < n ->
  exists msg,
    h line p = (Ok (syntax_error line msg), p)
    /\ startswith "Malformed " msg = true.
Proof.
  intros Hin Hq.
  destruct Hin as [H|[H|[H|[H|[H|[H|[H|[]]]]]]]];
    inversion H; subst n h; clear H.
  - exists "Malformed Goto". split; [|reflexivity]. unfold handle_goto.
    now rewrite (no_match_below goto_re 2 line (needs_one_quoted "Goto")).
  - exists "Malformed Click". split; [|reflexivity]. unfold handle_click.
    now rewrite (no_match_below click_re 2 line (needs_one_quoted "Click")).
  - exists "Malformed Fill". split; [|reflexivity]. unfold handle_fill.
    now rewrite (no_match_below fill_re 4 line (needs_two_quoted "Fill" "with")).
  - exists "Malformed FillAuto". split; [|reflexivity]. unfold handle_fillauto.
    now rewrite (no_match_below fillauto_re 4 line
                   (needs_two_quoted "FillAuto" "with")).
  - exists "Malformed WaitFor". split; [|reflexivity]. unfold handle_waitfor.
    now rewrite (no_match_below waitfor_re 2 line (needs_one_quoted "WaitFor")).
  - exists "Malformed ScrollTo". split; [|reflexivity]. unfold handle_scrollto.
    now rewrite (no_match_below scrollto_re 2 line (needs_one_quoted "ScrollTo")).
  - exists "Malformed AssertCookie". split; [|reflexivity].
    unfold handle_assertcookie.
    now rewrite (no_match_below assertcookie_re 4 line
                   (needs_two_quoted "AssertCookie" "is")).
Qed.

End MalformedFacts.

Lemma too_few_quotes_is_malformed_witness :
  exists msg,
    handle_fill demo ("Fill " ++ dq ++ "#q" ++ dq ++ " with tea") new_page
    = (Ok (syntax_error ("Fill " ++ dq ++ "#q" ++ dq ++ " with tea") msg),
       new_page)
    /\ startswith "Malformed " msg = true.
Proof.
  apply (too_few_quotes_is_malformed demo 4 (handle_fill demo)
           ("Fill " ++ dq ++ "#q" ++ dq ++ " with tea") new_page).
  - right. right. left. reflexivity.
  - vm_compute. lia.
Defined.

(** ** The loop of a device run *)

Section RunFacts.

Context {B : Type} (E : Env B).

Lemma device_run_in_sequence_aux
    (pre post : list string) (save_snapshots : bool) :
  forall (tags : list string) (results : list dict) (p : Page B),
    run_lines E (pre ++ post) tags save_snapshots results p
    = match run_lines E pre tags save_snapshots results p with
      | (Ok out, p1) =>
          run_lines E post (last_tags pre tags) save_snapshots out p1
      | (Raise e, p1) => (Raise e, p1)
      end.
Proof.
  induction pre as [|raw pre IH]; intros tags results p; [reflexivity|].
  cbn [app run_lines last_tags]. unfold is_tags_line, tags_of_line.
  destruct (startswith "Tags:" (strip raw)); [apply IH|].
  destruct (String.eqb (strip raw) "" || startswith "Test:" (strip raw)
            || String.eqb (strip raw) "End" || startswith "#" (strip raw));
    [apply IH|].
  unfold bind.
  destruct (execute_step E (strip raw) save_snapshots p) as [[[d|]|e] p1];
    [|apply IH|reflexivity].
  destruct (dict_truthy d); apply IH.
Qed.

(** X19.  The loop of [run_device] runs the lines in sequence: running a
    script is running its first part and then the rest from the page, the
    tag set and the results the first part left.  An exception in the first
    part ends the run there: the rest is not run and no result is
    returned. *)
Theorem device_run_in_sequence
    (pre post : list string) (save_snapshots : bool) :
  forall (tags : list string) (results : list dict) (p : Page B),
    run_lines E (pre ++ post) tags save_snapshots results p
    = match run_lines E pre tags save_snapshots results p with
      | (Ok out, p1) =>
          run_lines E post (last_tags pre tags) save_snapshots out p1
      | (Raise e, p1) => (Raise e, p1)
      end.
Proof. exact (device_run_in_sequence_aux pre post save_snapshots). Qed.

Lemma run_lines_extends (save_snapshots : bool) (lines : list string) :
  forall (tags : list string) (results out : list dict) (p p' : Page B),
    run_lines E lines tags save_snapshots results p = (Ok out, p') ->
    exists more, out = (results ++ more)%list.
Proof.
  induction lines as [|raw lines IH]; intros tags results out p p' H.
  - cbn in H. inversion H; subst. exists []. now rewrite app_nil_r.
  - cbn [run_lines] in H.
    destruct (startswith "Tags:" (strip raw)); [now apply IH in H|].
    destruct (String.eqb (strip raw) "" || startswith "Test:" (strip raw)
              || String.eqb (strip raw) "End" || startswith "#" (strip raw));
      [now apply IH in H|].
    unfold bind in H.
    destruct (execute_step E (strip raw) save_snapshots p) as [[[d|]|e] p1];
      [|now apply IH in H|discriminate].
    destruct (dict_truthy d); [|now apply IH in H].
    apply IH in H as [more ->]. rewrite <- app_assoc. eauto.
Qed.

(** X20.  A device run only adds to its results: whatever a script goes on
    to do, the results it has collected stay, in the same order, at the
    start of the results it returns. *)
Theorem device_run_keeps_earlier_results
    (pre post : list string) (tags : list string) (save_snapshots : bool)
    (p p1 p2 : Page B) (first all_ : list dict) :
  run_lines E pre tags save_snapshots [] p = (Ok first, p1) ->
  run_lines E (pre ++ post) tags save_snapshots [] p = (Ok all_, p2) ->
  exists more, all_ = (first ++ more)%list.
Proof.
  intros H1 H2. rewrite device_run_in_sequence_aux in H2.
  rewrite H1 in H2. now apply run_lines_extends in H2.
Qed.

End RunFacts.

Lemma device_run_keeps_earlier_results_witness :
  exists more,
    lines_out (run_lines demo
                 (app ["Click " ++ q "#a"] ["Tags: late"; "Click " ++ q "#b"])
                 [] false [] new_page)
    = app (lines_out (run_lines demo ["Click " ++ q "#a"] [] false [] new_page))
        more.
Proof.
  apply (device_run_keeps_earlier_results demo
           ["Click " ++ q "#a"] ["Tags: late"; "Click " ++ q "#b"] [] false
           new_page
           (snd (run_lines demo ["Click " ++ q "#a"] [] false [] new_page))
           (snd (run_lines demo
                   (app ["Click " ++ q "#a"] ["Tags: late"; "Click " ++ q "#b"])
                   [] false [] new_page)));
    vm_compute; reflexivity.
Defined.

(** ** The similarity assertion *)

Section SimilarFacts.

Context {B : Type} (E : Env B).

Import StrFacts Grammar.

Lemma isspace_not_threshold (c : ascii) :
  isspace c = true -> isdigit_or_dot c = false.
Proof.
  destruct c as [[] [] [] [] [] [] [] []]; try reflexivity; discriminate.
Qed.

Lemma parse_similar (w1 sel w2 w3 phrase w4 w5 thr rest : string) :
  is_separator w1 = true -> is_argument sel = true ->
  is_separator w2 = true -> is_separator w3 = true ->
  is_argument phrase = true ->
  all isspace w4 = true -> all isspace w5 = true ->
  is_threshold thr = true -> stops isdigit_or_dot rest = true ->
  re_match similar_re
    ("element" ++ w1 ++ dq ++ sel ++ dq ++ w2 ++ "similar to" ++ w3
     ++ dq ++ phrase ++ dq ++ w4 ++ "<" ++ w5 ++ thr ++ rest)
  = Some [sel; phrase; thr].
Proof.
  intros H1 Hs H2 H3 Hp H4 H5 Ht Hr.
  destruct (class_parts _ _ Ht) as [Ht1 Ht2].
  unfold similar_re, re_match. cbn [cat].
  rewrite exec_cat, exec_lit_here, exec_cat.
  apply exec_ws1_here; [exact H1 | reflexivity |].
  rewrite exec_cat. apply exec_quoted_here; [exact Hs|]. cbn [app].
  rewrite exec_cat. apply exec_ws1_here; [exact H2 | reflexivity |].
  rewrite exec_cat, exec_lit_here, exec_cat.
  apply exec_ws1_here; [exact H3 | reflexivity |].
  rewrite exec_cat. apply exec_quoted_here; [exact Hp|]. cbn [app].
  rewrite exec_cat. apply exec_star_run; [exact H4 | reflexivity |].
  rewrite exec_cat, exec_lit_here, exec_cat.
  apply exec_star_run; [exact H5| |].
  { destruct thr as [|c x]; [congruence|]. cbn [all] in Ht2.
    apply andb_true_iff in Ht2 as [Hc _]. cbn [append stops].
    destruct (isspace c) eqn:Es; [|reflexivity].
    now rewrite (isspace_not_threshold c Es) in Hc. }
  now apply exec_grp_plus_run.
Qed.

(** X21.  The similarity assertion takes the score of the phrase against
    the visible text, both in lower case, as a float: the float nearest to
    twice the matched characters over the two lengths.  It holds when that
    float is below the threshold, and fails when it reaches it.  So an
    element that shows the phrase itself, up to case, fails every threshold
    up to 1, and an element whose text shares no character with the phrase
    passes every threshold above 0. *)
Theorem similarity_assertion_wants_a_low_score
    (w1 sel w2 w3 phrase w4 w5 thr rest txt : string) (x : Q) (b : B)
    (p : Page B) :
  is_separator w1 = true -> is_argument sel = true ->
  is_separator w2 = true -> is_separator w3 = true ->
  is_argument phrase = true ->
  all isspace w4 = true -> all isspace w5 = true ->
  is_threshold thr = true -> stops isdigit_or_dot rest = true ->
  startswith "head meta" (lower sel) = false ->
  float_of_str E thr = Ok x ->
  loc_evaluate E (Loc sel) visible_text_js (browser p) = (Ok txt, b) ->
  let expr := "element" ++ w1 ++ dq ++ sel ++ dq ++ w2 ++ "similar to" ++ w3
              ++ dq ++ phrase ++ dq ++ w4 ++ "<" ++ w5 ++ thr ++ rest in
  let score := Float.round (similar_score (lower phrase) (lower txt)) in
  assert_similar E expr p
  = (if Qle_bool x score
     then Raise (AssertionError
            ("Similarity " ++ float_2f E score ++ geq ++ float_str E x))
     else Ok (Some (dict_of [("similarity", VFloat score);
                             ("text_snippet", VStr (take 50 txt))])),
     with_browser p b)
  /\ (lower txt = lower phrase -> (x <= 1)%Q -> Qle_bool x score = true)
  /\ (disjoint_chars (lower phrase) (lower txt) -> (0 < x)%Q ->
      Qle_bool x score = false).
Proof.
  intros H1 Hs H2 H3 Hp H4 H5 Ht Hr Hmeta Hx Htxt expr score.
  pose proof (parse_similar w1 sel w2 w3 phrase w4 w5 thr rest
                H1 Hs H2 H3 Hp H4 H5 Ht Hr) as Hm.
  fold expr in Hm. split; [|split].
  - unfold assert_similar. rewrite Hm. run.
    rewrite Hx, Hmeta. unfold extract_visible_text. run. rewrite Htxt. cbn.
    fold score. destruct (Qle_bool x score); reflexivity.
  - intros Heq Hle. unfold score, similar_score, similar. rewrite Heq.
    rewrite DifflibFacts.ratio_identical.
    apply Qle_bool_iff.
    rewrite (FloatFacts.round_one _ (calculate_ratio_all _)). exact Hle.
  - intros Hd Hpos. unfold score, similar_score, similar.
    rewrite (DifflibFacts.ratio_disjoint _ _ Hd).
    rewrite FloatFacts.round_zero.
    + destruct (Qle_bool x 0) eqn:Eq; [|reflexivity].
      apply Qle_bool_iff in Eq. exfalso. apply (Qlt_not_le _ _ Hpos Eq).
    + apply calculate_ratio_none. destruct phrase; [discriminate|].
      cbn. lia.
Qed.

End SimilarFacts.

Lemma similarity_assertion_wants_a_low_score_witness :
  (exists msg,
     assert_similar demo_texts
       ("element " ++ dq ++ "p" ++ dq ++ " similar to " ++ dq ++ "a" ++ dq
        ++ " < 0.18181818181818182")
       new_page
     = (Raise (AssertionError msg), with_browser new_page tt))
  /\ Qle_bool (float_value "0.5")
       (Float.round (similar_score (lower "sign in") (lower "Sign In")))
     = true.
Proof.
  split.
  - eexists.
    etransitivity;
      [apply (proj1 (similarity_assertion_wants_a_low_score demo_texts
                       " " "p" " " " " "a" " " " " "0.18181818181818182" ""
                       "abcdefghij" (float_value "0.18181818181818182") tt
                       new_page
                       eq_refl eq_refl eq_refl eq_refl eq_refl eq_refl eq_refl
                       eq_refl eq_refl eq_refl eq_refl eq_refl))|].
    vm_compute. reflexivity.
  - apply (proj1 (proj2 (similarity_assertion_wants_a_low_score demo_texts
                           " " "h1" " " " " "sign in" " " " " "0.5" ""
                           "Sign In" (float_value "0.5") tt new_page
                           eq_refl eq_refl eq_refl eq_refl eq_refl eq_refl
                           eq_refl eq_refl eq_refl eq_refl eq_refl eq_refl))).
    + reflexivity.
    + vm_compute. discriminate.
Defined.

(** ** Expressions no matcher knows *)

Section UnknownFacts.

Context {B : Type} (E : Env B).

(** X26.  An expression that opens with none of the words of the matchers
    and is not the canonical expression is turned down by all twelve
    without a call of the engine: the result is SYNTAX_ERROR, Unknown
    assertion, and the page is as before, whether snapshots are on or
    off. *)
Theorem unknown_assertion_is_syntax_error
    (expr : string) (save_snapshots : bool) (p : Page B) :
  forallb (fun w => negb (startswith w expr)) assertion_openings = true ->
  strip expr <> "canonical href equals page.url" ->
  handle_assert E expr save_snapshots p
  = (Ok (syntax_error ("Assert " ++ expr) ("Unknown assertion: " ++ expr)), p).
Proof. apply handle_assert_unknown. Qed.

End UnknownFacts.

Lemma unknown_assertion_is_syntax_error_witness :
  handle_assert demo "title is Example" true new_page
  = (Ok (syntax_error "Assert title is Example"
           "Unknown assertion: title is Example"), new_page).
Proof.
  apply (unknown_assertion_is_syntax_error demo "title is Example" true
           new_page).
  - reflexivity.
  - discriminate.
Defined.

(** ** The score lies between 0 and 1 *)

Module RatioBounds.

Import Difflib DifflibFacts.

Section BoundsB.

Variables (a b : string) (b2j : b2j_t).
Variables (alo ahi blo bhi : nat).

Lemma inner_bounds_b (i : nat) (j2len : j2len_t) :
  (forall j, j2len_get j j2len <= S j - blo) ->
  forall (js : list nat) (newj2len : j2len_t) (best : match_t),
    (forall j, j2len_get j newj2len <= S j - blo) ->
    blo <= snd (fst best) -> snd (fst best) + size best <= bhi ->
    let r := inner blo bhi i js j2len newj2len best in
    (forall j, j2len_get j (fst r) <= S j - blo)
    /\ blo <= snd (fst (snd r)) /\ snd (fst (snd r)) + size (snd r) <= bhi.
Proof.
  intros Hprev. induction js as [|j js IH]; intros newj2len best Hnew Hlo Hhi.
  - cbn. auto.
  - cbn [inner]. destruct (j <? blo) eqn:Ejl; [now apply IH|].
    destruct (bhi <=? j) eqn:Ejh; [cbn; auto|].
    apply Nat.ltb_ge in Ejl. apply Nat.leb_gt in Ejh.
    set (k := match j with O => 0 | S j' => j2len_get j' j2len end + 1).
    assert (Hk : 1 <= k <= S j - blo).
    { unfold k. destruct j as [|j']; [lia|]. specialize (Hprev j'). lia. }
    apply IH.
    + intros x. rewrite j2len_get_set. destruct (x =? j) eqn:Ex; [|apply Hnew].
      apply Nat.eqb_eq in Ex. subst x. lia.
    + destruct (size best <? k); [cbn; lia | exact Hlo].
    + destruct (size best <? k); [unfold size; cbn; lia | exact Hhi].
Qed.

Lemma outer_bounds_b (is_ : list nat) :
  forall (j2len : j2len_t) (best : match_t),
    (forall j, j2len_get j j2len <= S j - blo) ->
    blo <= snd (fst best) -> snd (fst best) + size best <= bhi ->
    let best' := outer a b2j blo bhi is_ j2len best in
    blo <= snd (fst best') /\ snd (fst best') + size best' <= bhi.
Proof.
  induction is_ as [|i is_ IH]; intros j2len best Hprev Hlo Hhi.
  - cbn. auto.
  - cbn [outer].
    set (js := match String.get i a with
               | Some c => b2j_get c b2j
               | None => []
               end).
    pose proof (inner_bounds_b i j2len Hprev js [] best) as Hin.
    destruct (inner blo bhi i js j2len [] best) as [newj2len best1].
    destruct Hin as [Hget [Hlo1 Hhi1]]; [intros j; cbn; lia | exact Hlo | exact Hhi |].
    cbn [fst snd] in *. now apply IH.
Qed.

Lemma extend_left_bounds_b (besti : nat) :
  forall bestj bestsize,
    blo <= bestj ->
    let r := extend_left a b alo blo besti bestj bestsize in
    blo <= snd (fst r) /\ snd (fst r) + size r = bestj + bestsize.
Proof.
  induction besti as [|i' IH]; intros bestj bestsize Hlo; cbn [extend_left].
  - cbn. auto.
  - destruct bestj as [|j']; [cbn; auto|].
    destruct ((alo <? S i') && (blo <? S j')
              && char_eqb (String.get i' a) (String.get j' b)) eqn:E;
      [|cbn; auto].
    apply andb_true_iff in E as [E _]. apply andb_true_iff in E as [_ E].
    apply Nat.ltb_lt in E.
    destruct (IH j' (bestsize + 1)) as [H1 H2]; [lia|].
    split; [exact H1 | lia].
Qed.

Lemma extend_right_bounds_b (room : nat) :
  forall besti bestj bestsize,
    bestj + bestsize <= bhi ->
    let r := extend_right a b bhi room besti bestj bestsize in
    snd (fst r) = bestj /\ bestj + size r <= bhi.
Proof.
  induction room as [|room IH]; intros besti bestj bestsize Hhi;
    cbn [extend_right].
  - unfold size; cbn. auto.
  - destruct ((bestj + bestsize <? bhi)
              && char_eqb (String.get (besti + bestsize) a)
                          (String.get (bestj + bestsize) b)) eqn:E;
      [|unfold size; cbn; auto].
    apply andb_true_iff in E as [E _]. apply Nat.ltb_lt in E.
    apply IH. lia.
Qed.

(** The match lies in the range of [b] it was looked for in. *)
Lemma find_longest_match_bounds_b :
  blo <= bhi ->
  let r := find_longest_match a b b2j alo ahi blo bhi in
  blo <= snd (fst r) /\ snd (fst r) + size r <= bhi.
Proof.
  intros Hle. unfold find_longest_match.
  pose proof (outer_bounds_b (seq alo (ahi - alo)) [] (alo, blo, 0)) as Ho.
  destruct (outer a b2j blo bhi (seq alo (ahi - alo)) [] (alo, blo, 0))
    as [[bi bj] bs].
  destruct Ho as [Ho1 Ho2]; try (cbn; lia).
  unfold size in Ho2. cbn in Ho1, Ho2.
  pose proof (extend_left_bounds_b bi bj bs Ho1) as Hl.
  destruct (extend_left a b alo blo bi bj bs) as [[li lj] ls].
  destruct Hl as [Hl1 Hl2]. unfold size in Hl2. cbn in Hl1, Hl2.
  pose proof (extend_right_bounds_b (ahi - (li + ls)) li lj ls) as Hr.
  destruct (extend_right a b bhi (ahi - (li + ls)) li lj ls) as [[ri rj] rs].
  destruct Hr as [Hr1 Hr2]; [lia|]. unfold size in *. cbn in *. lia.
Qed.

End BoundsB.

Lemma total_size_cons (m : match_t) (l : list match_t) :
  total_size (m :: l) = size m + total_size l.
Proof. reflexivity. Qed.

Lemma total_size_snoc (l : list match_t) (m : match_t) :
  total_size (l ++ [m]) = total_size l + size m.
Proof.
  unfold total_size. rewrite map_app, list_sum_app. cbn. lia.
Qed.

(** The blocks found fit in what was left to look at, in [a] and in [b]. *)
Lemma blocks_loop_fits (a b : string) (b2j : b2j_t) (fuel : nat) :
  forall (queue : list range_t) (mb out : list match_t),
    Forall range_ok queue -> Forall range_ok_b queue ->
    blocks_loop a b b2j fuel queue mb = Some out ->
    total_size out <= total_size mb + room_a queue
    /\ total_size out <= total_size mb + room_b queue.
Proof.
  induction fuel as [|fuel IH]; intros queue mb out Ha Hb Hr.
  - destruct queue as [|[[[alo ahi] blo] bhi] queue]; [|discriminate].
    cbn in Hr. inversion Hr; subst. cbn. lia.
  - destruct queue as [|[[[alo ahi] blo] bhi] queue].
    { cbn in Hr. inversion Hr; subst. cbn. lia. }
    cbn [blocks_loop] in Hr. cbn [room_a room_b].
    inversion Ha as [|x xs Hra Hqa]; subst.
    inversion Hb as [|x xs Hrb Hqb]; subst. cbn in Hra, Hrb.
    pose proof (find_longest_match_bounds a b b2j alo ahi blo bhi Hra) as Ba.
    pose proof (find_longest_match_bounds_b a b b2j alo ahi blo bhi Hrb) as Bb.
    destruct (find_longest_match a b b2j alo ahi blo bhi) as [[i j] k].
    unfold size in Ba, Bb. cbn in Ba, Bb.
    destruct Ba as [Ba1 Ba2]. destruct Bb as [Bb1 Bb2].
    destruct (k =? 0) eqn:Ek; cbn [negb] in Hr.
    + apply IH in Hr; [lia | exact Hqa | exact Hqb].
    + apply IH in Hr.
      * rewrite total_size_snoc in Hr. unfold size in Hr. cbn [snd] in Hr.
        destruct Hr as [H1 H2].
        destruct ((i + k <? ahi) && (j + k <? bhi)) eqn:E2;
          destruct ((alo <? i) && (blo <? j)) eqn:E1;
          cbn [room_a room_b] in H1, H2; lia.
      * destruct ((i + k <? ahi) && (j + k <? bhi));
          destruct ((alo <? i) && (blo <? j));
          repeat (constructor; try (cbn; lia)); exact Hqa.
      * destruct ((i + k <? ahi) && (j + k <? bhi)) eqn:E2;
          destruct ((alo <? i) && (blo <? j)) eqn:E1;
          repeat match goal with
                 | H : _ && _ = true |- _ =>
                     apply andb_true_iff in H as [?H ?H]
                 | H : (_ <? _) = true |- _ => apply Nat.ltb_lt in H
                 end;
          repeat (constructor; try (cbn; lia)); exact Hqb.
Qed.

Lemma total_size_insert (x : match_t) (l : list match_t) :
  total_size (insert_sorted x l) = size x + total_size l.
Proof.
  induction l as [|y l IH]; [reflexivity|].
  cbn [insert_sorted]. destruct (match_leb x y); [reflexivity|].
  rewrite !total_size_cons, IH. lia.
Qed.

Lemma total_size_sort (l : list match_t) : total_size (sort l) = total_size l.
Proof.
  induction l as [|x l IH]; [reflexivity|].
  unfold sort in *. cbn [fold_right]. rewrite total_size_insert, IH.
  reflexivity.
Qed.

Lemma total_size_collapse (blocks : list match_t) :
  forall cur non_adjacent,
    total_size (collapse cur non_adjacent blocks)
    = total_size non_adjacent + size cur + total_size blocks.
Proof.
  induction blocks as [|[[i2 j2] k2] blocks IH]; intros [[i1 j1] k1] na.
  - cbn [collapse]. change (total_size []) with 0.
    destruct (k1 =? 0) eqn:Ek; cbn [negb].
    + apply Nat.eqb_eq in Ek. subst. unfold size. cbn [snd]. lia.
    + rewrite total_size_snoc. lia.
  - cbn [collapse]. rewrite total_size_cons.
    destruct ((i1 + k1 =? i2) && (j1 + k1 =? j2)).
    + rewrite IH. unfold size. cbn [snd]. lia.
    + rewrite IH. destruct (k1 =? 0) eqn:Ek; cbn [negb].
      * apply Nat.eqb_eq in Ek. subst. unfold size. cbn [snd]. lia.
      * rewrite total_size_snoc. unfold size. cbn [snd]. lia.
Qed.

Lemma fold_add_list_sum (l : list nat) :
  forall n, fold_left Nat.add l n = n + list_sum l.
Proof.
  induction l as [|x l IH]; intros n.
  - cbn. lia.
  - cbn [fold_left]. rewrite IH.
    change (list_sum (x :: l)) with (x + list_sum l). lia.
Qed.

(** The number of matched characters is at most the length of each text. *)
Lemma ratio_matches (a b : string) :
  exists m,
    ratio a b = Some (calculate_ratio m (length a + length b))
    /\ m <= length a /\ m <= length b.
Proof.
  unfold ratio, get_matching_blocks.
  destruct (blocks_loop a b (chain_b b) (fuel_for a)
              [(0, length a, 0, length b)] []) as [mb|] eqn:El.
  - apply blocks_loop_fits in El;
      [|repeat constructor; cbn; lia | repeat constructor; cbn; lia].
    cbn [room_a room_b] in El. change (total_size []) with 0 in El.
    eexists. split; [reflexivity|].
    rewrite fold_add_list_sum. cbn [Nat.add].
    match goal with
    | |- list_sum (map size ?l) <= _ /\ _ => change (list_sum (map size l)) with (total_size l)
    end.
    rewrite total_size_snoc, total_size_collapse, total_size_sort.
    change (total_size []) with 0. unfold size. cbn [snd]. lia.
  - exfalso. revert El. apply blocks_loop_total.
    + constructor; [cbn; lia | constructor].
    + unfold fuel_for. cbn. lia.
Qed.

(** X27.  [similar] always returns a score, and the score lies between 0
    and 1. *)
Theorem similar_score_is_between_0_and_1 (a b : string) :
  exists x, similar a b = Some x /\ (0 <= x)%Q /\ (x <= 1)%Q.
Proof.
  destruct (ratio_matches a b) as [m [Hr [Ha Hb]]].
  unfold similar. rewrite Hr. eexists. split; [reflexivity|].
  unfold calculate_ratio.
  destruct (length a + length b =? 0) eqn:E0; cbn [negb].
  - split; unfold Qle; cbn; lia.
  - apply Nat.eqb_neq in E0. split; unfold Qle; cbn [Qnum Qden].
    + lia.
    + rewrite <- (positive_nat_Z (Pos.of_nat (length a + length b))).
      rewrite Nat2Pos.id by exact E0. lia.
Qed.

End RatioBounds.

(** ** Counting matches and children *)

Section CountFacts.

Context {B : Type} (E : Env B).

Import StrFacts Grammar.

Lemma count_visible_counts (sel : string) (vis : nat -> bool) :
  (forall i b, loc_is_visible E (Nth sel i) b = (Ok (vis i), b)) ->
  forall (idx : list nat) (c : nat) (p : Page B),
    count_visible E sel idx c p
    = (Ok (c + List.length (filter vis idx)), with_browser p (browser p)).
Proof.
  intros Hv. induction idx as [|i idx IH]; intros c p.
  - destruct p. cbn. now rewrite Nat.add_0_r.
  - cbn [count_visible filter]. unfold bind, call. rewrite Hv.
    rewrite IH. unfold with_browser. cbn [browser _last_response _vars].
    destruct (vis i); cbn [List.length]; [rewrite Nat.add_succ_r|];
      reflexivity.
Qed.

(** X28.  When the selector matches no element, [assert_visible] fails as
    not found; when it matches several, it looks at each of them, holds as
    soon as one is visible, reporting how many matched and how many are
    visible, and fails when none is. *)
Theorem visible_counts_the_visible_matches
    (w1 sel w2 rest : string) (n : nat) (vis : nat -> bool) (p : Page B) :
  is_separator w1 = true -> is_argument sel = true ->
  is_separator w2 = true ->
  (forall b, loc_count E (Loc sel) b = (Ok n, b)) ->
  (forall i b, loc_is_visible E (Nth sel i) b = (Ok (vis i), b)) ->
  n <> 1 ->
  let visible := List.length (filter vis (seq 0 n)) in
  assert_visible E
    ("element" ++ w1 ++ dq ++ sel ++ dq ++ w2 ++ "visible" ++ rest) p
  = (if (n =? 0)%nat then Raise (AssertionError (sel ++ " not found"))
     else if (visible =? 0)%nat
     then Raise (AssertionError
            (sel ++ " matched " ++ of_Z (Z.of_nat n) ++ " elements, none visible"))
     else Ok (Some (dict_of [("matches", VInt (Z.of_nat n));
                             ("visible", VInt (Z.of_nat visible))])),
     with_browser p (browser p)).
Proof.
  intros H1 Hs H2 Hc Hv Hn visible.
  pose proof (parse_quoted_then_word "element" w1 sel w2 "visible" rest
                H1 Hs H2 eq_refl) as Hm.
  fold visible_re in Hm.
  unfold assert_visible. rewrite Hm. run. rewrite Hc.
  apply Nat.eqb_neq in Hn. rewrite Hn. cbn. rewrite Hc. cbn.
  destruct (n =? 0)%nat; [reflexivity|].
  rewrite (count_visible_counts sel vis Hv). cbn. fold visible.
  destruct (visible =? 0)%nat; reflexivity.
Qed.

Lemma exec_alt (r1 r2 : regex) (s : string) (gs : groups)
    (k : string -> groups -> option groups) :
  exec (Alt r1 r2) s gs k
  = match exec r1 s gs k with
    | Some g => Some g
    | None => exec r2 s gs k
    end.
Proof. reflexivity. Qed.

Lemma exec_grp (r : regex) (s : string) (gs : groups)
    (k : string -> groups -> option groups) :
  exec (Grp r) s gs k
  = exec r s gs (fun s' gs' => k s' (gs' ++ [consumed s s'])%list).
Proof. reflexivity. Qed.

Lemma exec_lit_miss (l s : string) (gs : groups)
    (k : string -> groups -> option groups) :
  strip_prefix l s = None -> exec (Lit l) s gs k = None.
Proof. intros H. cbn [exec]. now rewrite H. Qed.

(** The operator of a comparison is read whole: the longer of two
    operators with the same first character is tried first. *)
Lemma exec_operator (op tail : string) (cmp : Z -> Z -> bool)
    (gs g : groups) (k : string -> groups -> option groups) :
  In (op, cmp) comparisons ->
  strip_prefix "=" tail = None ->
  k tail (gs ++ [op])%list = Some g ->
  exec (Grp (Alt (Lit ">=") (Alt (Lit "<=") (Alt (Lit ">") (Alt (Lit "<") (Lit "==")))))) 
    (op ++ tail) gs k = Some g.
Proof.
  intros Hin Hne Hk. rewrite exec_grp.
  assert (Hend : forall l, l = op ->
            exec (Lit l) (op ++ tail) gs
              (fun s' gs' => k s' (gs' ++ [consumed (op ++ tail) s'])%list)
            = Some g).
  { intros l ->. rewrite exec_lit_here, consumed_here. exact Hk. }
  destruct Hin as [H|[H|[H|[H|[H|[]]]]]]; inversion H; subst op cmp; clear H.
  - rewrite exec_alt, (Hend ">=" eq_refl). reflexivity.
  - rewrite exec_alt, exec_lit_miss by reflexivity.
    rewrite exec_alt, (Hend "<=" eq_refl). reflexivity.
  - rewrite exec_alt, exec_lit_miss by (cbn; exact Hne).
    rewrite exec_alt, exec_lit_miss by reflexivity.
    rewrite exec_alt, (Hend ">" eq_refl). reflexivity.
  - rewrite exec_alt, exec_lit_miss by reflexivity.
    rewrite exec_alt, exec_lit_miss by (cbn; exact Hne).
    rewrite exec_alt, exec_lit_miss by reflexivity.
    rewrite exec_alt, (Hend "<" eq_refl). reflexivity.
  - rewrite exec_alt, exec_lit_miss by reflexivity.
    rewrite exec_alt, exec_lit_miss by reflexivity.
    rewrite exec_alt, exec_lit_miss by reflexivity.
    rewrite exec_alt, exec_lit_miss by reflexivity.
    apply (Hend "==" eq_refl).
Qed.

Lemma no_equals_ahead (w n rest : string) :
  all isspace w = true -> is_number n = true ->
  strip_prefix "=" (w ++ n ++ rest) = None.
Proof.
  intros Hw Hn. destruct (number_parts n Hn) as [Hne Hd].
  destruct w as [|c w].
  - destruct n as [|d n]; [congruence|]. cbn [all] in Hd.
    apply andb_true_iff in Hd as [Hd _]. cbn [append strip_prefix].
    destruct (Ascii.eqb "=" d) eqn:Ed; [|reflexivity].
    apply Ascii.eqb_eq in Ed. subst d. discriminate.
  - cbn [all] in Hw. apply andb_true_iff in Hw as [Hc _].
    cbn [append strip_prefix].
    destruct (Ascii.eqb "=" c) eqn:Ec; [|reflexivity].
    apply Ascii.eqb_eq in Ec. subst c. discriminate.
Qed.

Lemma children_op_comparison (op : string) (cmp : Z -> Z -> bool) (cnt val : Z) :
  In (op, cmp) comparisons -> children_op op cnt val = cmp cnt val.
Proof.
  intros Hin.
  destruct Hin as [H|[H|[H|[H|[H|[]]]]]]; inversion H; subst op cmp; clear H;
    unfold children_op; cbn [String.eqb Ascii.eqb Bool.eqb andb].
  - now rewrite Z.geb_leb.
  - reflexivity.
  - now rewrite Z.gtb_ltb.
  - reflexivity.
  - reflexivity.
Qed.

(** X29.  The children assertion turns the number into an integer, counts
    the direct children of the selector and compares the count with the
    number by the operator written, read whole (>= is not > followed by
    =): it holds when count OP number does, and fails naming both numbers
    and the operator when it does not.  A number of more than 4300 digits
    makes [int] raise a [ValueError] before anything is counted; the chain
    does not catch it, and the step raises in place of a result. *)
Theorem children_assertion_compares_the_count
    (w1 sel w2 w3 op w4 number rest : string) (cmp : Z -> Z -> bool)
    (p : Page B) :
  is_separator w1 = true -> is_argument sel = true ->
  is_separator w2 = true ->
  all isspace w3 = true -> all isspace w4 = true ->
  In (op, cmp) comparisons ->
  is_number number = true -> stops isdigit rest = true ->
  let expr := "children of" ++ w1 ++ dq ++ sel ++ dq ++ w2 ++ "count" ++ w3
              ++ op ++ w4 ++ number ++ rest in
  (forall n b,
     (Z.of_nat (length number) <= 4300)%Z ->
     loc_count E (Loc (sel ++ " > *")) (browser p) = (Ok n, b) ->
     assert_children E expr p
     = (if cmp (Z.of_nat n) (to_int number)
        then Ok (Some (dict_of [("children_count", VInt (Z.of_nat n))]))
        else Raise (AssertionError
               ("Children count " ++ of_Z (Z.of_nat n) ++ " " ++ op ++ " "
                ++ of_Z (to_int number) ++ " failed")),
        with_browser p b))
  /\ (forall save_snapshots,
        (4300 < Z.of_nat (length number))%Z ->
        assert_children E expr p
        = (Raise (ValueError (int_limit_message number)), p)
        /\ handle_assert E expr save_snapshots p
           = (Raise (ValueError (int_limit_message number)), p)).
Proof.
  intros H1 Hs H2 H3 H4 Hop Hn Hr expr.
  destruct (number_parts number Hn) as [Hn1 Hn2].
  assert (Hm : re_match children_re expr = Some [sel; op; number]).
  { unfold children_re, re_match, expr. cbn [cat].
    rewrite exec_cat, exec_lit_here, exec_cat.
    apply exec_ws1_here; [exact H1 | reflexivity |].
    rewrite exec_cat. apply exec_quoted_here; [exact Hs|]. cbn [app].
    rewrite exec_cat. apply exec_ws1_here; [exact H2 | reflexivity |].
    rewrite exec_cat, exec_lit_here, exec_cat.
    apply exec_star_run; [exact H3| |].
    { destruct Hop as [H|[H|[H|[H|[H|[]]]]]]; inversion H; reflexivity. }
    rewrite exec_cat.
    apply (exec_operator op _ cmp); [exact Hop | now apply no_equals_ahead |].
    cbn [app]. rewrite exec_cat.
    apply exec_star_run; [exact H4 | now apply stops_space_number |].
    now apply exec_grp_plus_run. }
  assert (Hlong : (4300 < Z.of_nat (length number))%Z ->
                  assert_children E expr p
                  = (Raise (ValueError (int_limit_message number)), p)).
  { intros Ln. unfold assert_children. rewrite Hm.
    change (group 3 [sel; op; number]) with number.
    rewrite (int_of_str_long number Ln). reflexivity. }
  split.
  - intros n b Ln Hc. unfold assert_children. rewrite Hm.
    change (group 3 [sel; op; number]) with number.
    rewrite (int_of_str_short number Ln). run. rewrite Hc. cbn.
    rewrite (children_op_comparison op cmp _ _ Hop).
    destruct (cmp (Z.of_nat n) (to_int number)); reflexivity.
  - intros save Ln. split; [exact (Hlong Ln)|].
    unfold handle_assert, assertion_handlers.
    assert (Hst : forallb (fun w => negb (startswith w expr))
                    ["page.status"; "page.url"; "element"] = true)
      by reflexivity.
    cbn [forallb] in Hst.
    repeat (apply andb_true_iff in Hst as [?H Hst]).
    repeat match goal with
           | H : negb _ = true |- _ => apply negb_true_iff in H
           end.
    rewrite (assert_loop_no_match E _ _ _ _ _ p p);
      [|unfold assert_status, status_re; cbn [cat];
        now rewrite no_match_without_opening].
    rewrite (assert_loop_no_match E _ _ _ _ _ p p);
      [|unfold assert_url, url_re; cbn [cat];
        now rewrite no_match_without_opening].
    rewrite (assert_loop_no_match E _ _ _ _ _ p p);
      [|unfold assert_exists, exists_re; cbn [cat];
        now rewrite no_match_without_opening].
    rewrite (assert_loop_no_match E _ _ _ _ _ p p);
      [|unfold assert_visible, visible_re; cbn [cat];
        now rewrite no_match_without_opening].
    rewrite (assert_loop_no_match E _ _ _ _ _ p p);
      [|unfold assert_similar, similar_re; cbn [cat];
        now rewrite no_match_without_opening].
    apply assert_loop_escapes; [exact (Hlong Ln) | reflexivity].
Qed.

End CountFacts.

Lemma visible_counts_the_visible_matches_witness :
  assert_visible demo_three ("element " ++ dq ++ "li" ++ dq ++ " visible")
    new_page
  = (Ok (Some (dict_of [("matches", VInt 3); ("visible", VInt 2)])),
     with_browser new_page tt).
Proof.
  apply (visible_counts_the_visible_matches demo_three " " "li" " " "" 3
           (fun i => match i with 1 => false | _ => true end) new_page);
    try reflexivity.
  discriminate.
Defined.

Lemma children_assertion_compares_the_count_witness :
  assert_children demo
    ("children of " ++ dq ++ "ul" ++ dq ++ " count >= 2") new_page
  = (Raise (AssertionError "Children count 1 >= 2 failed"),
     with_browser new_page tt)
  /\ handle_assert demo
       ("children of " ++ dq ++ "ul" ++ dq ++ " count >= " ++ nines 4301)
       false new_page
     = (Raise (ValueError (int_limit_message (nines 4301))), new_page).
Proof.
  split.
  - apply (proj1 (children_assertion_compares_the_count demo " " "ul" " " " "
                    ">=" " " "2" "" Z.geb new_page
                    eq_refl eq_refl eq_refl eq_refl eq_refl
                    (or_introl eq_refl) eq_refl eq_refl) 1 tt).
    + vm_compute. discriminate.
    + reflexivity.
  - apply (proj2 (children_assertion_compares_the_count demo " " "ul" " " " "
                    ">=" " " (nines 4301) "" Z.geb new_page
                    eq_refl eq_refl eq_refl eq_refl eq_refl
                    (or_introl eq_refl) ltac:(vm_compute; reflexivity)
                    eq_refl) false).
    vm_compute. reflexivity.
Defined.

(** ** The lines of a script *)

Section LineFacts.

Context {B : Type} (E : Env B).

Import StrFacts.

Lemma splitlines_go_line (l : string) :
  no_break l = true ->
  forall cur rest,
    splitlines_go cur false (l ++ rest) = splitlines_go (cur ++ l) false rest.
Proof.
  unfold no_break. induction l as [|c l IH]; intros Hl cur rest.
  - cbn [append]. now rewrite append_nil_r.
  - cbn [all] in Hl. apply andb_true_iff in Hl as [Hc Hl].
    apply negb_true_iff in Hc. cbn [append splitlines_go].
    assert (H13 : (code c =? 13)%N = false).
    { destruct (code c =? 13)%N eqn:E13; [|reflexivity].
      unfold islinebreak, between in Hc. apply N.eqb_eq in E13.
      rewrite E13 in Hc. discriminate. }
    assert (H10 : (code c =? 10)%N = false).
    { destruct (code c =? 10)%N eqn:E10; [|reflexivity].
      unfold islinebreak, between in Hc. apply N.eqb_eq in E10.
      rewrite E10 in Hc. discriminate. }
    rewrite H13, H10, Hc, (IH Hl). now rewrite append_assoc.
Qed.

Lemma splitlines_go_break (sep : string) (cur rest : string) :
  In sep [lf; crlf] ->
  splitlines_go cur false (sep ++ rest) = cur :: splitlines_go "" false rest.
Proof.
  intros [<-|[<-|[]]]; reflexivity.
Qed.

Lemma splitlines_join (sep : string) (lines : list string) :
  In sep [lf; crlf] ->
  Forall (fun l => no_break l = true) lines ->
  last lines "" <> "" ->
  splitlines (join sep lines) = lines.
Proof.
  intros Hsep Hall Hlast.
  assert (Hgo : splitlines_go "" false (join sep lines) = lines).
  { induction Hall as [|x lines Hx Hall IH]; [cbn in Hlast; congruence|].
    destruct lines as [|y lines].
    - cbn [join last] in *.
      rewrite <- (append_nil_r x) at 1.
      rewrite (splitlines_go_line x Hx "" ""). cbn [append splitlines_go].
      destruct x; [congruence | reflexivity].
    - change (join sep (x :: y :: lines))
        with (x ++ sep ++ join sep (y :: lines)).
      rewrite (splitlines_go_line x Hx), (splitlines_go_break sep _ _ Hsep).
      cbn [append]. rewrite IH; [reflexivity | exact Hlast]. }
  unfold splitlines. destruct (join sep lines); [|exact Hgo].
  cbn in Hgo. exact Hgo.
Qed.

(** X30.  A script whose lines are joined by line feeds, or by carriage
    return and line feed, is run line by line in the order of the file,
    with nothing added for the line ends: the device run is the loop over
    these lines, and the two kinds of line end give the same run. *)
Theorem script_is_run_line_by_line
    (sep : string) (lines : list string) (device : string)
    (save_snapshots : bool) (p : Page B) :
  In sep [lf; crlf] ->
  Forall (fun l => no_break l = true) lines ->
  last lines "" <> "" ->
  run_device E (join sep lines) device [] save_snapshots p
  = match run_lines E lines [] save_snapshots [] p with
    | (Ok results, p') => (Ok (device, results), p')
    | (Raise e, p') => (Raise e, p')
    end.
Proof.
  intros Hsep Hall Hlast. unfold run_device. cbn [substitute].
  rewrite (splitlines_join sep lines Hsep Hall Hlast).
  unfold bind, ret.
  destruct (run_lines E lines [] save_snapshots [] p) as [[results|e] p'];
    reflexivity.
Qed.

End LineFacts.

Lemma script_is_run_line_by_line_witness :
  run_device demo (join crlf ["Tags: smoke"; "Click " ++ q "#a"; "End"])
    "desktop" [] false new_page
  = match run_lines demo ["Tags: smoke"; "Click " ++ q "#a"; "End"] [] false []
            new_page with
    | (Ok results, p') => (Ok ("desktop", results), p')
    | (Raise e, p') => (Raise e, p')
    end.
Proof.
  apply (script_is_run_line_by_line demo crlf
           ["Tags: smoke"; "Click " ++ q "#a"; "End"] "desktop" false new_page).
  - right. left. reflexivity.
  - repeat constructor.
  - discriminate.
Defined.

(** ** The command line *)

Module CliFacts.

Import StrFacts.

Lemma split_on_go_word (sep : ascii) (w : string) :
  has sep w = false ->
  forall cur rest,
    Cli.split_on_go sep cur (w ++ String sep rest)
    = (cur ++ w) :: Cli.split_on_go sep "" rest.
Proof.
  induction w as [|c w IH]; intros Hw cur rest.
  - cbn [append Cli.split_on_go]. now rewrite Ascii.eqb_refl, append_nil_r.
  - cbn [has] in Hw. apply orb_false_iff in Hw as [Hc Hw].
    cbn [append Cli.split_on_go]. rewrite Ascii.eqb_sym, Hc, (IH Hw).
    now rewrite append_assoc.
Qed.

Lemma split_on_go_last (sep : ascii) (w : string) :
  has sep w = false ->
  forall cur, Cli.split_on_go sep cur w = [cur ++ w].
Proof.
  induction w as [|c w IH]; intros Hw cur.
  - cbn. now rewrite append_nil_r.
  - cbn [has] in Hw. apply orb_false_iff in Hw as [Hc Hw].
    cbn [Cli.split_on_go]. rewrite Ascii.eqb_sym, Hc, (IH Hw).
    now rewrite append_assoc.
Qed.

(** X22.  The device list is split at every comma: names without a comma,
    joined by commas, are read back as they were, empty names included;
    the empty text is one device with the empty name. *)
Theorem devices_option_round_trip (names : list string) :
  names <> [] ->
  Forall (fun name => has "," name = false) names ->
  Cli.split_on "," (join "," names) = names.
Proof.
  intros Hne Hall. unfold Cli.split_on.
  induction Hall as [|name names Hn Hall IH]; [congruence|].
  destruct names as [|name' names].
  - cbn [join]. now rewrite split_on_go_last.
  - change (join "," (name :: name' :: names))
      with (name ++ String "," (join "," (name' :: names))).
    rewrite (split_on_go_word "," name Hn). cbn [append].
    now rewrite IH.
Qed.

Lemma split_once_option (name val : string) :
  has "=" name = false ->
  split_once "=" (name ++ "=" ++ val) = Some (name, val).
Proof.
  intros Hn. induction name as [|c name IH].
  - reflexivity.
  - cbn [has] in Hn. apply orb_false_iff in Hn as [Hc Hn].
    cbn [append split_once]. rewrite Ascii.eqb_sym in Hc.
    change (name ++ String "=" val) with (name ++ "=" ++ val).
    now rewrite Hc, (IH Hn).
Qed.

Lemma split_once_none (s : string) :
  has "=" s = false -> split_once "=" s = None.
Proof.
  induction s as [|c s IH]; intros Hs; [reflexivity|].
  cbn [has] in Hs. apply orb_false_iff in Hs as [Hc Hs].
  cbn [split_once]. rewrite Ascii.eqb_sym in Hc. now rewrite Hc, (IH Hs).
Qed.

Lemma vars_get_set (k k' v : string) (d : list (string * string)) :
  Cli.vars_get k (Cli.vars_set k' v d)
  = if String.eqb k k' then Some v else Cli.vars_get k d.
Proof.
  induction d as [|[k0 v0] d IH]; cbn [Cli.vars_set Cli.vars_get].
  - reflexivity.
  - destruct (String.eqb k' k0) eqn:E0; cbn [Cli.vars_get].
    + apply String.eqb_eq in E0; subst k0.
      destruct (String.eqb k k'); reflexivity.
    + destruct (String.eqb k k0) eqn:E1.
      * apply String.eqb_eq in E1; subst k0.
        rewrite String.eqb_sym in E0. now rewrite E0.
      * exact IH.
Qed.

Lemma vars_get_snoc (k : string) (kvs : list (string * string))
    (kv : string * string) :
  Cli.vars_get k (kvs ++ [kv])
  = match Cli.vars_get k kvs with
    | Some v => Some v
    | None => if String.eqb k (fst kv) then Some (snd kv) else None
    end.
Proof.
  induction kvs as [|[k0 v0] kvs IH]; cbn [app Cli.vars_get].
  - destruct kv; reflexivity.
  - destruct (String.eqb k k0); [reflexivity | exact IH].
Qed.

Lemma parse_vars_options (kvs : list (string * string)) :
  Forall (fun kv => has "=" (fst kv) = false) kvs ->
  forall i d,
    exists d',
      Cli.parse_vars i (map var_option kvs) d = Ok d'
      /\ forall k, Cli.vars_get k d'
                   = match Cli.vars_get k (rev kvs) with
                     | Some v => Some v
                     | None => Cli.vars_get k d
                     end.
Proof.
  induction 1 as [|[name val] kvs Hn Hall IH]; intros i d.
  - exists d. split; reflexivity.
  - cbn [map Cli.parse_vars]. unfold var_option at 1. cbn [fst snd] in *.
    rewrite (split_once_option name val Hn).
    destruct (IH (S i) (Cli.vars_set name val d)) as [d' [Hp Hg]].
    exists d'. split; [exact Hp|]. intros k. rewrite Hg.
    cbn [rev]. rewrite vars_get_snoc, vars_get_set. cbn [fst snd].
    destruct (Cli.vars_get k (rev kvs)); [reflexivity|].
    destruct (String.eqb k name); reflexivity.
Qed.

Lemma parse_vars_stops (kvs : list (string * string)) (bad : string)
    (more : list string) :
  Forall (fun kv => has "=" (fst kv) = false) kvs ->
  has "=" bad = false ->
  forall i d,
    Cli.parse_vars i (map var_option kvs ++ bad :: more) d
    = Raise (ValueError
               ("dictionary update sequence element #"
                ++ of_Z (Z.of_nat (i + List.length kvs))
                ++ " has length 1; 2 is required")).
Proof.
  intros Hall Hbad.
  induction Hall as [|[name val] kvs Hn Hall IH]; intros i d.
  - cbn [map app Cli.parse_vars List.length]. rewrite (split_once_none bad Hbad).
    now rewrite Nat.add_0_r.
  - cbn [map app Cli.parse_vars List.length]. unfold var_option at 1.
    cbn [fst snd] in *. rewrite (split_once_option name val Hn).
    rewrite IH.
    replace (S i + List.length kvs) with (i + S (List.length kvs)) by lia.
    reflexivity.
Qed.

(** X23.  The options -v name=value are read in order into the variables:
    a name takes the value of its last option, and the value is all that
    follows the first equals sign.  An option without an equals sign makes
    the whole command line fail with a [ValueError] that gives the position
    of the first such option. *)
Theorem vars_options_are_read_in_order (kvs : list (string * string)) :
  Forall (fun kv => has "=" (fst kv) = false) kvs ->
  (exists d,
     Cli.parse_vars 0 (map var_option kvs) [] = Ok d
     /\ forall k, Cli.vars_get k d = Cli.vars_get k (rev kvs))
  /\ (forall bad more,
        has "=" bad = false ->
        Cli.parse_vars 0 (map var_option kvs ++ bad :: more) []
        = Raise (ValueError
                   ("dictionary update sequence element #"
                    ++ of_Z (Z.of_nat (List.length kvs))
                    ++ " has length 1; 2 is required"))).
Proof.
  intros Hall. split.
  - destruct (parse_vars_options kvs Hall 0 []) as [d [Hp Hg]].
    exists d. split; [exact Hp|]. intros k. rewrite Hg.
    destruct (Cli.vars_get k (rev kvs)); reflexivity.
  - intros bad more Hbad.
    apply (parse_vars_stops kvs bad more Hall Hbad 0 []).
Qed.

Section MainFacts.

Context {B : Type} (E : Env B) (H : Host B).

Lemma run_device_done (script device engine : string)
    (vars_ : list (string * string)) (debug save : bool) (b b' : B)
    (bundle : string * list dict) :
  Cli.run_device E H script device engine vars_ debug save b
  = (Cli.Done bundle, b') ->
  device_options device DEVICE_VIEWPORTS <> None /\ fst bundle = device.
Proof.
  unfold Cli.run_device, Cli.with_playwright, Cli.andthen, Cli.host, Cli.on_new_page.
  intros Hr.
  destruct (pw_start H b) as [[[]|e0] b0]; [|discriminate].
  destruct (pw_launch H engine (negb debug) b0) as [[[]|e1] b1].
  2:{ destruct (pw_stop H b1) as [[[]|e] b2]; discriminate. }
  destruct (device_options device DEVICE_VIEWPORTS) as [opts|].
  2:{ destruct (pw_stop H b1) as [[[]|e] b2]; discriminate. }
  split; [discriminate|].
  destruct (br_new_context H opts b1) as [[[]|e2] b2].
  2:{ destruct (pw_stop H b2) as [[[]|e] b3]; discriminate. }
  destruct (ctx_new_page H b2) as [[[]|e3] b3].
  2:{ destruct (pw_stop H b3) as [[[]|e] b4]; discriminate. }
  destruct (read_text H script b3) as [[content|e4] b4].
  2:{ destruct (pw_stop H b4) as [[[]|e] b5]; discriminate. }
  unfold run_device, bind, ret in Hr.
  destruct (run_lines E (splitlines (substitute vars_ content)) [] save []
              (MkPage b4 None None)) as [[out|e5] p5].
  2:{ destruct (pw_stop H (browser p5)) as [[[]|e] b6]; discriminate. }
  destruct (br_close H (browser p5)) as [[[]|e6] b6].
  2:{ destruct (pw_stop H b6) as [[[]|e] b7]; discriminate. }
  destruct (pw_stop H b6) as [[[]|e] b7]; [|discriminate].
  inversion Hr; subst. reflexivity.
Qed.

Lemma run_devices_done (args : Args) (vars_ : list (string * string))
    (ds : list string) :
  forall (acc out : list (string * list dict)) (b b' : B),
    Cli.run_devices E H args vars_ ds acc b = (Cli.Done out, b') ->
    Forall (fun d => device_options d DEVICE_VIEWPORTS <> None) ds
    /\ map fst out = (map fst acc ++ ds)%list.
Proof.
  induction ds as [|d ds IH]; intros acc out b b' Hr.
  - cbn in Hr. inversion Hr; subst. split; [constructor|].
    now rewrite app_nil_r.
  - cbn [Cli.run_devices] in Hr. unfold Cli.andthen in Hr.
    destruct (Cli.run_device E H (arg_script args) d (arg_browser args) vars_
                (arg_debug args) (arg_snap args) b) as [[bundle|e] b1] eqn:Ed;
      [|discriminate].
    destruct (run_device_done _ _ _ _ _ _ _ _ _ Ed) as [Hk Hf].
    destruct (IH _ _ _ _ Hr) as [Hall Hm].
    split; [now constructor|].
    rewrite Hm, map_app. cbn [map]. rewrite Hf, <- app_assoc. reflexivity.
Qed.

(** X24.  When [main] returns, it returns one bundle for each name of the
    device list, in the order of the list, a name given twice giving two
    bundles; and every name is one of desktop, mobile and bot. *)
Theorem main_returns_a_bundle_for_each_device
    (args : Args) (b b' : B) (out : list (string * list dict)) :
  Cli.main E H args b = (Cli.Done out, b') ->
  map fst out = Cli.split_on "," (arg_devices args)
  /\ Forall (fun d => In d ["desktop"; "mobile"; "bot"])
       (Cli.split_on "," (arg_devices args)).
Proof.
  unfold Cli.main. intros Hr.
  destruct (Cli.parse_vars 0 (arg_vars args) []) as [vars_|e]; [|discriminate].
  destruct (run_devices_done _ _ _ _ _ _ _ Hr) as [Hall Hm].
  split; [exact Hm|].
  eapply Forall_impl; [|exact Hall]. intros d Hd. cbn in Hd.
  destruct (String.eqb d "desktop") eqn:E1;
    [apply String.eqb_eq in E1; subst; cbn; auto|].
  destruct (String.eqb d "mobile") eqn:E2;
    [apply String.eqb_eq in E2; subst; cbn; auto|].
  destruct (String.eqb d "bot") eqn:E3;
    [apply String.eqb_eq in E3; subst; cbn; auto|].
  congruence.
Qed.

(** X25.  A device name that is not in the table makes [main] fail: no
    list of bundles is returned, whatever the devices before it did. *)
Theorem unknown_device_gives_no_output
    (args : Args) (d : string) (b : B) :
  In d (Cli.split_on "," (arg_devices args)) ->
  device_options d DEVICE_VIEWPORTS = None ->
  forall out b', Cli.main E H args b <> (Cli.Done out, b').
Proof.
  intros Hin Hd out b' Hr. unfold Cli.main in Hr.
  destruct (Cli.parse_vars 0 (arg_vars args) []) as [vars_|e]; [|discriminate].
  destruct (run_devices_done _ _ _ _ _ _ _ Hr) as [Hall _].
  rewrite Forall_forall in Hall. now apply (Hall d Hin).
Qed.

End MainFacts.

Lemma devices_option_round_trip_witness :
  Cli.split_on "," (join "," ["desktop"; ""; "bot"]) = ["desktop"; ""; "bot"].
Proof.
  apply (devices_option_round_trip ["desktop"; ""; "bot"]).
  - discriminate.
  - repeat constructor.
Defined.

Lemma vars_options_are_read_in_order_witness :
  exists d,
    Cli.parse_vars 0
      (map var_option [("q", "tea"); ("url", "https://a.test/?x=1"); ("q", "mate")])
      []
    = Ok d
    /\ forall k,
         Cli.vars_get k d
         = Cli.vars_get k
             (rev [("q", "tea"); ("url", "https://a.test/?x=1"); ("q", "mate")]).
Proof.
  apply (proj1 (vars_options_are_read_in_order
                  [("q", "tea"); ("url", "https://a.test/?x=1"); ("q", "mate")]
                  ltac:(repeat constructor))).
Defined.

Lemma main_returns_a_bundle_for_each_device_witness :
  map fst (bundles_of (Cli.main demo demo_host (demo_args "mobile,desktop") tt))
  = Cli.split_on "," (arg_devices (demo_args "mobile,desktop"))
  /\ Forall (fun d => In d ["desktop"; "mobile"; "bot"])
       (Cli.split_on "," (arg_devices (demo_args "mobile,desktop"))).
Proof.
  apply (main_returns_a_bundle_for_each_device demo demo_host
           (demo_args "mobile,desktop") tt tt).
  vm_compute. reflexivity.
Defined.

Lemma unknown_device_gives_no_output_witness :
  Cli.main demo demo_host (demo_args "desktop,tablet") tt <> (Cli.Done [], tt).
Proof.
  apply (unknown_device_gives_no_output demo demo_host
           (demo_args "desktop,tablet") "tablet" tt).
  - vm_compute. auto.
  - reflexivity.
Defined.

End CliFacts.
